(** * wtperf: the concurrent workload engine of bench/wtperf/wtperf.c

    A shallow embedding of the schedule builder, the latency aggregator,
    the key distribution generator, the worker loop and the populate loop,
    together with the properties the specification states about them. *)

From Stdlib Require Import ZArith Lia List Bool.
From stdpp Require Import base list.
Import ListNotations.

Local Open Scope Z_scope.

(** ** Machine integers *)

Definition wrap8 (x : Z) : Z := x mod 2 ^ 8.
Definition wrap32 (x : Z) : Z := x mod 2 ^ 32.
Definition wrap64 (x : Z) : Z := x mod 2 ^ 64.
Definition UINT32_MAX : Z := 2 ^ 32 - 1.

(** ** Operation tags *)

(** Modelled from the spec: the four operation tags that a schedule slot
    holds.  They are macros of wtperf.h, which is not part of the sources;
    the values are those of the header, and nothing below depends on more
    than their being distinct bytes. *)
Definition WORKER_READ : Z := 1.
Definition WORKER_INSERT : Z := 2.
Definition WORKER_INSERT_RMW : Z := 3.
Definition WORKER_UPDATE : Z := 4.

(** [sizeof(g_run_mix_ops)] and [sizeof(thread->schedule)]. *)
Definition SCHEDULE_SLOTS : nat := 100.

(** ** Schedule builder *)

(** The memory the builder works on: the 100 bytes of [g_run_mix_ops] and
    the byte that happens to follow them, which is what the pointer [end]
    designates.  [mix_oob] is a ghost flag, raised as soon as that byte is
    read or written. *)
Record mix_mem : Type := MixMem {
  mix_ops : list Z;
  mix_beyond : Z;
  mix_oob : bool
}.

(** [*p] for a pointer [p = g_run_mix_ops + i]. *)
Definition mix_load (m : mix_mem) (i : nat) : Z :=
  if (i <? SCHEDULE_SLOTS)%nat then default 0 (mix_ops m !! i) else mix_beyond m.

(** The ghost effect of dereferencing [g_run_mix_ops + i]. *)
Definition mix_touch (m : mix_mem) (i : nat) : mix_mem :=
  if (i <? SCHEDULE_SLOTS)%nat then m
  else MixMem (mix_ops m) (mix_beyond m) true.

(** [*p = (uint8_t)op]. *)
Definition mix_store (m : mix_mem) (i : nat) (op : Z) : mix_mem :=
  if (i <? SCHEDULE_SLOTS)%nat
  then MixMem (<[i := wrap8 op]> (mix_ops m)) (mix_beyond m) (mix_oob m)
  else MixMem (mix_ops m) (wrap8 op) true.

(** The scan [for (; *p != WORKER_READ; ++p) if (p == end) p = g_run_mix_ops;].
    The condition is evaluated before the body, so [*p] is read before [p]
    is compared with [end]; after the reset the increment of the [for]
    still runs.  The loop need not terminate, hence the fuel. *)
Fixpoint mix_scan (fuel : nat) (m : mix_mem) (p : nat) : option (mix_mem * nat) :=
  match fuel with
  | O => None
  | S fuel' =>
      let m1 := mix_touch m p in
      if mix_load m p =? WORKER_READ then Some (m1, p)
      else
        let p1 := if (p =? SCHEDULE_SLOTS)%nat then O else p in
        mix_scan fuel' m1 (S p1)
  end.

(** [if (end - jump < p) p = g_run_mix_ops; else p += jump;] *)
Definition mix_jump (jump p : nat) : nat :=
  if (SCHEDULE_SLOTS - jump <? p)%nat then O else (p + jump)%nat.

(** The body of [for (i = 0; i < op_cnt; ++i)], run [n] more times. *)
Fixpoint mix_place (fuel : nat) (op : Z) (jump : nat) (n : nat)
    (m : mix_mem) (p : nat) : option (mix_mem * nat) :=
  match n with
  | O => Some (m, p)
  | S n' =>
      match mix_scan fuel m p with
      | None => None
      | Some (m1, q) =>
          mix_place fuel op jump n' (mix_store m1 q op) (mix_jump jump q)
      end
  end.

(** [run_mix_schedule_op(op, op_cnt)]; [op_cnt] is a [uint32_t].  There is
    no result when [op_cnt] is 0 (the division [100 / op_cnt] traps; the
    callers never pass 0) or when a scan runs out of fuel. *)
Definition run_mix_schedule_op (fuel : nat) (op : Z) (op_cnt : Z)
    (m : mix_mem) : option mix_mem :=
  if op_cnt =? 0 then None
  else
    let jump := Z.to_nat (100 / op_cnt) in
    match mix_place fuel op jump (Z.to_nat op_cnt) m O with
    | None => None
    | Some (m', _) => Some m'
    end.

(** Modelled from the spec: the fields of [CONFIG] that the modelled
    functions read.  The structure is declared in wtperf.h and
    wtperf_opt.i, which are not part of the sources; the numeric options
    are 32-bit unsigned (the source prints them with [PRIu32]) and the two
    flags are C booleans. *)
Record CONFIG : Type := Config {
  icount : Z;
  data_sz : Z;
  insert_threads : Z;
  random_range : Z;
  pareto : bool;
  insert_rmw : bool;
  run_mix_inserts : Z;
  run_mix_updates : Z;
  latency_aggregate : Z;
  populate_ops_per_txn : Z
}.

(** [memset(g_run_mix_ops, WORKER_READ, sizeof(g_run_mix_ops))]; the byte
    after the array keeps whatever it held. *)
Definition mix_memset (m : mix_mem) : mix_mem :=
  MixMem (replicate SCHEDULE_SLOTS WORKER_READ) (mix_beyond m) (mix_oob m).

(** [run_mix_schedule(cfg)]. *)
Definition run_mix_schedule (fuel : nat) (cfg : CONFIG) (m : mix_mem)
    : option mix_mem :=
  let m0 := mix_memset m in
  let r1 :=
    if run_mix_inserts cfg =? 0 then Some m0
    else run_mix_schedule_op fuel
           (if insert_rmw cfg then WORKER_INSERT_RMW else WORKER_INSERT)
           (run_mix_inserts cfg) m0 in
  match r1 with
  | None => None
  | Some m1 =>
      if run_mix_updates cfg =? 0 then Some m1
      else run_mix_schedule_op fuel WORKER_UPDATE (run_mix_updates cfg) m1
  end.

(** Number of slots of a schedule that hold the tag [t]. *)
Fixpoint count_tag (t : Z) (l : list Z) : nat :=
  match l with
  | [] => O
  | x :: l' => ((if Z.eqb x t then 1 else 0) + count_tag t l')%nat
  end.


(** Enough fuel for any scan that terminates: a scan reads at most the 101
    bytes up to [end] and then at most the 99 slots after slot 0 before it
    either stops or repeats itself. *)
Definition MIX_FUEL : nat := 201.

(** ** Latency aggregator *)

(** Modelled from the spec: the unit conversions of wtperf.h (absent from
    the sources), on 64-bit unsigned values. *)
Definition THOUSAND : Z := 1000.
Definition MILLION : Z := 1000000.
Definition BILLION : Z := 1000000000.
Definition ns_to_us (v : Z) : Z := v / THOUSAND.
Definition ns_to_ms (v : Z) : Z := v / MILLION.
Definition ns_to_sec (v : Z) : Z := v / BILLION.
Definition us_to_ns (v : Z) : Z := wrap64 (v * THOUSAND).
Definition ms_to_ns (v : Z) : Z := wrap64 (v * MILLION).
Definition sec_to_ns (v : Z) : Z := wrap64 (v * BILLION).

(** Modelled from the spec: the TRACK structure of wtperf.h (absent from the
    sources).  [ops] and [latency] are 64-bit, [aggregated], the two
    extremes and the bucket counters are 32-bit (the source casts to
    [uint32_t] when it stores an extreme and starts the minimum at
    [UINT32_MAX]). *)
Record TRACK : Type := Track {
  ops : Z;
  aggregated : Z;
  latency : Z;
  min_latency : Z;
  max_latency : Z;
  us : list Z;
  ms : list Z;
  sec : list Z
}.

(** Modelled from the spec: the sizes of the three bucket arrays of wtperf.h:
    1000 microsecond buckets, 1000 millisecond buckets and 100 second
    buckets, the last of which also takes everything above 100 s. *)
Definition TRACK_sized (trk : TRACK) : Prop :=
  length (us trk) = 1000%nat /\ length (ms trk) = 1000%nat /\
  length (sec trk) = 100%nat.

(** [a[i] += n] on an array of 32-bit counters. *)
Definition bucket_add (a : list Z) (i : nat) (n : Z) : list Z :=
  <[i := wrap32 (default 0 (a !! i) + n)]> a.

(** [track_aggregated_update(trk, nsecs, aggregated)].  There is no result
    when the track has pending operations and the divisor [aggregated] is 0:
    the division traps. *)
Definition track_aggregated_update (trk : TRACK) (nsecs : Z) (aggr : Z)
    : option TRACK :=
  if aggregated trk =? 0 then Some trk
  else if aggr =? 0 then None
  else
    let v := nsecs / aggr in
    let lat := wrap64 (latency trk + nsecs) in
    let mx := if max_latency trk <? v then wrap32 v else max_latency trk in
    let mn := if v <? min_latency trk then wrap32 v else min_latency trk in
    let n := aggregated trk in
    Some
      (if v <? us_to_ns 1000 then
         Track (ops trk) 0 lat mn mx
           (bucket_add (us trk) (Z.to_nat (ns_to_us v)) n) (ms trk) (sec trk)
       else if v <? ms_to_ns 1000 then
         Track (ops trk) 0 lat mn mx
           (us trk) (bucket_add (ms trk) (Z.to_nat (ns_to_ms v)) n) (sec trk)
       else if v <? sec_to_ns 100 then
         Track (ops trk) 0 lat mn mx
           (us trk) (ms trk) (bucket_add (sec trk) (Z.to_nat (ns_to_sec v)) n)
       else
         Track (ops trk) 0 lat mn mx
           (us trk) (ms trk) (bucket_add (sec trk) (length (sec trk) - 1) n)).

(** The histogram of a track as one list: all buckets of the three tiers. *)
Definition buckets (trk : TRACK) : list Z := us trk ++ ms trk ++ sec trk.

(** The track a thread starts with ([calloc] and [start_threads]). *)
Definition TRACK_init : TRACK :=
  Track 0 0 0 UINT32_MAX 0
    (replicate 1000 0) (replicate 1000 0) (replicate 100 0).

(** ** Key distribution generator *)

(** [wtperf_value_range(cfg)], with [g_insert_key] passed in.  The sum of
    the two 32-bit options wraps at 32 bits; the dynamic bound is computed
    in 64 bits, [insert_threads + 1] in 32. *)
Definition wtperf_value_range (cfg : CONFIG) (g_insert_key : Z) : Z :=
  if random_range cfg =? 0
  then wrap64 (wrap64 (icount cfg + g_insert_key) - wrap32 (insert_threads cfg + 1))
  else wrap32 (icount cfg + random_range cfg).

(** [wtperf_rand(cfg)].  [draw] is what [__wt_random()] returned.  The
    floating-point expression [(pow(U, S1) - 1) * S2] is not interpreted:
    [pareto_cdf range draw] stands for its value, which the assignment to
    [rval] converts to 64 bits.  There is no result when the value range is
    0: the final [%] traps. *)
Definition wtperf_rand (pareto_cdf : Z -> Z -> Z) (cfg : CONFIG)
    (g_insert_key : Z) (draw : Z) : option Z :=
  let range := wtperf_value_range cfg g_insert_key in
  let rval0 := wrap64 (wrap32 draw) in
  let rval1 :=
    if pareto cfg then
      let r := wrap64 (pareto_cdf range rval0) in
      if range <? r then range else r
    else rval0 in
  if range =? 0 then None
  else Some (wrap64 (rval1 mod range + 1)).

(** ** Shared counters *)

Record globals : Type := Globals {
  g_insert_key : Z;
  g_error : Z;
  g_stop : Z
}.

(** [get_next_incr()]: add one to [g_insert_key] and fetch the new value. *)
Definition get_next_incr (g : globals) : Z * globals :=
  let k := wrap64 (g_insert_key g + 1) in
  (k, Globals k (g_error g) (g_stop g)).

(** [g_error = g_stop = 1]. *)
Definition raise_error (g : globals) : globals :=
  Globals (g_insert_key g) 1 1.

(** ** The store, as far as the engine uses it *)

(** Modelled from the spec: the store's "not found" return code (a macro of
    wiredtiger.h, absent from the sources); any non-zero code would do. *)
Definition WT_NOTFOUND : Z := -31803.

(** Modelled from the spec: the capabilities the engine needs from the
    store.  A cursor and its session over a store state [St]: each operation
    returns the C return code and the new store state.  The key and value set with
    [set_key] and [set_value] are passed as arguments; keys are the numbers
    that [sprintf] formats. *)
Record WT_CURSOR (St : Type) : Type := Cursor {
  cursor_search : Z -> St -> Z * St;
  cursor_get_value : St -> list Z;
  cursor_insert : Z -> list Z -> St -> Z * St;
  cursor_update : Z -> list Z -> St -> Z * St;
  session_begin_transaction : St -> Z * St;
  session_commit_transaction : St -> Z * St
}.
Arguments cursor_search {St}.
Arguments cursor_get_value {St}.
Arguments cursor_insert {St}.
Arguments cursor_update {St}.
Arguments session_begin_transaction {St}.
Arguments session_commit_transaction {St}.

(** The store calls a thread has issued, oldest first (ghost state). *)
Inductive store_call : Type :=
  | CallSearch (key : Z)
  | CallInsert (key : Z) (value : list Z)
  | CallUpdate (key : Z) (value : list Z)
  | CallBegin
  | CallCommit.

(** ** Worker engine *)

Record timespec : Type := Timespec { tv_sec : Z; tv_nsec : Z }.

(** Modelled from the spec: the part of [CONFIG_THREAD] (declared in
    wtperf.h) that the worker and the populate thread use: the 100-slot
    schedule, the value buffer and the tracks. *)
Record CONFIG_THREAD : Type := Thread {
  schedule : list Z;
  value_buf : list Z;
  thread_read : TRACK;
  thread_insert : TRACK;
  thread_update : TRACK
}.

(** A worker between two iterations of its loop: its thread structure, the
    shared counters, the store, and the locals [op] (as an index into the
    schedule), [aggregated] and [*last]. *)
Record worker_state (St : Type) : Type := Worker {
  w_thread : CONFIG_THREAD;
  w_glob : globals;
  w_store : St;
  w_op : nat;
  w_aggregated : Z;
  w_last : timespec;
  w_calls : list store_call
}.
Arguments Worker {St}.
Arguments w_thread {St}.
Arguments w_glob {St}.
Arguments w_store {St}.
Arguments w_op {St}.
Arguments w_aggregated {St}.
Arguments w_last {St}.
Arguments w_calls {St}.

(** The first [switch] of the loop body: the key to work on. *)
Inductive next_val_result : Type :=
  | NextVal (next_val : Z) (g : globals)
  | NextSkip                 (* [continue]: the key is past the value range *)
  | NextErr                  (* [goto err]: not an operation tag *)
  | NextTrap.                (* [wtperf_rand] divided by zero *)

Definition worker_next_val (pareto_cdf : Z -> Z -> Z) (cfg : CONFIG)
    (op : Z) (draw : Z) (g : globals) : next_val_result :=
  if (op =? WORKER_INSERT) || (op =? WORKER_INSERT_RMW) then
    if random_range cfg =? 0 then
      let '(k, g') := get_next_incr g in
      NextVal (wrap64 (icount cfg + k)) g'
    else
      match wtperf_rand pareto_cdf cfg (g_insert_key g) draw with
      | None => NextTrap
      | Some v => NextVal v g
      end
  else if (op =? WORKER_READ) || (op =? WORKER_UPDATE) then
    match wtperf_rand pareto_cdf cfg (g_insert_key g) draw with
    | None => NextTrap
    | Some v =>
        if wtperf_value_range cfg (g_insert_key g) <? v then NextSkip
        else NextVal v g
    end
  else NextErr.

(** The track an operation is charged to. *)
Inductive track_sel : Type := TrkRead | TrkInsert | TrkUpdate.

(** What the second [switch] leaves behind: the track to charge ([None]
    after [goto op_err] or [goto err]), the value buffer, the store and the
    calls issued.  [or_overrun] is set when the copy of the update case
    left the memory it may use: the behaviour of the program is then
    undefined, and the other fields say what it had done before. *)
Record op_result (St : Type) : Type := OpResult {
  or_trk : option track_sel;
  or_value_buf : list Z;
  or_store : St;
  or_calls : list store_call;
  or_overrun : bool
}.
Arguments OpResult {St}.
Arguments or_trk {St}.
Arguments or_value_buf {St}.
Arguments or_store {St}.
Arguments or_calls {St}.
Arguments or_overrun {St}.

(** What [memcpy(value_buf, value, cfg->data_sz)] and the access to
    [value_buf[0]] need: [data_sz] bytes to read behind [value], and a first
    byte in the buffer of [data_sz] bytes. *)
Definition copy_fits (cfg : CONFIG) (value : list Z) : bool :=
  (1 <=? data_sz cfg) && (data_sz cfg <=? Z.of_nat (length value)).

(** [memcpy(value_buf, value, cfg->data_sz)] followed by the flip of the
    first byte between ['a'] and ['b'], on a value for which [copy_fits]
    holds: the buffer then holds the first [data_sz] bytes of the value. *)
Definition flip_value (cfg : CONFIG) (value : list Z) : list Z :=
  let buf := take (Z.to_nat (data_sz cfg)) value in
  <[O := if default 0 (buf !! O) =? 97 then 98 else 97]> buf.

(** [cursor->set_value(cursor, value_buf); cursor->insert(cursor)], the
    code under [case WORKER_INSERT]. *)
Definition worker_insert {St} (cur : WT_CURSOR St) (key : Z) (vbuf : list Z)
    (st : St) (calls : list store_call) : op_result St :=
  let '(ret, st1) := cursor_insert cur key vbuf st in
  OpResult (if ret =? 0 then Some TrkInsert else None) vbuf st1
           (calls ++ [CallInsert key vbuf]) false.

(** The second [switch] of the loop body: the store operation.  In the
    update case the value found is copied for [data_sz] bytes whatever its
    length: when it is shorter, or when [data_sz] is 0, the copy or the flip
    leaves its memory and the result is marked [or_overrun]. *)
Definition worker_op {St} (cur : WT_CURSOR St) (cfg : CONFIG) (op : Z)
    (key : Z) (vbuf : list Z) (st : St) (calls : list store_call)
    : op_result St :=
  if op =? WORKER_READ then
    let '(ret, st1) := cursor_search cur key st in
    OpResult (if (ret =? 0) || (ret =? WT_NOTFOUND) then Some TrkRead else None)
             vbuf st1 (calls ++ [CallSearch key]) false
  else if op =? WORKER_INSERT_RMW then
    let '(ret, st1) := cursor_search cur key st in
    if ret =? WT_NOTFOUND
    then worker_insert cur key vbuf st1 (calls ++ [CallSearch key])
    else OpResult None vbuf st1 (calls ++ [CallSearch key]) false
  else if op =? WORKER_INSERT then
    worker_insert cur key vbuf st calls
  else if op =? WORKER_UPDATE then
    let '(ret, st1) := cursor_search cur key st in
    if ret =? 0 then
      let value := cursor_get_value cur st1 in
      if copy_fits cfg value then
        let vbuf' := flip_value cfg value in
        let '(ret2, st2) := cursor_update cur key vbuf' st1 in
        OpResult (if ret2 =? 0 then Some TrkUpdate else None) vbuf' st2
                 (calls ++ [CallSearch key; CallUpdate key vbuf']) false
      else OpResult None vbuf st1 (calls ++ [CallSearch key]) true
    else if ret =? WT_NOTFOUND then
      OpResult (Some TrkRead) vbuf st1 (calls ++ [CallSearch key]) false
    else OpResult None vbuf st1 (calls ++ [CallSearch key]) false
  else OpResult None vbuf st calls false.

(** [++trk->ops; ++trk->aggregated;] *)
Definition track_count (trk : TRACK) : TRACK :=
  Track (wrap64 (ops trk + 1)) (wrap32 (aggregated trk + 1)) (latency trk)
        (min_latency trk) (max_latency trk) (us trk) (ms trk) (sec trk).

Definition thread_count (sel : track_sel) (vbuf : list Z) (th : CONFIG_THREAD)
    : CONFIG_THREAD :=
  match sel with
  | TrkRead =>
      Thread (schedule th) vbuf (track_count (thread_read th))
             (thread_insert th) (thread_update th)
  | TrkInsert =>
      Thread (schedule th) vbuf (thread_read th)
             (track_count (thread_insert th)) (thread_update th)
  | TrkUpdate =>
      Thread (schedule th) vbuf (thread_read th)
             (thread_insert th) (track_count (thread_update th))
  end.

(** The elapsed time between [*last] and [*t], in nanoseconds. *)
Definition elapsed_nsecs (last t : timespec) : Z :=
  wrap64 (wrap64 (tv_nsec t - tv_nsec last)
          + sec_to_ns (wrap64 (tv_sec t - tv_sec last))).

(** The three calls that fold a sample into the tracks of a thread. *)
Definition thread_sample (th : CONFIG_THREAD) (nsecs aggr : Z)
    : option CONFIG_THREAD :=
  match track_aggregated_update (thread_insert th) nsecs aggr with
  | None => None
  | Some ti =>
      match track_aggregated_update (thread_read th) nsecs aggr with
      | None => None
      | Some tr =>
          match track_aggregated_update (thread_update th) nsecs aggr with
          | None => None
          | Some tu => Some (Thread (schedule th) (value_buf th) tr ti tu)
          end
      end
  end.

(** [++op], wrapping at [op_end]. *)
Definition schedule_next (op : nat) : nat :=
  if (S op =? SCHEDULE_SLOTS)%nat then O else S op.

(** The end of the loop body, from [last_op = *op] on: move to the next
    slot and, unless the batch goes on, take the time and fold the sample.
    [now] is the time [__wt_epoch] reports if it is called. *)
Definition worker_latency {St} (cfg : CONFIG) (now : timespec)
    (s : worker_state St) : option (worker_state St) :=
  let th := w_thread s in
  let last_op := default 0 (schedule th !! w_op s) in
  let op' := schedule_next (w_op s) in
  if (w_aggregated s <? latency_aggregate cfg)
     && (last_op =? default 0 (schedule th !! op'))
  then Some (Worker th (w_glob s) (w_store s) op' (w_aggregated s)
                    (w_last s) (w_calls s))
  else
    match thread_sample th (elapsed_nsecs (w_last s) now) (w_aggregated s) with
    | None => None
    | Some th' =>
        Some (Worker th' (w_glob s) (w_store s) op' 0 now (w_calls s))
    end.

(** How one pass through [while (!g_stop)] ends. *)
Inductive worker_result (St : Type) : Type :=
  | WContinue (s : worker_state St)   (* back to the loop test *)
  | WStopped (s : worker_state St)    (* [g_stop] seen: leaves the loop *)
  | WFailed (s : worker_state St)     (* went through [err:] *)
  | WTrap.                            (* a division by zero, or a copy
                                         outside its memory *)
Arguments WContinue {St}.
Arguments WStopped {St}.
Arguments WFailed {St}.
Arguments WTrap {St}.

(** What the worker has done once the second [switch] has chosen a track:
    the state after [++trk->ops; ++trk->aggregated; ++aggregated;]. *)
Definition worker_account {St} (s : worker_state St) (g : globals)
    (r : op_result St) (sel : track_sel) : worker_state St :=
  Worker (thread_count sel (or_value_buf r) (w_thread s)) g (or_store r)
         (w_op s) (wrap32 (w_aggregated s + 1)) (w_last s) (or_calls r).

(** The state in which a worker leaves through [err:]. *)
Definition worker_fail {St} (s : worker_state St) (g : globals)
    (vbuf : list Z) (st : St) (calls : list store_call) : worker_state St :=
  Worker (Thread (schedule (w_thread s)) vbuf (thread_read (w_thread s))
                 (thread_insert (w_thread s)) (thread_update (w_thread s)))
         (raise_error g) st (w_op s) (w_aggregated s) (w_last s) calls.

(** One pass through the loop of [worker]: the loop test and the body. *)
Definition worker_iteration {St} (cur : WT_CURSOR St)
    (pareto_cdf : Z -> Z -> Z) (cfg : CONFIG) (draw : Z) (now : timespec)
    (s : worker_state St) : worker_result St :=
  if negb (g_stop (w_glob s) =? 0) then WStopped s
  else
    let th := w_thread s in
    let op := default 0 (schedule th !! w_op s) in
    match worker_next_val pareto_cdf cfg op draw (w_glob s) with
    | NextTrap => WTrap
    | NextSkip => WContinue s
    | NextErr =>
        WFailed (worker_fail s (w_glob s) (value_buf th) (w_store s) (w_calls s))
    | NextVal key g =>
        let r := worker_op cur cfg op key (value_buf th) (w_store s) (w_calls s) in
        if or_overrun r then WTrap
        else
          match or_trk r with
          | None =>
              WFailed (worker_fail s g (or_value_buf r) (or_store r) (or_calls r))
          | Some sel =>
              match worker_latency cfg now (worker_account s g r sel) with
              | None => WTrap
              | Some s' => WContinue s'
              end
          end
    end.

(** The loop of [worker], once the session and the cursor are open, for as
    long as there are inputs: each iteration takes the next draw and the
    next clock reading.  [None] means the loop is still running when the
    inputs end. *)
Fixpoint worker {St} (cur : WT_CURSOR St) (pareto_cdf : Z -> Z -> Z)
    (cfg : CONFIG) (inputs : list (Z * timespec)) (s : worker_state St)
    : option (worker_result St) :=
  match inputs with
  | [] => None
  | (draw, now) :: inputs' =>
      match worker_iteration cur pareto_cdf cfg draw now s with
      | WContinue s' => worker cur pareto_cdf cfg inputs' s'
      | r => Some r
      end
  end.

(** ** Populate *)

(** A populate thread inside its loop: the thread structure, the shared
    counters, the store, the calls issued, and the locals [intxn] and
    [opcount] of the transactional loop. *)
Record populate_state (St : Type) : Type := Populate {
  p_thread : CONFIG_THREAD;
  p_glob : globals;
  p_store : St;
  p_calls : list store_call;
  p_intxn : bool;
  p_opcount : Z
}.
Arguments Populate {St}.
Arguments p_thread {St}.
Arguments p_glob {St}.
Arguments p_store {St}.
Arguments p_calls {St}.
Arguments p_intxn {St}.
Arguments p_opcount {St}.

(** [++thread->insert.ops]. *)
Definition thread_insert_op (th : CONFIG_THREAD) : CONFIG_THREAD :=
  let ti := thread_insert th in
  Thread (schedule th) (value_buf th) (thread_read th)
         (Track (wrap64 (ops ti + 1)) (aggregated ti) (latency ti)
                (min_latency ti) (max_latency ti) (us ti) (ms ti) (sec ti))
         (thread_update th).

(** How the populate loop ends: by [break], through [err:], or in the
    [abort] of a failed [assert]. *)
Inductive populate_result (St : Type) : Type :=
  | PopDone (s : populate_state St)
  | PopFailed (s : populate_state St)
  | PopAbort.
Arguments PopDone {St}.
Arguments PopFailed {St}.
Arguments PopAbort {St}.

Definition populate_fail {St} (s : populate_state St) : populate_state St :=
  Populate (p_thread s) (raise_error (p_glob s)) (p_store s) (p_calls s)
           (p_intxn s) (p_opcount s).

(** The loop taken when [populate_ops_per_txn] is 0. *)
Fixpoint populate_plain {St} (fuel : nat) (cur : WT_CURSOR St) (cfg : CONFIG)
    (s : populate_state St) : option (populate_result St) :=
  match fuel with
  | O => None
  | S fuel' =>
      let '(op, g) := get_next_incr (p_glob s) in
      if icount cfg <? op then
        Some (PopDone (Populate (p_thread s) g (p_store s) (p_calls s)
                                (p_intxn s) (p_opcount s)))
      else
        let vbuf := value_buf (p_thread s) in
        let '(ret, st1) := cursor_insert cur op vbuf (p_store s) in
        let calls := p_calls s ++ [CallInsert op vbuf] in
        if negb (ret =? 0) then
          Some (PopFailed (populate_fail
                  (Populate (p_thread s) g st1 calls (p_intxn s) (p_opcount s))))
        else
          populate_plain fuel' cur cfg
            (Populate (thread_insert_op (p_thread s)) g st1 calls
                      (p_intxn s) (p_opcount s))
  end.

(** The commit that closes a transaction: a failure is logged, no more. *)
Definition populate_commit {St} (cur : WT_CURSOR St) (s : populate_state St)
    : populate_state St :=
  let '(_, st1) := session_commit_transaction cur (p_store s) in
  Populate (p_thread s) (p_glob s) st1 (p_calls s ++ [CallCommit])
           false (p_opcount s).

(** The loop taken when [populate_ops_per_txn] is not 0. *)
Fixpoint populate_txn {St} (fuel : nat) (cur : WT_CURSOR St) (cfg : CONFIG)
    (s : populate_state St) : option (populate_result St) :=
  match fuel with
  | O => None
  | S fuel' =>
      let '(op, g) := get_next_incr (p_glob s) in
      if icount cfg <? op then
        Some (PopDone
          (let s1 := Populate (p_thread s) g (p_store s) (p_calls s)
                              (p_intxn s) (p_opcount s) in
           if p_intxn s then populate_commit cur s1 else s1))
      else
        let '(bret, st0, calls0) :=
          if p_intxn s then (0, p_store s, p_calls s)
          else
            let '(b, st) := session_begin_transaction cur (p_store s) in
            (b, st, p_calls s ++ [CallBegin]) in
        if negb (bret =? 0) then Some PopAbort
        else
          let vbuf := value_buf (p_thread s) in
          let '(ret, st1) := cursor_insert cur op vbuf st0 in
          let calls := calls0 ++ [CallInsert op vbuf] in
          if negb (ret =? 0) then
            Some (PopFailed (populate_fail
                    (Populate (p_thread s) g st1 calls true (p_opcount s))))
          else
            let s1 := Populate (thread_insert_op (p_thread s)) g st1 calls
                               true (wrap32 (p_opcount s + 1)) in
            if p_opcount s1 <? populate_ops_per_txn cfg
            then populate_txn fuel' cur cfg s1
            else
              populate_txn fuel' cur cfg
                (populate_commit cur
                   (Populate (p_thread s1) g st1 calls true 0))
  end.

(** The populate loop of [populate_thread], after the session and the
    cursor have been opened. *)
Definition populate_thread {St} (fuel : nat) (cur : WT_CURSOR St)
    (cfg : CONFIG) (th : CONFIG_THREAD) (g : globals) (st : St)
    : option (populate_result St) :=
  if populate_ops_per_txn cfg =? 0
  then populate_plain fuel cur cfg (Populate th g st [] false 0)
  else populate_txn fuel cur cfg (Populate th g st [] false 0).

(** Modelled from the spec: [sum_pop_ops], which is not in the sources: the
    insert operation counts of the populate threads, summed. *)
Definition sum_pop_ops (threads : list CONFIG_THREAD) : Z :=
  fold_right (fun th acc => wrap64 (ops (thread_insert th) + acc)) 0 threads.

(** The keys of the insert calls of a trace, in order. *)
Definition inserted_keys (calls : list store_call) : list Z :=
  flat_map (fun c => match c with CallInsert k _ => [k] | _ => [] end) calls.

(** What a run of the populate loop leaves behind when it started in [s]
    with [n] keys still to insert: the counter is one past [icount], the
    flags are untouched, [n] more operations have been counted and the [n]
    keys after the counter of [s] have been inserted, in order. *)
Definition populated {St : Type} (cfg : CONFIG) (s s' : populate_state St)
    (n : nat) : Prop :=
  g_insert_key (p_glob s') = icount cfg + 1 /\
  g_error (p_glob s') = g_error (p_glob s) /\
  g_stop (p_glob s') = g_stop (p_glob s) /\
  ops (thread_insert (p_thread s')) = ops (thread_insert (p_thread s)) + Z.of_nat n /\
  inserted_keys (p_calls s')
    = inserted_keys (p_calls s)
      ++ map (fun j => g_insert_key (p_glob s) + Z.of_nat j) (seq 1 n).

(** A store in which every call succeeds; its state counts the calls. *)
Definition ok_cursor : WT_CURSOR nat :=
  Cursor nat (fun _ st => (0, S st)) (fun _ => []) (fun _ _ st => (0, S st))
         (fun _ _ st => (0, S st)) (fun st => (0, S st)) (fun st => (0, S st)).

(** ** Concrete configurations and states used in the examples *)

(** The defaults that matter here (5000 initial records, 100-byte values,
    no fixed range, no Pareto skew, one sample per operation), with a given
    operation mix. *)
Definition mix_cfg (inserts updates : Z) : CONFIG :=
  Config 5000 100 0 0 false false inserts updates 1 0.

(** The schedule memory before [run_mix_schedule] runs: the array is still
    zeroed and the byte that follows it holds [b]. *)
Definition mix_mem_init (b : Z) : mix_mem :=
  MixMem (replicate SCHEDULE_SLOTS 0) b false.

(** The schedule after [run_mix_schedule_op(WORKER_INSERT, 4)]: inserts at
    slots 0, 25, 50 and 75. *)
Definition schedule_4_inserts : list Z :=
  <[75%nat := WORKER_INSERT]> (<[50%nat := WORKER_INSERT]>
    (<[25%nat := WORKER_INSERT]> (<[O := WORKER_INSERT]>
      (replicate SCHEDULE_SLOTS WORKER_READ)))).

(** A small table being extended by four insert threads, without a fixed
    range: 2 initial records. *)
Definition small_table_cfg : CONFIG :=
  Config 2 100 4 0 false false 0 0 1 0.

(** A fixed range of 5 keys over 5 initial records, with the Pareto skew. *)
Definition pareto_cfg : CONFIG :=
  Config 5 100 0 5 true false 0 0 1 0.

(** A populate phase of 1000 records without transactions. *)
Definition populate_cfg : CONFIG :=
  Config 1000 100 0 0 false false 0 0 1 0.

(** The thread structure [start_threads] hands to a thread: a zeroed
    schedule, a value of ['a'] bytes and a final NUL, fresh tracks. *)
Definition thread_init (cfg : CONFIG) : CONFIG_THREAD :=
  Thread (replicate SCHEDULE_SLOTS 0)
         (replicate (Z.to_nat (data_sz cfg) - 1) 97 ++ [0])
         TRACK_init TRACK_init TRACK_init.

(** A store in which no key is ever found. *)
Definition empty_cursor : WT_CURSOR nat :=
  Cursor nat (fun _ st => (WT_NOTFOUND, S st)) (fun _ => [])
         (fun _ _ st => (0, S st)) (fun _ _ st => (WT_NOTFOUND, S st))
         (fun st => (0, S st)) (fun st => (0, S st)).

(** A store in which every key is found and holds [value], and every call
    succeeds. *)
Definition stored_cursor (value : list Z) : WT_CURSOR nat :=
  Cursor nat (fun _ st => (0, S st)) (fun _ => value)
         (fun _ _ st => (0, S st)) (fun _ _ st => (0, S st))
         (fun st => (0, S st)) (fun st => (0, S st)).

(** One insert thread that searches before it inserts. *)
Definition rmw_cfg : CONFIG :=
  Config 5000 100 1 0 false true 0 0 1 0.

(** A worker about to run its first iteration, every slot of its schedule
    holding [op] (what [op_setup] does without a mix). *)
Definition worker_init (cfg : CONFIG) (op : Z) : worker_state nat :=
  Worker (Thread (replicate SCHEDULE_SLOTS op) (value_buf (thread_init cfg))
                 TRACK_init TRACK_init TRACK_init)
         (Globals 0 0 0) O O 0 (Timespec 0 0) [].

(** ** Thread set-up *)

(** [op_setup(cfg, op, thread)]: without a mix every slot of the thread's
    schedule gets [op] ([memset] stores it as a byte); with a mix the
    schedule is a copy of the 100 bytes of [g_run_mix_ops]. *)
Definition op_setup (cfg : CONFIG) (op : Z) (run_mix_ops : list Z)
    (th : CONFIG_THREAD) : CONFIG_THREAD :=
  Thread
    (if (run_mix_inserts cfg =? 0) && (run_mix_updates cfg =? 0)
     then replicate SCHEDULE_SLOTS (wrap8 op)
     else take SCHEDULE_SLOTS run_mix_ops)
    (value_buf th) (thread_read th) (thread_insert th) (thread_update th).

(** The state in which [worker] enters its loop: [op] at the start of the
    schedule, nothing aggregated, [*last] holding the time just read. *)
Definition worker_start {St : Type} (th : CONFIG_THREAD) (g : globals)
    (st : St) (t0 : timespec) : worker_state St :=
  Worker th g st O 0 t0 [].

(** The loop of [worker] run over a list of inputs, as [worker] above, but
    returning the state reached when the inputs end while the loop is still
    going ([WContinue]). *)
Fixpoint worker_run {St : Type} (cur : WT_CURSOR St) (pareto_cdf : Z -> Z -> Z)
    (cfg : CONFIG) (inputs : list (Z * timespec)) (s : worker_state St)
    : worker_result St :=
  match inputs with
  | [] => WContinue s
  | (draw, now) :: inputs' =>
      match worker_iteration cur pareto_cdf cfg draw now s with
      | WContinue s' => worker_run cur pareto_cdf cfg inputs' s'
      | r => r
      end
  end.

(** [read_thread], [insert_thread] and [update_thread]: [op_setup] with the
    thread's own operation, then [worker]. *)
Definition read_thread {St : Type} (cur : WT_CURSOR St)
    (pareto_cdf : Z -> Z -> Z) (cfg : CONFIG) (run_mix_ops : list Z)
    (inputs : list (Z * timespec)) (th : CONFIG_THREAD) (g : globals)
    (st : St) (t0 : timespec) : worker_result St :=
  worker_run cur pareto_cdf cfg inputs
    (worker_start (op_setup cfg WORKER_READ run_mix_ops th) g st t0).

Definition insert_thread {St : Type} (cur : WT_CURSOR St)
    (pareto_cdf : Z -> Z -> Z) (cfg : CONFIG) (run_mix_ops : list Z)
    (inputs : list (Z * timespec)) (th : CONFIG_THREAD) (g : globals)
    (st : St) (t0 : timespec) : worker_result St :=
  worker_run cur pareto_cdf cfg inputs
    (worker_start
       (op_setup cfg (if insert_rmw cfg then WORKER_INSERT_RMW else WORKER_INSERT)
                 run_mix_ops th) g st t0).

Definition update_thread {St : Type} (cur : WT_CURSOR St)
    (pareto_cdf : Z -> Z -> Z) (cfg : CONFIG) (run_mix_ops : list Z)
    (inputs : list (Z * timespec)) (th : CONFIG_THREAD) (g : globals)
    (st : St) (t0 : timespec) : worker_result St :=
  worker_run cur pareto_cdf cfg inputs
    (worker_start (op_setup cfg WORKER_UPDATE run_mix_ops th) g st t0).

(** The state a worker result carries, if any. *)
Definition result_state {St : Type} (r : worker_result St)
    : option (worker_state St) :=
  match r with
  | WContinue s | WStopped s | WFailed s => Some s
  | WTrap => None
  end.

(** The operations a thread has counted since its last sample, over its
    three tracks. *)
Definition thread_pending (th : CONFIG_THREAD) : Z :=
  aggregated (thread_read th) + aggregated (thread_insert th)
  + aggregated (thread_update th).

(** How many calls of a trace satisfy [f]. *)
Definition call_count (f : store_call -> bool) (calls : list store_call) : Z :=
  Z.of_nat (length (List.filter f calls)).

Definition is_begin_call (c : store_call) : bool :=
  match c with CallBegin => true | _ => false end.

Definition is_commit_call (c : store_call) : bool :=
  match c with CallCommit => true | _ => false end.

Definition is_insert_call (c : store_call) : bool :=
  match c with CallInsert _ _ => true | _ => false end.

(** A store in which the insert of key [bad] fails and every other call
    succeeds. *)
Definition failing_cursor (bad : Z) : WT_CURSOR nat :=
  Cursor nat (fun _ st => (0, S st)) (fun _ => [])
         (fun k _ st => (if k =? bad then -1 else 0, S st))
         (fun _ _ st => (0, S st)) (fun st => (0, S st)) (fun st => (0, S st)).

(** The calls of a trace that write to the store. *)
Definition is_write_call (c : store_call) : bool :=
  match c with
  | CallInsert _ _ | CallUpdate _ _ => true
  | _ => false
  end.

(** ** Bookkeeping invariants *)

(** The operations a histogram holds: the sum of its buckets. *)
Definition bucket_total (a : list Z) : Z := fold_right Z.add 0 a.

(** A track on which every operation counted is either pending or in one
    bucket of the histogram. *)
Definition TRACK_accounted (trk : TRACK) : Prop :=
  TRACK_sized trk /\
  Forall (fun x => 0 <= x) (buckets trk) /\
  0 <= aggregated trk /\
  ops trk = bucket_total (buckets trk) + aggregated trk.

Definition thread_accounted (th : CONFIG_THREAD) : Prop :=
  TRACK_accounted (thread_read th) /\
  TRACK_accounted (thread_insert th) /\
  TRACK_accounted (thread_update th).

(** What holds of a worker between two iterations: [op] points into the
    schedule, the local count [aggregated] is the number of operations
    pending on the three tracks, and a batch that is open is shorter than
    [latency_aggregate]. *)
Definition worker_inv {St : Type} (cfg : CONFIG) (s : worker_state St) : Prop :=
  (w_op s < SCHEDULE_SLOTS)%nat /\
  0 <= aggregated (thread_read (w_thread s)) /\
  0 <= aggregated (thread_insert (w_thread s)) /\
  0 <= aggregated (thread_update (w_thread s)) /\
  thread_pending (w_thread s) = w_aggregated s /\
  (w_aggregated s = 0 \/ w_aggregated s < latency_aggregate cfg).

(** Every track of the thread has counted fewer than [b] operations. *)
Definition thread_ops_below (th : CONFIG_THREAD) (b : Z) : Prop :=
  ops (thread_read th) < b /\ ops (thread_insert th) < b /\
  ops (thread_update th) < b.

(** ** Transactions as the store sees them *)

(** What a session is doing after a trace of calls: outside a transaction,
    inside one that holds [k] inserts so far, or past a call that the
    populate loop must not make there (an insert outside a transaction, a
    second begin, a commit of nothing, more than [T] inserts in one
    transaction, any search or update). *)
Inductive txn_state : Type := TxnIdle | TxnOpen (k : Z) | TxnBad.

Definition txn_step (T : Z) (t : txn_state) (c : store_call) : txn_state :=
  match t, c with
  | TxnIdle, CallBegin => TxnOpen 0
  | TxnOpen k, CallInsert _ _ => if k <? T then TxnOpen (k + 1) else TxnBad
  | TxnOpen k, CallCommit => if 0 <? k then TxnIdle else TxnBad
  | _, _ => TxnBad
  end.

Definition txn_trace (T : Z) (calls : list store_call) : txn_state :=
  fold_left (txn_step T) calls TxnIdle.

(** The same, read off the loop variables [intxn] and [opcount]. *)
Definition txn_view {St : Type} (s : populate_state St) : txn_state :=
  if p_intxn s then TxnOpen (p_opcount s) else TxnIdle.

(** ** The bucket of a sample *)

(** The position, in the histogram read as one list ([buckets]), of the
    counter to which [track_aggregated_update] adds a sample whose average
    is [v]: the tier tests of the code, in their order. *)
Definition sample_slot (trk : TRACK) (v : Z) : nat :=
  if v <? us_to_ns 1000 then Z.to_nat (ns_to_us v)
  else if v <? ms_to_ns 1000 then length (us trk) + Z.to_nat (ns_to_ms v)
  else if v <? sec_to_ns 100
  then length (us trk) + length (ms trk) + Z.to_nat (ns_to_sec v)
  else length (us trk) + length (ms trk) + (length (sec trk) - 1).

(** ** The wait loop of [execute_workload] *)

(** Modelled from the spec: the three options of [CONFIG] that the wait
    loop reads; all three are 32-bit unsigned. *)
Record RUN_CONFIG : Type := RunConfig {
  report_interval : Z;
  run_time : Z;
  run_ops : Z
}.

(** What the main thread sees in one pass of the loop: [g_error] at the
    loop test, and, after [sleep(1)], the sums of the operation counts of
    the checkpoint threads and of the workers ([sum_ckpt_ops] and the like,
    64-bit unsigned). *)
Record workload_tick : Type := Tick {
  t_error : Z;
  t_ckpt : Z;
  t_insert : Z;
  t_read : Z;
  t_update : Z
}.

(** One throughput line of the log: reads, inserts, updates and checkpoints
    since the line before. *)
Record report_line : Type := Report {
  r_reads : Z;
  r_inserts : Z;
  r_updates : Z;
  r_ckpts : Z
}.

(** The loop variables [interval] and [run_time], the four global sums and
    the four [last_] values, with the number of [sleep(1)] calls made and
    the lines logged so far. *)
Record workload_state : Type := Workload {
  wl_interval : Z;
  wl_run_time : Z;
  g_ckpt_ops : Z;
  g_insert_ops : Z;
  g_read_ops : Z;
  g_update_ops : Z;
  last_ckpts : Z;
  last_inserts : Z;
  last_reads : Z;
  last_updates : Z;
  wl_slept : nat;
  wl_reports : list report_line
}.

(** Why the loop ended: [g_error] set, the run time used up, or the
    operation target reached. *)
Inductive workload_exit : Type := ExitError | ExitTime | ExitOps.

Inductive workload_result : Type :=
  | WlRunning (s : workload_state)
  | WlDone (why : workload_exit) (s : workload_state).

(** [g_insert_ops + g_read_ops + g_update_ops] as the loop computes it. *)
Definition tick_total (t : workload_tick) : Z :=
  wrap64 (wrap64 (t_insert t + t_read t) + t_update t).

(** One pass of the loop. *)
Definition workload_step (rc : RUN_CONFIG) (t : workload_tick)
    (s : workload_state) : workload_result :=
  if negb (t_error t =? 0) then WlDone ExitError s
  else
    let slept := S (wl_slept s) in
    let timed := negb (wl_run_time s =? 0) in
    let rt := if timed then wl_run_time s - 1 else wl_run_time s in
    if timed && (rt =? 0) then
      WlDone ExitTime
        (Workload (wl_interval s) rt (g_ckpt_ops s) (g_insert_ops s)
                  (g_read_ops s) (g_update_ops s) (last_ckpts s)
                  (last_inserts s) (last_reads s) (last_updates s)
                  slept (wl_reports s))
    else if timed && (wl_interval s =? 0) && (run_ops rc =? 0) then
      WlRunning
        (Workload (wl_interval s) rt (g_ckpt_ops s) (g_insert_ops s)
                  (g_read_ops s) (g_update_ops s) (last_ckpts s)
                  (last_inserts s) (last_reads s) (last_updates s)
                  slept (wl_reports s))
    else
      let summed iv :=
        Workload iv rt (t_ckpt t) (t_insert t) (t_read t) (t_update t)
                 (last_ckpts s) (last_inserts s) (last_reads s)
                 (last_updates s) slept (wl_reports s) in
      if negb (run_ops rc =? 0) && (run_ops rc <=? tick_total t) then
        WlDone ExitOps (summed (wl_interval s))
      else if wl_interval s =? 0 then WlRunning (summed 0)
      else if 0 <? wl_interval s - 1 then WlRunning (summed (wl_interval s - 1))
      else
        WlRunning
          (Workload (report_interval rc) rt
                    (t_ckpt t) (t_insert t) (t_read t) (t_update t)
                    (t_ckpt t) (t_insert t) (t_read t) (t_update t) slept
                    (wl_reports s ++
                     [Report (wrap64 (t_read t - last_reads s))
                             (wrap64 (t_insert t - last_inserts s))
                             (wrap64 (t_update t - last_updates s))
                             (wrap64 (t_ckpt t - last_ckpts s))])).

(** The loop over the passes that the ticks describe; [WlRunning] when the
    ticks end before the loop does. *)
Fixpoint workload_run (rc : RUN_CONFIG) (ticks : list workload_tick)
    (s : workload_state) : workload_result :=
  match ticks with
  | [] => WlRunning s
  | t :: ticks' =>
      match workload_step rc t s with
      | WlRunning s' => workload_run rc ticks' s'
      | done => done
      end
  end.

(** The state in which [execute_workload] enters the loop. *)
Definition workload_init (rc : RUN_CONFIG) : workload_state :=
  Workload (report_interval rc) (run_time rc) 0 0 0 0 0 0 0 0 O [].

Definition workload_state_of (r : workload_result) : workload_state :=
  match r with WlRunning s | WlDone _ s => s end.

(** A pass that ends the loop neither by [g_error] nor by the operation
    target. *)
Definition tick_quiet (rc : RUN_CONFIG) (t : workload_tick) : Prop :=
  t_error t = 0 /\ (run_ops rc = 0 \/ tick_total t < run_ops rc).

(** The sums of a pass are 64-bit unsigned. *)
Definition tick_fits (t : workload_tick) : Prop :=
  0 <= t_ckpt t < 2 ^ 64 /\ 0 <= t_insert t < 2 ^ 64 /\
  0 <= t_read t < 2 ^ 64 /\ 0 <= t_update t < 2 ^ 64.

(** The options are 32-bit unsigned. *)
Definition RUN_CONFIG_fits (rc : RUN_CONFIG) : Prop :=
  0 <= report_interval rc < 2 ^ 32 /\ 0 <= run_time rc < 2 ^ 32 /\
  0 <= run_ops rc < 2 ^ 32.

(** A column of the throughput lines, added up in 64 bits. *)
Definition reported (col : report_line -> Z) (lines : list report_line) : Z :=
  fold_left (fun acc r => wrap64 (acc + col r)) lines 0.

(** ** The summary that [main] prints after the workload *)

(** [(part * 100) / total_ops] in 64-bit unsigned arithmetic; the division
    traps when [total_ops] is 0. *)
Definition percent_of (part total_ops : Z) : option Z :=
  if total_ops =? 0 then None else Some (wrap64 (part * 100) / total_ops).

(** The three percentages of the summary: reads, inserts, updates. *)
Definition workload_summary (reads inserts updates : Z) : option (Z * Z * Z) :=
  let total_ops := wrap64 (wrap64 (reads + inserts) + updates) in
  match percent_of reads total_ops, percent_of inserts total_ops,
        percent_of updates total_ops with
  | Some pr, Some pi, Some pu => Some (pr, pi, pu)
  | _, _, _ => None
  end.

(** ** The checkpoint thread *)

(** What the thread does that others can see: a [sleep(1)] or a
    [session->checkpoint]. *)
Inductive ckpt_event : Type := EvSleep | EvCheckpoint.

(** [thread->ckpt.ops], the flag [g_ckpt], the store and the events so
    far. *)
Record ckpt_state (St : Type) : Type := CkptState {
  ck_ops : Z;
  ck_g_ckpt : Z;
  ck_store : St;
  ck_events : list ckpt_event
}.
Arguments CkptState {St}.
Arguments ck_ops {St}.
Arguments ck_g_ckpt {St}.
Arguments ck_store {St}.
Arguments ck_events {St}.

(** How a run ends: still in its loop when the observations end, out of
    the loop because [g_stop] was seen, or through [err:], which sets
    [g_error] and [g_stop]. *)
Inductive ckpt_result (St : Type) : Type :=
  | CkRunning (s : ckpt_state St)
  | CkStopped (s : ckpt_state St)
  | CkFailed (s : ckpt_state St).
Arguments CkRunning {St}.
Arguments CkStopped {St}.
Arguments CkFailed {St}.

(** The inner loop, [for (i = 0; i < checkpoint_interval; i++)]: [n] passes
    to go; each one sleeps and then reads [g_stop], whose successive values
    are [reads].  The result is what is left of [reads], or nothing when
    they end before the loop does. *)
Fixpoint ckpt_sleep (n : nat) (reads : list Z) (events : list ckpt_event)
    : option (list Z) * list ckpt_event :=
  match n with
  | O => (Some reads, events)
  | S n' =>
      match reads with
      | [] => (None, events ++ [EvSleep])
      | r :: reads' =>
          if negb (r =? 0) then (Some reads', events ++ [EvSleep])
          else ckpt_sleep n' reads' (events ++ [EvSleep])
      end
  end.

(** The loop of [checkpoint_worker], after its session has been opened.
    [reads] are the values that the successive reads of [g_stop] return,
    [checkpoint] is [session->checkpoint]; [fuel] bounds the number of
    checkpoints. *)
Fixpoint checkpoint_worker {St : Type} (fuel : nat) (checkpoint_interval : Z)
    (checkpoint : St -> Z * St) (reads : list Z) (s : ckpt_state St)
    : ckpt_result St :=
  match fuel, reads with
  | O, _ => CkRunning s
  | _, [] => CkRunning s
  | S fuel', r :: reads1 =>
      if negb (r =? 0) then CkStopped s
      else
        let '(reads2, ev) :=
          ckpt_sleep (Z.to_nat checkpoint_interval) reads1 (ck_events s) in
        let s1 := CkptState (ck_ops s) (ck_g_ckpt s) (ck_store s) ev in
        match reads2 with
        | None | Some [] => CkRunning s1
        | Some (r2 :: reads3) =>
            if negb (r2 =? 0) then CkStopped s1
            else
              let '(ret, st1) := checkpoint (ck_store s) in
              let ev' := ev ++ [EvCheckpoint] in
              if negb (ret =? 0)
              then CkFailed (CkptState (ck_ops s) 1 st1 ev')
              else
                checkpoint_worker fuel' checkpoint_interval checkpoint reads3
                  (CkptState (wrap64 (ck_ops s + 1)) 0 st1 ev')
        end
  end.

(** The events of [k] undisturbed rounds: [n] sleeps and a checkpoint,
    [k] times. *)
Fixpoint ckpt_rounds (k n : nat) : list ckpt_event :=
  match k with
  | O => []
  | S k' => replicate n EvSleep ++ EvCheckpoint :: ckpt_rounds k' n
  end.

(** * Properties *)

(** ** Schedule builder *)

Lemma count_tag_replicate (t x : Z) (n : nat) :
  count_tag t (replicate n x) = if x =? t then n else O.
Proof.
  induction n as [|n IH]; simpl.
  - now destruct (x =? t).
  - rewrite IH. now destruct (x =? t).
Qed.

Lemma count_tag_insert (t x y : Z) (l : list Z) (i : nat) :
  l !! i = Some x ->
  (count_tag t (<[i := y]> l) + (if Z.eqb x t then 1 else 0)
   = count_tag t l + (if Z.eqb y t then 1 else 0))%nat.
Proof.
  revert i. induction l as [|a l IH]; intros i Hi; [discriminate|].
  destruct i as [|i]; simpl in *.
  - injection Hi as ->. lia.
  - specialize (IH i Hi). lia.
Qed.

Lemma count_tag_lookup (t : Z) (l : list Z) :
  (0 < count_tag t l)%nat -> exists i, l !! i = Some t.
Proof.
  induction l as [|a l IH]; simpl; [lia|].
  destruct (a =? t) eqn:E.
  - intros _. exists O. apply Z.eqb_eq in E. now subst.
  - intros H. destruct IH as [i Hi]; [lia|]. now exists (S i).
Qed.

Lemma mix_load_lookup (m : mix_mem) (i : nat) (x : Z) :
  mix_ops m !! i = Some x -> (i < SCHEDULE_SLOTS)%nat -> mix_load m i = x.
Proof.
  intros H Hi. unfold mix_load.
  destruct (Nat.ltb_spec i SCHEDULE_SLOTS); [|lia]. now rewrite H.
Qed.

Lemma mix_touch_inside (m : mix_mem) (i : nat) :
  (i < SCHEDULE_SLOTS)%nat -> mix_touch m i = m.
Proof.
  intros Hi. unfold mix_touch.
  now destruct (Nat.ltb_spec i SCHEDULE_SLOTS); [|lia].
Qed.

(** A scan that starts at or before a read slot stops at the first one. *)
Lemma mix_scan_find (n : nat) : forall (p : nat) (m : mix_mem),
  (p + n = SCHEDULE_SLOTS)%nat ->
  (exists k, (p <= k < SCHEDULE_SLOTS)%nat /\ mix_load m k = WORKER_READ) ->
  exists q, (p <= q < SCHEDULE_SLOTS)%nat /\ mix_load m q = WORKER_READ /\
    (forall k, (p <= k < q)%nat -> mix_load m k <> WORKER_READ) /\
    forall fuel, (n <= fuel)%nat -> mix_scan fuel m p = Some (m, q).
Proof.
  induction n as [|n IH]; intros p m Hp [k [Hk Hr]]; [lia|].
  destruct (Z.eqb_spec (mix_load m p) WORKER_READ) as [E|E].
  - exists p. split; [lia|]. split; [assumption|]. split; [intros j Hj; lia|].
    intros fuel Hf. destruct fuel as [|fuel]; [lia|]. simpl.
    rewrite E, Z.eqb_refl. now rewrite mix_touch_inside by lia.
  - assert (k <> p) by (intros ->; contradiction).
    destruct (IH (S p) m) as (q & Hq & Hrq & Hfirst & Hscan); [lia| |].
    { exists k. split; [lia|assumption]. }
    exists q. split; [lia|]. split; [assumption|]. split.
    + intros j Hj. destruct (Nat.eq_dec j p) as [->|Hne]; [assumption|].
      apply Hfirst. lia.
    + intros fuel Hf. destruct fuel as [|fuel]; [lia|]. simpl.
      destruct (Z.eqb_spec (mix_load m p) WORKER_READ); [contradiction|].
      rewrite mix_touch_inside by lia.
      destruct (Nat.eqb_spec p SCHEDULE_SLOTS); [lia|].
      apply Hscan. lia.
Qed.

(** A scan with no read slot ahead reads the byte past the array and, when
    that byte is not the read tag, goes on from slot 1. *)
Lemma mix_scan_wrap (n : nat) : forall (p : nat) (m : mix_mem) (fuel : nat),
  (p + n = SCHEDULE_SLOTS)%nat ->
  (forall k, (p <= k < SCHEDULE_SLOTS)%nat -> mix_load m k <> WORKER_READ) ->
  mix_beyond m <> WORKER_READ ->
  mix_scan (n + 1 + fuel) m p = mix_scan fuel (mix_touch m SCHEDULE_SLOTS) 1.
Proof.
  induction n as [|n IH]; intros p m fuel Hp Hno Hb.
  - assert (p = SCHEDULE_SLOTS) as -> by lia. simpl.
    change (mix_load m SCHEDULE_SLOTS) with (mix_beyond m).
    now destruct (Z.eqb_spec (mix_beyond m) WORKER_READ).
  - simpl. destruct (Z.eqb_spec (mix_load m p) WORKER_READ) as [E|E].
    + exfalso. apply (Hno p); [lia|assumption].
    + rewrite mix_touch_inside by lia.
      destruct (Nat.eqb_spec p SCHEDULE_SLOTS); [lia|].
      apply IH; [lia| |assumption]. intros k Hk. apply Hno. lia.
Qed.

Lemma mix_read_ahead_dec (m : mix_mem) (n : nat) : forall p : nat,
  (p + n = SCHEDULE_SLOTS)%nat ->
  (exists k, (p <= k < SCHEDULE_SLOTS)%nat /\ mix_load m k = WORKER_READ) \/
  (forall k, (p <= k < SCHEDULE_SLOTS)%nat -> mix_load m k <> WORKER_READ).
Proof.
  induction n as [|n IH]; intros p Hp.
  - right. intros k Hk. lia.
  - destruct (Z.eqb_spec (mix_load m p) WORKER_READ) as [E|E].
    + left. exists p. split; [lia|assumption].
    + destruct (IH (S p)) as [[k [Hk Hr]]|Hno]; [lia| |].
      * left. exists k. split; [lia|assumption].
      * right. intros k Hk. destruct (Nat.eq_dec k p) as [->|]; [assumption|].
        apply Hno. lia.
Qed.

Lemma mix_load_touch (m : mix_mem) (i k : nat) :
  mix_load (mix_touch m i) k = mix_load m k.
Proof. unfold mix_load, mix_touch. now destruct (i <? SCHEDULE_SLOTS)%nat. Qed.

(** When the byte past the array is not the read tag, every scan that has a
    read slot to find finds one inside the array. *)
Lemma mix_scan_total (fuel : nat) (m : mix_mem) (p : nat) :
  (MIX_FUEL <= fuel)%nat ->
  mix_beyond m <> WORKER_READ ->
  (p <= SCHEDULE_SLOTS)%nat ->
  (exists k, (1 <= k < SCHEDULE_SLOTS)%nat /\ mix_load m k = WORKER_READ) \/
  (exists k, (p <= k < SCHEDULE_SLOTS)%nat /\ mix_load m k = WORKER_READ) ->
  exists m' q, mix_scan fuel m p = Some (m', q) /\
    (q < SCHEDULE_SLOTS)%nat /\ mix_load m q = WORKER_READ /\
    mix_ops m' = mix_ops m /\ mix_beyond m' = mix_beyond m /\
    (p = O -> q <> O -> mix_load m O <> WORKER_READ).
Proof.
  unfold MIX_FUEL. intros Hf Hb Hp Hex.
  destruct (mix_read_ahead_dec m (SCHEDULE_SLOTS - p) p) as [Hahead|Hno]; [lia| |].
  - destruct (mix_scan_find (SCHEDULE_SLOTS - p) p m)
      as (q & Hq & Hr & Hfirst & Hscan); [lia|assumption|].
    exists m, q. split; [apply Hscan; unfold SCHEDULE_SLOTS in *; lia|].
    split; [lia|]. split; [assumption|]. split; [reflexivity|].
    split; [reflexivity|]. intros -> Hq0. apply Hfirst. lia.
  - destruct Hex as [[k [Hk Hr]]|[k [Hk Hr]]]; [|exfalso; now apply (Hno k)].
    set (m1 := mix_touch m SCHEDULE_SLOTS).
    destruct (mix_scan_find 99 1 m1) as (q & Hq & Hrq & _ & Hscan).
    { reflexivity. }
    { exists k. split; [assumption|]. unfold m1. now rewrite mix_load_touch. }
    unfold m1 in Hrq. rewrite mix_load_touch in Hrq.
    exists m1, q. split.
    { replace fuel
        with ((SCHEDULE_SLOTS - p) + 1 + (fuel - (SCHEDULE_SLOTS - p) - 1))%nat
        by (unfold SCHEDULE_SLOTS in *; lia).
      rewrite mix_scan_wrap; [|lia|assumption|assumption].
      apply Hscan. unfold SCHEDULE_SLOTS in *. lia. }
    split; [lia|]. split; [assumption|]. split; [reflexivity|].
    split; [reflexivity|]. intros -> _. apply Hno. unfold SCHEDULE_SLOTS. lia.
Qed.

(** A scan with no read slot ahead and the read tag in the byte past the
    array stops on that byte. *)
Lemma mix_scan_end (n : nat) : forall (p : nat) (m : mix_mem) (fuel : nat),
  (p + n = SCHEDULE_SLOTS)%nat ->
  (forall k, (p <= k < SCHEDULE_SLOTS)%nat -> mix_load m k <> WORKER_READ) ->
  mix_beyond m = WORKER_READ ->
  mix_scan (n + 1 + fuel) m p
  = Some (mix_touch m SCHEDULE_SLOTS, SCHEDULE_SLOTS).
Proof.
  induction n as [|n IH]; intros p m fuel Hp Hno Hb.
  - assert (p = SCHEDULE_SLOTS) as -> by lia. simpl.
    change (mix_load m SCHEDULE_SLOTS) with (mix_beyond m).
    now rewrite Hb.
  - simpl. destruct (Z.eqb_spec (mix_load m p) WORKER_READ) as [E|E].
    + exfalso. apply (Hno p); [lia|assumption].
    + rewrite mix_touch_inside by lia.
      destruct (Nat.eqb_spec p SCHEDULE_SLOTS); [lia|].
      apply IH; [lia| |assumption]. intros k Hk. apply Hno. lia.
Qed.

(** A scan that can see no read tag, neither ahead nor after wrapping, never
    ends. *)
Lemma mix_scan_diverges (fuel : nat) : forall (m : mix_mem) (p : nat),
  (p <= SCHEDULE_SLOTS)%nat ->
  (forall k, (p <= k < SCHEDULE_SLOTS)%nat -> mix_load m k <> WORKER_READ) ->
  (forall k, (1 <= k < SCHEDULE_SLOTS)%nat -> mix_load m k <> WORKER_READ) ->
  mix_beyond m <> WORKER_READ ->
  mix_scan fuel m p = None.
Proof.
  induction fuel as [|fuel IH]; intros m p Hp Hahead Hwrap Hb; [reflexivity|].
  cbn [mix_scan].
  assert (Hload : mix_load m p <> WORKER_READ).
  { destruct (Nat.eq_dec p SCHEDULE_SLOTS) as [->|]; [exact Hb|].
    apply Hahead. lia. }
  destruct (Z.eqb_spec (mix_load m p) WORKER_READ); [contradiction|].
  apply IH.
  - destruct (Nat.eqb_spec p SCHEDULE_SLOTS); unfold SCHEDULE_SLOTS in *; lia.
  - intros k Hk. rewrite mix_load_touch.
    destruct (Nat.eqb_spec p SCHEDULE_SLOTS); [apply Hwrap|apply Hahead]; lia.
  - intros k Hk. rewrite mix_load_touch. now apply Hwrap.
  - unfold mix_touch. now destruct (p <? SCHEDULE_SLOTS)%nat.
Qed.

(** The fuel [MIX_FUEL] decides termination: a scan that has not stopped by
    then never stops. *)
Lemma mix_scan_fuel_decides (m : mix_mem) (p : nat) :
  (p <= SCHEDULE_SLOTS)%nat ->
  mix_scan MIX_FUEL m p = None ->
  forall fuel, mix_scan fuel m p = None.
Proof.
  intros Hp Hnone.
  destruct (mix_read_ahead_dec m (SCHEDULE_SLOTS - p) p) as [Hahead|Hno]; [lia| |].
  { destruct (mix_scan_find (SCHEDULE_SLOTS - p) p m)
      as (q & _ & _ & _ & Hscan); [lia|assumption|].
    rewrite Hscan in Hnone by (unfold MIX_FUEL, SCHEDULE_SLOTS; lia).
    discriminate. }
  destruct (Z.eq_dec (mix_beyond m) WORKER_READ) as [Hb|Hb].
  { replace MIX_FUEL
      with ((SCHEDULE_SLOTS - p) + 1 + (MIX_FUEL - (SCHEDULE_SLOTS - p) - 1))%nat
      in Hnone by (unfold MIX_FUEL, SCHEDULE_SLOTS in *; lia).
    rewrite mix_scan_end in Hnone by (assumption || lia). discriminate. }
  set (m1 := mix_touch m SCHEDULE_SLOTS).
  destruct (mix_read_ahead_dec m1 99 1) as [Hwrap|Hnowrap]; [reflexivity| |].
  { destruct (mix_scan_find 99 1 m1) as (q & _ & _ & _ & Hscan);
      [reflexivity|assumption|].
    replace MIX_FUEL
      with ((SCHEDULE_SLOTS - p) + 1 + (MIX_FUEL - (SCHEDULE_SLOTS - p) - 1))%nat
      in Hnone by (unfold MIX_FUEL, SCHEDULE_SLOTS in *; lia).
    rewrite mix_scan_wrap in Hnone by (assumption || lia).
    fold m1 in Hnone.
    rewrite Hscan in Hnone by (unfold MIX_FUEL, SCHEDULE_SLOTS in *; lia).
    discriminate. }
  intros fuel. apply mix_scan_diverges; [assumption|assumption| |assumption].
  intros k Hk. rewrite <- (mix_load_touch m SCHEDULE_SLOTS k). now apply Hnowrap.
Qed.

Lemma mix_jump_le (jump p : nat) :
  (jump <= SCHEDULE_SLOTS)%nat -> (mix_jump jump p <= SCHEDULE_SLOTS)%nat.
Proof.
  intros Hj. unfold mix_jump.
  destruct (Nat.ltb_spec (SCHEDULE_SLOTS - jump) p); lia.
Qed.

Lemma mix_load_inv (m : mix_mem) (i : nat) :
  length (mix_ops m) = SCHEDULE_SLOTS -> (i < SCHEDULE_SLOTS)%nat ->
  mix_ops m !! i = Some (mix_load m i).
Proof.
  intros Hlen Hi.
  destruct (lookup_lt_is_Some_2 (mix_ops m) i) as [x Hx]; [lia|].
  now rewrite (mix_load_lookup m i x Hx Hi).
Qed.

Lemma mix_store_inside (m : mix_mem) (i : nat) (op : Z) :
  (i < SCHEDULE_SLOTS)%nat -> wrap8 op = op ->
  mix_store m i op = MixMem (<[i := op]> (mix_ops m)) (mix_beyond m) (mix_oob m).
Proof.
  intros Hi Hop. unfold mix_store.
  destruct (Nat.ltb_spec i SCHEDULE_SLOTS); [|lia]. now rewrite Hop.
Qed.

(** The placement loop on a memory whose stray byte is not the read tag:
    [n] read slots become [op] slots, and nothing else changes. *)
Lemma mix_place_counts (fuel : nat) (op : Z) (jump : nat) (n : nat) :
  (MIX_FUEL <= fuel)%nat -> wrap8 op = op -> op <> WORKER_READ ->
  (jump <= SCHEDULE_SLOTS)%nat ->
  forall (m : mix_mem) (p : nat),
  length (mix_ops m) = SCHEDULE_SLOTS ->
  mix_beyond m <> WORKER_READ ->
  (p <= SCHEDULE_SLOTS)%nat ->
  p = O \/ mix_load m O <> WORKER_READ ->
  (n <= count_tag WORKER_READ (mix_ops m))%nat ->
  exists m' p', mix_place fuel op jump n m p = Some (m', p') /\
    length (mix_ops m') = SCHEDULE_SLOTS /\
    mix_beyond m' = mix_beyond m /\
    (count_tag WORKER_READ (mix_ops m') + n
     = count_tag WORKER_READ (mix_ops m))%nat /\
    (count_tag op (mix_ops m') = count_tag op (mix_ops m) + n)%nat /\
    (forall t, t <> WORKER_READ -> t <> op ->
       count_tag t (mix_ops m') = count_tag t (mix_ops m)).
Proof.
  intros Hf Hop Hne Hj. induction n as [|n IH]; intros m p Hlen Hb Hp H0 Hn.
  - exists m, p. simpl. repeat (split; [first [reflexivity|lia]|]). reflexivity.
  - destruct (count_tag_lookup WORKER_READ (mix_ops m)) as [i Hi]; [lia|].
    assert (Hi100 : (i < SCHEDULE_SLOTS)%nat)
      by (rewrite <- Hlen; eapply lookup_lt_Some; eassumption).
    assert (Hli : mix_load m i = WORKER_READ) by now apply mix_load_lookup.
    destruct (mix_scan_total fuel m p Hf Hb Hp)
      as (m1 & q & Hscan & Hq & Hrq & Hops1 & Hb1 & Hzero).
    { destruct H0 as [->|H0].
      - right. exists i. split; [lia|assumption].
      - left. exists i. split; [|assumption].
        destruct i; [contradiction|lia]. }
    assert (Hlq : mix_ops m !! q = Some WORKER_READ)
      by (rewrite <- Hrq; now apply mix_load_inv).
    set (m2 := mix_store m1 q op).
    assert (Hm2 : m2 = MixMem (<[q := op]> (mix_ops m)) (mix_beyond m) (mix_oob m1)).
    { unfold m2. rewrite mix_store_inside by assumption. now rewrite Hops1, Hb1. }
    assert (Hcnt : forall t,
      (count_tag t (mix_ops m2) + (if Z.eqb WORKER_READ t then 1 else 0)
       = count_tag t (mix_ops m) + (if Z.eqb op t then 1 else 0))%nat).
    { intros t. rewrite Hm2. cbn [mix_ops]. now apply count_tag_insert. }
    assert (Hlen2 : length (mix_ops m2) = SCHEDULE_SLOTS)
      by (rewrite Hm2; cbn [mix_ops]; now rewrite length_insert).
    destruct (IH m2 (mix_jump jump q)) as (m' & p' & Hpl & Hlen' & Hb' & Hr' & Ho' & Ht').
    + assumption.
    + now rewrite Hm2.
    + now apply mix_jump_le.
    + right. rewrite (mix_load_lookup m2 O (if decide (q = O) then op else mix_load m O)).
      * destruct (decide (q = O)) as [->|Hq0]; [assumption|].
        destruct H0 as [->|H0]; [now apply Hzero|assumption].
      * rewrite Hm2. cbn [mix_ops]. destruct (decide (q = O)) as [->|Hq0].
        -- apply list_lookup_insert_eq. unfold SCHEDULE_SLOTS in *. lia.
        -- rewrite list_lookup_insert_ne by assumption.
           apply mix_load_inv; [assumption|unfold SCHEDULE_SLOTS; lia].
      * unfold SCHEDULE_SLOTS. lia.
    + specialize (Hcnt WORKER_READ). rewrite Z.eqb_refl in Hcnt.
      destruct (Z.eqb_spec op WORKER_READ); [contradiction|]. lia.
    + exists m', p'. cbn [mix_place]. rewrite Hscan. fold m2. rewrite Hpl.
      split; [reflexivity|]. split; [assumption|].
      split; [rewrite Hb'; now rewrite Hm2|].
      pose proof (Hcnt WORKER_READ) as HcR. rewrite Z.eqb_refl in HcR.
      destruct (Z.eqb_spec op WORKER_READ); [contradiction|].
      pose proof (Hcnt op) as HcO. rewrite Z.eqb_refl in HcO.
      destruct (Z.eqb_spec WORKER_READ op); [congruence|].
      split; [lia|]. split; [lia|].
      intros t Ht1 Ht2. rewrite Ht' by assumption.
      specialize (Hcnt t).
      destruct (Z.eqb_spec WORKER_READ t); [congruence|].
      destruct (Z.eqb_spec op t); [congruence|]. lia.
Qed.




(** The assumption on the byte that follows the array is needed in the
    model.  With 4 inserts and 25 updates requested, the builder reads that
    byte, whatever it holds; had it held the read tag, the twenty-fifth
    update tag would have been stored there, and the schedule returned
    would have 24 update tags and 72 read tags. *)
Remark run_mix_schedule_4_25_stray_read_tag :
  (forall b : Z,
     option_map mix_oob
       (run_mix_schedule MIX_FUEL (mix_cfg 4 25) (mix_mem_init b)) = Some true) /\
  exists m',
    run_mix_schedule MIX_FUEL (mix_cfg 4 25) (mix_mem_init WORKER_READ) = Some m' /\
    length (mix_ops m') = SCHEDULE_SLOTS /\
    count_tag WORKER_INSERT (mix_ops m') = 4%nat /\
    count_tag WORKER_UPDATE (mix_ops m') = 24%nat /\
    count_tag WORKER_READ (mix_ops m') = 72%nat /\
    mix_beyond m' = WORKER_UPDATE.
Proof.
  split.
  - intros b. destruct b as [|[p|p|]|p]; vm_compute; reflexivity.
  - eexists. split; [vm_compute; reflexivity|].
    repeat split; vm_compute; reflexivity.
Qed.

(** C9 (evaluation at the failing input): the schedule with inserts at
    slots 0, 25, 50 and 75 still has 96 read slots, yet placing 25 updates
    in it dereferences the scan pointer at the one-past-the-end position,
    whatever byte is stored there. *)
Theorem run_mix_schedule_op_dereferences_end :
  count_tag WORKER_READ schedule_4_inserts = 96%nat /\
  (forall b : Z,
     run_mix_schedule_op MIX_FUEL WORKER_INSERT 4 (mix_memset (mix_mem_init b))
       = Some (MixMem schedule_4_inserts b false)) /\
  (forall b : Z,
     option_map mix_oob
       (run_mix_schedule_op MIX_FUEL WORKER_UPDATE 25
          (MixMem schedule_4_inserts b false)) = Some true).
Proof.
  split; [reflexivity|]. split.
  - intros b. vm_compute. reflexivity.
  - intros b. destruct b as [|[p|p|]|p]; vm_compute; reflexivity.
Qed.

(** ** Key distribution generator *)

Lemma wrap64_range (x : Z) : 0 <= wrap64 x < 2 ^ 64.
Proof. unfold wrap64. apply Z.mod_pos_bound. lia. Qed.

Lemma wrap32_range (x : Z) : 0 <= wrap32 x < 2 ^ 32.
Proof. unfold wrap32. apply Z.mod_pos_bound. lia. Qed.

Lemma wrap64_small (x : Z) : 0 <= x < 2 ^ 64 -> wrap64 x = x.
Proof. intros H. unfold wrap64. now apply Z.mod_small. Qed.

Lemma wrap32_small (x : Z) : 0 <= x < 2 ^ 32 -> wrap32 x = x.
Proof. intros H. unfold wrap32. now apply Z.mod_small. Qed.

Lemma wtperf_value_range_bounds (cfg : CONFIG) (key : Z) :
  0 <= wtperf_value_range cfg key < 2 ^ 64.
Proof.
  unfold wtperf_value_range. destruct (random_range cfg =? 0).
  - apply wrap64_range.
  - pose proof (wrap32_range (icount cfg + random_range cfg)). lia.
Qed.

(** C2: whenever the current value range is at least 1, [wtperf_rand]
    returns a key between 1 and the value range, both included, for every
    draw, with and without the Pareto skew, and whatever the floating-point
    transform yields. *)
Theorem wtperf_rand_in_range (pareto_cdf : Z -> Z -> Z) (cfg : CONFIG)
    (key draw : Z) :
  1 <= wtperf_value_range cfg key ->
  exists v, wtperf_rand pareto_cdf cfg key draw = Some v /\
            1 <= v <= wtperf_value_range cfg key.
Proof.
  intros Hr. pose proof (wtperf_value_range_bounds cfg key) as Hb.
  unfold wtperf_rand.
  set (range := wtperf_value_range cfg key) in *.
  set (rval := if pareto cfg then _ else _).
  destruct (Z.eqb_spec range 0); [lia|].
  pose proof (Z.mod_pos_bound rval range ltac:(lia)) as Hm.
  eexists. split; [reflexivity|].
  rewrite wrap64_small by lia. lia.
Qed.

Lemma wtperf_rand_in_range_witness :
  1 <= wtperf_value_range (mix_cfg 20 10) 0 /\
  exists v, wtperf_rand (fun _ _ => 7) (mix_cfg 20 10) 0 12345 = Some v /\
            1 <= v <= wtperf_value_range (mix_cfg 20 10) 0.
Proof.
  split; [vm_compute; discriminate|].
  apply (wtperf_rand_in_range (fun _ _ => 7) (mix_cfg 20 10) 0 12345).
  vm_compute. discriminate.
Defined.

(** What the clamp amounts to: a transformed value above the value range is
    replaced by the value range, which the final [% range + 1] turns into
    key 1. *)
Lemma wtperf_rand_clamped (pareto_cdf : Z -> Z -> Z) (cfg : CONFIG)
    (key draw : Z) :
  pareto cfg = true ->
  1 <= wtperf_value_range cfg key ->
  wtperf_value_range cfg key
    < wrap64 (pareto_cdf (wtperf_value_range cfg key) (wrap64 (wrap32 draw))) ->
  wtperf_rand pareto_cdf cfg key draw = Some 1.
Proof.
  intros Hp Hr Hgt. unfold wtperf_rand. rewrite Hp.
  set (range := wtperf_value_range cfg key) in *.
  destruct (Z.ltb_spec range (wrap64 (pareto_cdf range (wrap64 (wrap32 draw))))); [|lia].
  destruct (Z.eqb_spec range 0); [lia|].
  now rewrite Z.mod_same by lia.
Qed.

(** C4 (evaluation at the failing input): with a value range of 10 and a
    Pareto transform that yields 1664509 (what the draw 2147483646 gives),
    the key returned is 1, not the largest valid key 10. *)
Theorem wtperf_rand_clamp_returns_first_key :
  pareto pareto_cfg = true /\
  wtperf_value_range pareto_cfg 0 = 10 /\
  wtperf_value_range pareto_cfg 0 < wrap64 1664509 /\
  wtperf_rand (fun _ _ => 1664509) pareto_cfg 0 2147483646 = Some 1 /\
  wtperf_rand (fun _ _ => 1664509) pareto_cfg 0 2147483646
    <> Some (wtperf_value_range pareto_cfg 0).
Proof. repeat split. intros H. discriminate H. Qed.

(** Without wrap-around the dynamic value range follows the insert
    counter. *)
Lemma wtperf_value_range_exact (cfg : CONFIG) (key : Z) :
  random_range cfg = 0 ->
  0 <= insert_threads cfg < 2 ^ 32 - 1 ->
  insert_threads cfg + 1 <= icount cfg + key < 2 ^ 64 ->
  wtperf_value_range cfg key = icount cfg + key - (insert_threads cfg + 1).
Proof.
  intros Hrr Hit Hk. unfold wtperf_value_range. rewrite Hrr. simpl.
  rewrite (wrap64_small (icount cfg + key)) by lia.
  rewrite wrap32_small by lia. apply wrap64_small. lia.
Qed.

Lemma wtperf_value_range_monotone (cfg : CONFIG) (key1 key2 : Z) :
  random_range cfg = 0 ->
  0 <= insert_threads cfg < 2 ^ 32 - 1 ->
  insert_threads cfg + 1 <= icount cfg + key1 ->
  key1 <= key2 -> icount cfg + key2 < 2 ^ 64 ->
  wtperf_value_range cfg key1 <= wtperf_value_range cfg key2.
Proof.
  intros Hrr Hit H1 H12 H2.
  rewrite !wtperf_value_range_exact by lia. lia.
Qed.

Lemma wtperf_value_range_fixed (cfg : CONFIG) (key1 key2 : Z) :
  random_range cfg <> 0 ->
  wtperf_value_range cfg key1 = wtperf_value_range cfg key2.
Proof.
  intros Hrr. unfold wtperf_value_range.
  now destruct (Z.eqb_spec (random_range cfg) 0).
Qed.

(** When the insert threads outnumber the records, the dynamic value
    range is 2^64 minus what is missing. *)
Lemma wtperf_value_range_wraps (cfg : CONFIG) (key : Z) :
  random_range cfg = 0 ->
  0 <= insert_threads cfg < 2 ^ 32 - 1 ->
  0 <= icount cfg + key < insert_threads cfg + 1 ->
  wtperf_value_range cfg key
  = 2 ^ 64 - (insert_threads cfg + 1 - (icount cfg + key)).
Proof.
  intros Hrr Hit Hk. unfold wtperf_value_range. rewrite Hrr. simpl.
  rewrite (wrap64_small (icount cfg + key)) by lia.
  rewrite wrap32_small by lia. unfold wrap64.
  rewrite <- (Z.mod_add _ 1) by lia. rewrite Z.mod_small by lia. lia.
Qed.

(** C7 (evaluation at the failing input): with 2 initial records and 4
    insert threads, the value range is 2^64 - 3 while the insert counter is
    0 and drops to 0 once the counter has reached 3. *)
Theorem wtperf_value_range_drops :
  wtperf_value_range small_table_cfg 0 = 2 ^ 64 - 3 /\
  wtperf_value_range small_table_cfg 3 = 0 /\
  wtperf_value_range small_table_cfg 3 < wtperf_value_range small_table_cfg 0.
Proof. repeat split. Qed.

(** C10 (evaluation at the failing input): with 2 initial records, 4 insert
    threads and the insert counter at 0, as [execute_workload] leaves it,
    the subtraction wraps: the result is 2^64 - 3, which is neither the
    integer difference -3 nor at most [icount + g_insert_key]. *)
Theorem wtperf_value_range_wraps_at_start :
  random_range small_table_cfg = 0 /\
  wtperf_value_range small_table_cfg 0 = 18446744073709551613 /\
  wtperf_value_range small_table_cfg 0
    <> icount small_table_cfg + 0 - (insert_threads small_table_cfg + 1) /\
  icount small_table_cfg + 0 < wtperf_value_range small_table_cfg 0.
Proof. repeat split. intros H. discriminate H. Qed.

(** ** Latency aggregator *)

Lemma bucket_add_app_l (a b : list Z) (i : nat) (n : Z) :
  (i < length a)%nat -> bucket_add (a ++ b) i n = bucket_add a i n ++ b.
Proof.
  intros Hi. unfold bucket_add.
  rewrite lookup_app_l by assumption. now apply insert_app_l.
Qed.

Lemma bucket_add_app_r (a b : list Z) (i : nat) (n : Z) :
  bucket_add (a ++ b) (length a + i) n = a ++ bucket_add b i n.
Proof.
  unfold bucket_add. rewrite lookup_app_r by lia.
  replace (length a + i - length a)%nat with i by lia. apply insert_app_r.
Qed.

Lemma bucket_add_lookup (a : list Z) (i j : nat) (n : Z) :
  (i < length a)%nat ->
  bucket_add a i n !! j =
    if decide (i = j) then Some (wrap32 (default 0 (a !! i) + n)) else a !! j.
Proof.
  intros Hi. unfold bucket_add. destruct (decide (i = j)) as [->|Hne].
  - now apply list_lookup_insert_eq.
  - now apply list_lookup_insert_ne.
Qed.

(** What one call of [track_aggregated_update] does to a track with [n]
    pending operations: it adds [n] to one bucket of the histogram and
    [nsecs] to the cumulative latency, resets the pending count, and leaves
    the minimum at or below the average.  The maximum ends up at or above
    the average only when the average fits in 32 bits. *)
Lemma track_aggregated_update_spec (trk : TRACK) (nsecs n : Z) :
  TRACK_sized trk -> aggregated trk = n -> 0 < n -> 0 <= nsecs ->
  exists trk' i,
    track_aggregated_update trk nsecs n = Some trk' /\
    (i < length (buckets trk))%nat /\
    buckets trk' = bucket_add (buckets trk) i n /\
    latency trk' = wrap64 (latency trk + nsecs) /\
    ops trk' = ops trk /\ aggregated trk' = 0 /\
    min_latency trk' <= nsecs / n /\
    (nsecs / n < 2 ^ 32 -> nsecs / n <= max_latency trk').
Proof.
  intros (Hus & Hms & Hsec) Hagg Hn Hns.
  unfold track_aggregated_update. rewrite Hagg.
  destruct (Z.eqb_spec n 0); [lia|].
  set (v := nsecs / n).
  assert (Hv : 0 <= v) by (apply Z.div_pos; lia).
  assert (Hmin : (if v <? min_latency trk then wrap32 v else min_latency trk) <= v).
  { destruct (Z.ltb_spec v (min_latency trk)); [|lia].
    unfold wrap32. apply Z.mod_le; lia. }
  assert (Hmax : v < 2 ^ 32 ->
            v <= (if max_latency trk <? v then wrap32 v else max_latency trk)).
  { intros Hfit. destruct (Z.ltb_spec (max_latency trk) v); [|lia].
    rewrite wrap32_small; lia. }
  change (us_to_ns 1000) with 1000000.
  change (ms_to_ns 1000) with 1000000000.
  change (sec_to_ns 100) with 100000000000.
  unfold buckets.
  destruct (Z.ltb_spec v 1000000) as [H1|H1];
    [|destruct (Z.ltb_spec v 1000000000) as [H2|H2];
      [|destruct (Z.ltb_spec v 100000000000) as [H3|H3]]].
  - assert (Hi : (Z.to_nat (ns_to_us v) < 1000)%nat).
    { unfold ns_to_us, THOUSAND.
      assert (v / 1000 < 1000) by (apply Z.div_lt_upper_bound; lia).
      assert (0 <= v / 1000) by (apply Z.div_pos; lia). lia. }
    eexists. exists (Z.to_nat (ns_to_us v)).
    split; [reflexivity|]. cbn [us ms sec latency ops aggregated min_latency max_latency].
    split; [rewrite !length_app; lia|].
    split; [now rewrite bucket_add_app_l by lia|].
    repeat (split; [first [reflexivity|assumption]|]). assumption.
  - assert (Hi : (Z.to_nat (ns_to_ms v) < 1000)%nat).
    { unfold ns_to_ms, MILLION.
      assert (v / 1000000 < 1000) by (apply Z.div_lt_upper_bound; lia).
      assert (0 <= v / 1000000) by (apply Z.div_pos; lia). lia. }
    eexists. exists (length (us trk) + Z.to_nat (ns_to_ms v))%nat.
    split; [reflexivity|]. cbn [us ms sec latency ops aggregated min_latency max_latency].
    split; [rewrite !length_app; lia|].
    split; [now rewrite bucket_add_app_r, bucket_add_app_l by lia|].
    repeat (split; [first [reflexivity|assumption]|]). assumption.
  - assert (Hi : (Z.to_nat (ns_to_sec v) < 100)%nat).
    { unfold ns_to_sec, BILLION.
      assert (v / 1000000000 < 100) by (apply Z.div_lt_upper_bound; lia).
      assert (0 <= v / 1000000000) by (apply Z.div_pos; lia). lia. }
    eexists. exists (length (us trk) + (length (ms trk) + Z.to_nat (ns_to_sec v)))%nat.
    split; [reflexivity|]. cbn [us ms sec latency ops aggregated min_latency max_latency].
    split; [rewrite !length_app; lia|].
    split; [now rewrite !bucket_add_app_r|].
    repeat (split; [first [reflexivity|assumption]|]). assumption.
  - eexists. exists (length (us trk) + (length (ms trk) + (length (sec trk) - 1)))%nat.
    split; [reflexivity|]. cbn [us ms sec latency ops aggregated min_latency max_latency].
    split; [rewrite !length_app; lia|].
    split; [now rewrite !bucket_add_app_r|].
    repeat (split; [first [reflexivity|assumption]|]). assumption.
Qed.

(** Every sample whose average does not fit in 32 bits leaves the maximum
    below that average. *)
Lemma track_aggregated_update_max_below (trk : TRACK) (nsecs n : Z) :
  0 <= max_latency trk < 2 ^ 32 ->
  aggregated trk <> 0 -> n <> 0 ->
  2 ^ 32 <= nsecs / n ->
  exists trk',
    track_aggregated_update trk nsecs n = Some trk' /\
    max_latency trk' < nsecs / n.
Proof.
  intros Hmax Hagg Hn Hv. unfold track_aggregated_update.
  destruct (Z.eqb_spec (aggregated trk) 0); [contradiction|].
  destruct (Z.eqb_spec n 0); [contradiction|].
  set (v := nsecs / n) in *.
  destruct (Z.ltb_spec (max_latency trk) v); [|lia].
  pose proof (wrap32_range v).
  eexists. split; [reflexivity|].
  repeat match goal with |- context [if ?c then _ else _] => destruct c end;
    cbn [max_latency]; lia.
Qed.

(** C3 (evaluation at the failing input): a fresh track that has counted
    one operation is given a sample of 5 s for that operation.  The average
    is 5000000000 ns; the maximum stored is its low 32 bits, 705032704,
    which is below the average. *)
Theorem track_aggregated_update_truncates_max :
  aggregated (track_count TRACK_init) = 1 /\
  exists trk',
    track_aggregated_update (track_count TRACK_init) 5000000000 1 = Some trk' /\
    max_latency trk' = 705032704 /\
    max_latency trk' < 5000000000 / 1.
Proof.
  split; [reflexivity|]. eexists. split; [vm_compute; reflexivity|].
  split; reflexivity.
Qed.

(** ** Worker engine *)

Lemma track_aggregated_update_ops (trk trk' : TRACK) (nsecs aggr : Z) :
  track_aggregated_update trk nsecs aggr = Some trk' -> ops trk' = ops trk.
Proof.
  unfold track_aggregated_update.
  destruct (aggregated trk =? 0); [now intros [= <-]|].
  destruct (aggr =? 0); [discriminate|].
  repeat match goal with |- context [if ?c then _ else _] => destruct c end;
    now intros [= <-].
Qed.

Lemma track_aggregated_update_total (trk : TRACK) (nsecs aggr : Z) :
  aggr <> 0 -> exists trk', track_aggregated_update trk nsecs aggr = Some trk'.
Proof.
  intros Ha. unfold track_aggregated_update.
  destruct (aggregated trk =? 0); [eauto|].
  destruct (Z.eqb_spec aggr 0); [contradiction|eauto].
Qed.

(** Folding a sample changes no operation count and cannot trap when the
    batch is not empty. *)
Lemma thread_sample_ops (th : CONFIG_THREAD) (nsecs aggr : Z) :
  aggr <> 0 ->
  exists th', thread_sample th nsecs aggr = Some th' /\
    ops (thread_read th') = ops (thread_read th) /\
    ops (thread_insert th') = ops (thread_insert th) /\
    ops (thread_update th') = ops (thread_update th).
Proof.
  intros Ha. unfold thread_sample.
  destruct (track_aggregated_update_total (thread_insert th) nsecs aggr Ha) as [ti Hi].
  destruct (track_aggregated_update_total (thread_read th) nsecs aggr Ha) as [tr Hr].
  destruct (track_aggregated_update_total (thread_update th) nsecs aggr Ha) as [tu Hu].
  rewrite Hi, Hr, Hu. eexists. split; [reflexivity|]. cbn.
  repeat split; eapply track_aggregated_update_ops; eassumption.
Qed.

(** The end of an iteration keeps the shared flags and the operation
    counts, whether it folds a sample or not. *)
Lemma worker_latency_ops {St} (cfg : CONFIG) (now : timespec)
    (s : worker_state St) :
  w_aggregated s <> 0 ->
  exists s', worker_latency cfg now s = Some s' /\
    w_glob s' = w_glob s /\ w_calls s' = w_calls s /\
    ops (thread_read (w_thread s')) = ops (thread_read (w_thread s)) /\
    ops (thread_insert (w_thread s')) = ops (thread_insert (w_thread s)) /\
    ops (thread_update (w_thread s')) = ops (thread_update (w_thread s)).
Proof.
  intros Ha. unfold worker_latency.
  destruct (_ && _).
  - eexists. split; [reflexivity|]. cbn. repeat split.
  - destruct (thread_sample_ops (w_thread s)
                (elapsed_nsecs (w_last s) now) (w_aggregated s) Ha)
      as (th' & Hs & Hr & Hi & Hu).
    rewrite Hs. eexists. split; [reflexivity|]. cbn. repeat split; assumption.
Qed.

(** A track with no pending operation is left alone by a sample. *)
Lemma worker_latency_update_idle {St : Type} (cfg : CONFIG) (now : timespec)
    (s s' : worker_state St) :
  aggregated (thread_update (w_thread s)) = 0 ->
  worker_latency cfg now s = Some s' ->
  thread_update (w_thread s') = thread_update (w_thread s).
Proof.
  intros Hidle. unfold worker_latency.
  destruct (_ && _); [now intros [= <-]|].
  unfold thread_sample.
  destruct (track_aggregated_update (thread_insert _) _ _); [|discriminate].
  destruct (track_aggregated_update (thread_read _) _ _); [|discriminate].
  unfold track_aggregated_update at 1. rewrite Hidle. cbn [Z.eqb].
  now intros [= <-].
Qed.

Lemma worker_next_val_update (pareto_cdf : Z -> Z -> Z) (cfg : CONFIG)
    (draw key : Z) (g g' : globals) :
  worker_next_val pareto_cdf cfg WORKER_UPDATE draw g = NextVal key g' -> g' = g.
Proof.
  unfold worker_next_val. cbn.
  destruct (wtperf_rand _ _ _ _); [|discriminate].
  destruct (_ <? _); [discriminate|]. now intros [= _ <-].
Qed.

(** Comparisons between operation tags are settled by computation. *)
Ltac decide_tags :=
  repeat match goal with
  | |- context [?a =? ?b] =>
      first [unify a WORKER_READ | unify a WORKER_INSERT
            | unify a WORKER_INSERT_RMW | unify a WORKER_UPDATE];
      first [unify b WORKER_READ | unify b WORKER_INSERT
            | unify b WORKER_INSERT_RMW | unify b WORKER_UPDATE];
      let v := eval vm_compute in (a =? b) in
      change (a =? b) with v
  end;
  cbv iota.

Lemma worker_op_insert_rmw_found {St : Type} (cur : WT_CURSOR St)
    (cfg : CONFIG) (key : Z) (vbuf : list Z) (st st1 : St)
    (calls : list store_call) (ret : Z) :
  cursor_search cur key st = (ret, st1) -> ret <> WT_NOTFOUND ->
  worker_op cur cfg WORKER_INSERT_RMW key vbuf st calls
  = OpResult None vbuf st1 (calls ++ [CallSearch key]) false.
Proof.
  intros Hs Hret. unfold worker_op. decide_tags. rewrite Hs.
  now destruct (Z.eqb_spec ret WT_NOTFOUND).
Qed.

Lemma worker_op_insert_rmw_notfound {St : Type} (cur : WT_CURSOR St)
    (cfg : CONFIG) (key : Z) (vbuf : list Z) (st st1 : St)
    (calls : list store_call) :
  cursor_search cur key st = (WT_NOTFOUND, st1) ->
  worker_op cur cfg WORKER_INSERT_RMW key vbuf st calls
  = worker_insert cur key vbuf st1 (calls ++ [CallSearch key]).
Proof.
  intros Hs. unfold worker_op. decide_tags. rewrite Hs.
  now rewrite Z.eqb_refl.
Qed.

Lemma worker_op_update_missed {St : Type} (cur : WT_CURSOR St)
    (cfg : CONFIG) (key : Z) (vbuf : list Z) (st st1 : St)
    (calls : list store_call) (ret : Z) :
  cursor_search cur key st = (ret, st1) -> ret <> 0 ->
  worker_op cur cfg WORKER_UPDATE key vbuf st calls
  = OpResult (if ret =? WT_NOTFOUND then Some TrkRead else None) vbuf st1
             (calls ++ [CallSearch key]) false.
Proof.
  intros Hs Hret. unfold worker_op. decide_tags. rewrite Hs.
  destruct (Z.eqb_spec ret 0); [contradiction|].
  now destruct (ret =? WT_NOTFOUND).
Qed.

(** Only the update case copies a value: no other operation, and no update
    whose search fails, leaves its memory. *)
Lemma worker_op_no_overrun {St : Type} (cur : WT_CURSOR St) (cfg : CONFIG)
    (op key : Z) (vbuf : list Z) (st : St) (calls : list store_call) :
  op <> WORKER_UPDATE \/ fst (cursor_search cur key st) <> 0 ->
  or_overrun (worker_op cur cfg op key vbuf st calls) = false.
Proof.
  intros H. unfold worker_op, worker_insert.
  destruct (op =? WORKER_READ);
    [destruct (cursor_search cur key st); reflexivity|].
  destruct (op =? WORKER_INSERT_RMW).
  { destruct (cursor_search cur key st) as [ret st1].
    destruct (ret =? WT_NOTFOUND); [|reflexivity].
    destruct (cursor_insert cur key vbuf st1); reflexivity. }
  destruct (op =? WORKER_INSERT);
    [destruct (cursor_insert cur key vbuf st); reflexivity|].
  destruct (Z.eqb_spec op WORKER_UPDATE) as [Hop|_]; [|reflexivity].
  destruct H as [H|H]; [contradiction|].
  destruct (cursor_search cur key st) as [ret st1]. cbn [fst] in H.
  destruct (Z.eqb_spec ret 0); [contradiction|].
  destruct (ret =? WT_NOTFOUND); reflexivity.
Qed.

(** An iteration once the key is known and the operation stays inside its
    memory: what the second [switch] returns decides between the error exit
    and the end of the loop body. *)
Lemma worker_iteration_op {St : Type} (cur : WT_CURSOR St)
    (pareto_cdf : Z -> Z -> Z) (cfg : CONFIG) (draw : Z) (now : timespec)
    (s : worker_state St) (op key : Z) (g : globals) :
  g_stop (w_glob s) = 0 ->
  schedule (w_thread s) !! w_op s = Some op ->
  worker_next_val pareto_cdf cfg op draw (w_glob s) = NextVal key g ->
  or_overrun (worker_op cur cfg op key (value_buf (w_thread s)) (w_store s)
                        (w_calls s)) = false ->
  worker_iteration cur pareto_cdf cfg draw now s =
    let r := worker_op cur cfg op key (value_buf (w_thread s)) (w_store s)
                       (w_calls s) in
    match or_trk r with
    | None => WFailed (worker_fail s g (or_value_buf r) (or_store r) (or_calls r))
    | Some sel =>
        match worker_latency cfg now (worker_account s g r sel) with
        | None => WTrap
        | Some s' => WContinue s'
        end
    end.
Proof.
  intros Hstop Hop Hkey Hin. unfold worker_iteration. rewrite Hstop, Hop.
  change (default 0 (Some op)) with op. cbn [negb Z.eqb]. rewrite Hkey.
  cbv zeta. now rewrite Hin.
Qed.

(** C5: when the slot scheduled is insert-with-read-modify-write, a search
    that returns anything but "not found" (success included) makes the
    worker leave through the error exit: both the error flag and the stop
    flag are set, the loop ends, and the only store call of the iteration is
    the search, so nothing is inserted.  When the search returns "not
    found", it is followed by the insert of the same key. *)
Theorem worker_insert_rmw_requires_notfound {St : Type} (cur : WT_CURSOR St)
    (pareto_cdf : Z -> Z -> Z) (cfg : CONFIG) (draw : Z) (now : timespec)
    (s : worker_state St) (key : Z) (g : globals) (ret : Z) (st1 : St) :
  g_stop (w_glob s) = 0 ->
  schedule (w_thread s) !! w_op s = Some WORKER_INSERT_RMW ->
  worker_next_val pareto_cdf cfg WORKER_INSERT_RMW draw (w_glob s) = NextVal key g ->
  cursor_search cur key (w_store s) = (ret, st1) ->
  (ret <> WT_NOTFOUND ->
     exists s',
       worker_iteration cur pareto_cdf cfg draw now s = WFailed s' /\
       g_error (w_glob s') = 1 /\ g_stop (w_glob s') = 1 /\
       w_calls s' = w_calls s ++ [CallSearch key] /\
       thread_insert (w_thread s') = thread_insert (w_thread s) /\
       forall inputs,
         worker cur pareto_cdf cfg ((draw, now) :: inputs) s = Some (WFailed s')) /\
  (ret = WT_NOTFOUND ->
     or_calls (worker_op cur cfg WORKER_INSERT_RMW key (value_buf (w_thread s))
                 (w_store s) (w_calls s))
     = w_calls s ++ [CallSearch key; CallInsert key (value_buf (w_thread s))]).
Proof.
  intros Hstop Hop Hkey Hsearch. split.
  - intros Hret.
    assert (Hit : worker_iteration cur pareto_cdf cfg draw now s
              = WFailed (worker_fail s g (value_buf (w_thread s)) st1
                           (w_calls s ++ [CallSearch key]))).
    { rewrite (worker_iteration_op cur pareto_cdf cfg draw now s _ key g Hstop Hop Hkey)
        by (apply worker_op_no_overrun; left; discriminate).
      now rewrite (worker_op_insert_rmw_found cur cfg key _ _ st1 _ ret Hsearch Hret). }
    eexists. split; [exact Hit|]. cbn.
    repeat (split; [reflexivity|]).
    intros inputs. now rewrite Hit.
  - intros ->. rewrite (worker_op_insert_rmw_notfound cur cfg key _ _ st1 _ Hsearch).
    unfold worker_insert.
    destruct (cursor_insert cur key (value_buf (w_thread s)) st1).
    cbn. now rewrite <- app_assoc.
Qed.

Lemma worker_insert_rmw_requires_notfound_witness :
  let s := worker_init rmw_cfg WORKER_INSERT_RMW in
  g_stop (w_glob s) = 0 /\
  schedule (w_thread s) !! w_op s = Some WORKER_INSERT_RMW /\
  worker_next_val (fun _ _ => 0) rmw_cfg WORKER_INSERT_RMW 7 (w_glob s)
    = NextVal 5001 (Globals 1 0 0) /\
  cursor_search ok_cursor 5001 (w_store s) = (0, 1%nat) /\
  ((0 <> WT_NOTFOUND ->
     exists s',
       worker_iteration ok_cursor (fun _ _ => 0) rmw_cfg 7 (Timespec 1 0) s
         = WFailed s' /\
       g_error (w_glob s') = 1 /\ g_stop (w_glob s') = 1 /\
       w_calls s' = w_calls s ++ [CallSearch 5001] /\
       thread_insert (w_thread s') = thread_insert (w_thread s) /\
       forall inputs,
         worker ok_cursor (fun _ _ => 0) rmw_cfg ((7, Timespec 1 0) :: inputs) s
           = Some (WFailed s')) /\
   (0 = WT_NOTFOUND ->
     or_calls (worker_op ok_cursor rmw_cfg WORKER_INSERT_RMW 5001
                 (value_buf (w_thread s)) (w_store s) (w_calls s))
     = w_calls s ++ [CallSearch 5001; CallInsert 5001 (value_buf (w_thread s))])).
Proof.
  intros s. split; [reflexivity|]. split; [reflexivity|].
  split; [reflexivity|]. split; [reflexivity|].
  apply (worker_insert_rmw_requires_notfound ok_cursor (fun _ _ => 0) rmw_cfg 7
           (Timespec 1 0) s 5001 (Globals 1 0 0) 0 1%nat);
    reflexivity.
Defined.

(** C6: when the slot scheduled is update and the search returns "not
    found", the operation is charged to the read track: after the
    accounting the read track has one more operation, the update track is
    what it was, and no update call has been issued; the iteration ends
    without error, with both flags as they were, and the loop goes on.  At
    the end of the iteration the operation count of the update track is
    still the same, and so is the whole track unless a sample folds update
    operations that were pending from earlier iterations.  A search result
    other than success and "not found" ends the worker through the error
    exit. *)
Theorem worker_update_notfound_is_a_read {St : Type} (cur : WT_CURSOR St)
    (pareto_cdf : Z -> Z -> Z) (cfg : CONFIG) (draw : Z) (now : timespec)
    (s : worker_state St) (key : Z) (g : globals) (ret : Z) (st1 : St) :
  g_stop (w_glob s) = 0 ->
  schedule (w_thread s) !! w_op s = Some WORKER_UPDATE ->
  worker_next_val pareto_cdf cfg WORKER_UPDATE draw (w_glob s) = NextVal key g ->
  cursor_search cur key (w_store s) = (ret, st1) ->
  0 <= w_aggregated s < UINT32_MAX ->
  (ret = WT_NOTFOUND ->
     let r := worker_op cur cfg WORKER_UPDATE key (value_buf (w_thread s))
                (w_store s) (w_calls s) in
     let s1 := worker_account s g r TrkRead in
     or_trk r = Some TrkRead /\
     ops (thread_read (w_thread s1)) = wrap64 (ops (thread_read (w_thread s)) + 1) /\
     thread_update (w_thread s1) = thread_update (w_thread s) /\
     w_calls s1 = w_calls s ++ [CallSearch key] /\
     exists s',
       worker_iteration cur pareto_cdf cfg draw now s = WContinue s' /\
       worker_latency cfg now s1 = Some s' /\
       g_error (w_glob s') = g_error (w_glob s) /\ g_stop (w_glob s') = 0 /\
       ops (thread_read (w_thread s'))
         = wrap64 (ops (thread_read (w_thread s)) + 1) /\
       ops (thread_update (w_thread s')) = ops (thread_update (w_thread s)) /\
       (aggregated (thread_update (w_thread s)) = 0 ->
        thread_update (w_thread s') = thread_update (w_thread s)) /\
       forall inputs,
         worker cur pareto_cdf cfg ((draw, now) :: inputs) s
           = worker cur pareto_cdf cfg inputs s') /\
  (ret <> 0 -> ret <> WT_NOTFOUND ->
     exists s',
       worker_iteration cur pareto_cdf cfg draw now s = WFailed s' /\
       g_error (w_glob s') = 1 /\ g_stop (w_glob s') = 1 /\
       forall inputs,
         worker cur pareto_cdf cfg ((draw, now) :: inputs) s = Some (WFailed s')).
Proof.
  intros Hstop Hop Hkey Hsearch Hagg.
  pose proof (worker_next_val_update _ _ _ _ _ _ Hkey) as ->.
  pose proof (worker_iteration_op cur pareto_cdf cfg draw now s _ key _
                Hstop Hop Hkey) as Hit.
  split.
  - intros ->.
    specialize (Hit (worker_op_no_overrun cur cfg WORKER_UPDATE key _ _ _
                       ltac:(right; rewrite Hsearch; discriminate))).
    assert (Hr : worker_op cur cfg WORKER_UPDATE key (value_buf (w_thread s))
                   (w_store s) (w_calls s)
                 = OpResult (Some TrkRead) (value_buf (w_thread s)) st1
                            (w_calls s ++ [CallSearch key]) false)
      by (now rewrite (worker_op_update_missed cur cfg key _ _ st1 _ WT_NOTFOUND Hsearch)).
    cbv zeta in Hit |- *. rewrite Hr in Hit |- *. cbn [or_trk] in Hit |- *.
    set (s1 := worker_account s (w_glob s) _ TrkRead) in *.
    split; [reflexivity|]. split; [reflexivity|]. split; [reflexivity|].
    split; [reflexivity|].
    destruct (worker_latency_ops cfg now s1) as (s' & Hl & Hg & _ & Hro & _ & Huo).
    { unfold s1. cbn [worker_account w_aggregated].
      rewrite wrap32_small by (unfold UINT32_MAX in Hagg; lia). lia. }
    rewrite Hl in Hit. exists s'. split; [exact Hit|]. split; [exact Hl|].
    rewrite Hg. split; [reflexivity|]. split; [exact Hstop|].
    split; [rewrite Hro; reflexivity|]. split; [rewrite Huo; reflexivity|].
    split; [intros Hidle; now apply (worker_latency_update_idle cfg now s1 s')|].
    intros inputs. cbn [worker]. now rewrite Hit.
  - intros H0 Hnf.
    specialize (Hit (worker_op_no_overrun cur cfg WORKER_UPDATE key _ _ _
                       ltac:(right; rewrite Hsearch; exact H0))).
    rewrite (worker_op_update_missed cur cfg key _ _ st1 _ ret Hsearch H0) in Hit.
    destruct (Z.eqb_spec ret WT_NOTFOUND); [contradiction|].
    cbv zeta in Hit. cbn [or_trk or_value_buf or_store or_calls] in Hit.
    eexists. split; [exact Hit|]. split; [reflexivity|]. split; [reflexivity|].
    intros inputs. cbn [worker]. now rewrite Hit.
Qed.

Lemma worker_update_notfound_is_a_read_witness :
  let s := worker_init (mix_cfg 0 0) WORKER_UPDATE in
  let r := worker_op empty_cursor (mix_cfg 0 0) WORKER_UPDATE 2348
             (value_buf (w_thread s)) (w_store s) (w_calls s) in
  let s1 := worker_account s (w_glob s) r TrkRead in
  g_stop (w_glob s) = 0 /\
  schedule (w_thread s) !! w_op s = Some WORKER_UPDATE /\
  worker_next_val (fun _ _ => 0) (mix_cfg 0 0) WORKER_UPDATE 12345 (w_glob s)
    = NextVal 2348 (w_glob s) /\
  cursor_search empty_cursor 2348 (w_store s) = (WT_NOTFOUND, 1%nat) /\
  0 <= w_aggregated s < UINT32_MAX /\
  or_trk r = Some TrkRead /\
  ops (thread_read (w_thread s1)) = 1 /\
  thread_update (w_thread s1) = thread_update (w_thread s) /\
  exists s',
    worker_iteration empty_cursor (fun _ _ => 0) (mix_cfg 0 0) 12345
      (Timespec 1 0) s = WContinue s' /\
    g_error (w_glob s') = 0 /\ g_stop (w_glob s') = 0 /\
    ops (thread_update (w_thread s')) = 0.
Proof.
  intros s r s1.
  assert (H1 : g_stop (w_glob s) = 0) by reflexivity.
  assert (H2 : schedule (w_thread s) !! w_op s = Some WORKER_UPDATE) by reflexivity.
  assert (H3 : worker_next_val (fun _ _ => 0) (mix_cfg 0 0) WORKER_UPDATE 12345
                 (w_glob s) = NextVal 2348 (w_glob s)) by reflexivity.
  assert (H4 : cursor_search empty_cursor 2348 (w_store s) = (WT_NOTFOUND, 1%nat))
    by reflexivity.
  assert (H5 : 0 <= w_aggregated s < UINT32_MAX) by (cbn; unfold UINT32_MAX; lia).
  destruct (worker_update_notfound_is_a_read empty_cursor (fun _ _ => 0)
              (mix_cfg 0 0) 12345 (Timespec 1 0) s 2348 (w_glob s) WT_NOTFOUND
              1%nat H1 H2 H3 H4 H5) as [Hnf _].
  destruct (Hnf eq_refl) as (Ht & Hro & Hu & _ & s' & Hit & _ & He & Hs & _ & Huo & _ & _).
  split; [exact H1|]. split; [exact H2|]. split; [exact H3|].
  split; [exact H4|]. split; [exact H5|]. split; [exact Ht|].
  split; [exact Hro|]. split; [exact Hu|].
  exists s'. split; [exact Hit|]. split; [exact He|]. split; [exact Hs|]. exact Huo.
Defined.

(** ** Populate *)

Lemma inserted_keys_app (a b : list store_call) :
  inserted_keys (a ++ b) = inserted_keys a ++ inserted_keys b.
Proof. unfold inserted_keys. apply flat_map_app. Qed.

Lemma keys_from_step (key : Z) (n : nat) :
  [key + 1] ++ map (fun j => key + 1 + Z.of_nat j) (seq 1 n)
  = map (fun j => key + Z.of_nat j) (seq 1 (S n)).
Proof.
  cbn [seq map app]. f_equal; try lia.
  rewrite <- (seq_shift n 1), map_map. apply map_ext. intros j. lia.
Qed.

Section PopulateRun.
Context {St : Type} (cur : WT_CURSOR St) (cfg : CONFIG).
Hypothesis insert_ok : forall k v st, fst (cursor_insert cur k v st) = 0.
Hypothesis begin_ok : forall st, fst (session_begin_transaction cur st) = 0.
Hypothesis icount_fits : 0 <= icount cfg < 2 ^ 32.

Lemma populate_plain_run (n : nat) : forall (fuel : nat) (s : populate_state St),
  0 <= g_insert_key (p_glob s) ->
  Z.of_nat n = icount cfg - g_insert_key (p_glob s) ->
  0 <= ops (thread_insert (p_thread s)) ->
  ops (thread_insert (p_thread s)) + Z.of_nat n < 2 ^ 64 ->
  (n < fuel)%nat ->
  exists s', populate_plain fuel cur cfg s = Some (PopDone s') /\ populated cfg s s' n.
Proof.
  induction n as [|n IH]; intros fuel s Hk Hn Ho Hob Hf;
    (destruct fuel as [|fuel]; [lia|]); cbn [populate_plain get_next_incr].
  - rewrite wrap64_small by lia.
    destruct (Z.ltb_spec (icount cfg) (g_insert_key (p_glob s) + 1)); [|lia].
    eexists. split; [reflexivity|]. unfold populated. cbn.
    repeat split; try lia. now rewrite app_nil_r.
  - rewrite wrap64_small by lia.
    destruct (Z.ltb_spec (icount cfg) (g_insert_key (p_glob s) + 1)); [lia|].
    pose proof (insert_ok (g_insert_key (p_glob s) + 1)
                  (value_buf (p_thread s)) (p_store s)) as Hret.
    destruct (cursor_insert cur _ _ _) as [ret st1]. cbn in Hret. subst ret.
    cbn [Z.eqb negb].
    match goal with |- context [populate_plain fuel cur cfg ?s2] =>
      destruct (IH fuel s2) as (s' & Hrun & Hkey & He & Hs & Hops & Hkeys);
        cbn [p_glob p_thread p_calls g_insert_key g_error g_stop
             thread_insert_op thread_insert ops];
        try rewrite wrap64_small by lia; try lia;
        cbn [p_glob p_thread p_calls g_insert_key g_error g_stop
             thread_insert_op thread_insert ops] in *
    end.
    exists s'. split; [exact Hrun|]. unfold populated.
    split; [exact Hkey|]. split; [exact He|]. split; [exact Hs|].
    split.
    + rewrite Hops. rewrite wrap64_small by lia. lia.
    + rewrite Hkeys, inserted_keys_app, <- app_assoc. f_equal.
      apply keys_from_step.
Qed.

Lemma populate_txn_run (n : nat) : forall (fuel : nat) (s : populate_state St),
  0 <= g_insert_key (p_glob s) ->
  Z.of_nat n = icount cfg - g_insert_key (p_glob s) ->
  0 <= ops (thread_insert (p_thread s)) ->
  ops (thread_insert (p_thread s)) + Z.of_nat n < 2 ^ 64 ->
  (n < fuel)%nat ->
  exists s', populate_txn fuel cur cfg s = Some (PopDone s') /\ populated cfg s s' n.
Proof.
  induction n as [|n IH]; intros fuel s Hk Hn Ho Hob Hf;
    (destruct fuel as [|fuel]; [lia|]); cbn [populate_txn get_next_incr].
  - rewrite wrap64_small by lia.
    destruct (Z.ltb_spec (icount cfg) (g_insert_key (p_glob s) + 1)); [|lia].
    eexists. split; [reflexivity|]. unfold populated, populate_commit.
    destruct (p_intxn s); [destruct (session_commit_transaction cur _)|]; cbn;
      rewrite ?inserted_keys_app, ?app_nil_r; repeat split; lia.
  - rewrite wrap64_small by lia.
    destruct (Z.ltb_spec (icount cfg) (g_insert_key (p_glob s) + 1)); [lia|].
    assert (Hbegin : exists st0 calls0,
      (if p_intxn s then (0, p_store s, p_calls s)
       else let '(b, st) := session_begin_transaction cur (p_store s) in
            (b, st, p_calls s ++ [CallBegin])) = (0, st0, calls0) /\
      inserted_keys calls0 = inserted_keys (p_calls s)).
    { destruct (p_intxn s); [now eexists _, _|].
      pose proof (begin_ok (p_store s)) as Hb.
      destruct (session_begin_transaction cur (p_store s)) as [b st].
      cbn in Hb. subst b. eexists _, _. split; [reflexivity|].
      rewrite inserted_keys_app. cbn. now rewrite app_nil_r. }
    destruct Hbegin as (st0 & calls0 & -> & Hcalls0). cbn [Z.eqb negb].
    pose proof (insert_ok (g_insert_key (p_glob s) + 1)
                  (value_buf (p_thread s)) st0) as Hret.
    destruct (cursor_insert cur _ _ _) as [ret st1]. cbn in Hret. subst ret.
    cbn [Z.eqb negb p_opcount p_thread].
    assert (Hstep : forall s2 : populate_state St,
      g_insert_key (p_glob s2) = g_insert_key (p_glob s) + 1 ->
      g_error (p_glob s2) = g_error (p_glob s) ->
      g_stop (p_glob s2) = g_stop (p_glob s) ->
      ops (thread_insert (p_thread s2)) = ops (thread_insert (p_thread s)) + 1 ->
      inserted_keys (p_calls s2)
        = inserted_keys (p_calls s) ++ [g_insert_key (p_glob s) + 1] ->
      exists s', populate_txn fuel cur cfg s2 = Some (PopDone s') /\
                 populated cfg s s' (S n)).
    { intros s2 H2k H2e H2s H2o H2c.
      destruct (IH fuel s2) as (s' & Hrun & Hkey & He & Hs & Hops & Hkeys);
        try lia.
      exists s'. split; [exact Hrun|]. unfold populated.
      split; [exact Hkey|]. split; [congruence|]. split; [congruence|].
      split; [lia|].
      rewrite Hkeys, H2c, H2k, <- app_assoc. f_equal. apply keys_from_step. }
    destruct (_ <? populate_ops_per_txn cfg); apply Hstep;
      unfold populate_commit;
      try destruct (session_commit_transaction cur _);
      cbn [p_glob p_thread p_calls g_insert_key g_error g_stop
           thread_insert_op thread_insert ops];
      rewrite ?wrap64_small by lia; try reflexivity;
      rewrite ?inserted_keys_app, ?Hcalls0; cbn; now rewrite ?app_nil_r.
Qed.

(** Once a loop has ended, more fuel changes nothing. *)
Lemma populate_plain_fuel (fuel : nat) :
  forall (s : populate_state St) (r : populate_result St) (extra : nat),
  populate_plain fuel cur cfg s = Some r ->
  populate_plain (fuel + extra) cur cfg s = Some r.
Proof.
  induction fuel as [|fuel IH]; intros s r extra; [discriminate|].
  cbn [populate_plain Nat.add].
  destruct (get_next_incr (p_glob s)) as [op g].
  destruct (icount cfg <? op); [trivial|].
  destruct (cursor_insert cur _ _ _) as [ret st1].
  destruct (negb (ret =? 0)); [trivial|]. apply IH.
Qed.
End PopulateRun.

(** C8 (amended): with [icount] = 1000, one populate thread, the insert
    counter at 0 and no insert (and no transaction start) failing, the
    populate loop ends by its [break]; the keys inserted are 1, 2, ..., 1000,
    each once and in this order; the insert operations counted, summed over
    the populate threads, are 1000; and the insert counter ends at 1001,
    since the fetch-and-add that ends the loop has already moved it one past
    [icount]. *)
Theorem populate_thread_1000 {St : Type} (cur : WT_CURSOR St) (cfg : CONFIG)
    (th : CONFIG_THREAD) (st : St) (fuel : nat) :
  icount cfg = 1000 ->
  (forall k v s, fst (cursor_insert cur k v s) = 0) ->
  (forall s, fst (session_begin_transaction cur s) = 0) ->
  ops (thread_insert th) = 0 ->
  (1000 < fuel)%nat ->
  exists s,
    populate_thread fuel cur cfg th (Globals 0 0 0) st = Some (PopDone s) /\
    g_insert_key (p_glob s) = 1001 /\
    g_error (p_glob s) = 0 /\ g_stop (p_glob s) = 0 /\
    inserted_keys (p_calls s) = map Z.of_nat (seq 1 1000) /\
    sum_pop_ops [p_thread s] = 1000.
Proof.
  intros Hic Hins Hbeg Hops Hf. unfold populate_thread.
  assert (Hrun : exists s,
    (if populate_ops_per_txn cfg =? 0
     then populate_plain fuel cur cfg (Populate th (Globals 0 0 0) st [] false 0)
     else populate_txn fuel cur cfg (Populate th (Globals 0 0 0) st [] false 0))
    = Some (PopDone s) /\
    populated cfg (Populate th (Globals 0 0 0) st [] false 0) s 1000).
  { destruct (populate_ops_per_txn cfg =? 0);
      [apply populate_plain_run|apply populate_txn_run];
      cbn [p_glob p_thread g_insert_key]; rewrite ?Hic, ?Hops;
      first [assumption|lia]. }
  destruct Hrun as (s & -> & Hkey & He & Hs & Ho & Hkeys).
  cbn [p_glob p_thread p_calls g_insert_key g_error g_stop] in *.
  exists s. split; [reflexivity|]. split; [lia|]. split; [exact He|].
  split; [exact Hs|]. split.
  - rewrite Hkeys. cbn [inserted_keys flat_map app]. apply map_ext.
    intros j. lia.
  - cbn [sum_pop_ops fold_right]. rewrite Ho, Hops. reflexivity.
Qed.

Lemma populate_thread_1000_witness :
  icount populate_cfg = 1000 /\
  (forall k v s, fst (cursor_insert ok_cursor k v s) = 0) /\
  (forall s, fst (session_begin_transaction ok_cursor s) = 0) /\
  ops (thread_insert (thread_init populate_cfg)) = 0 /\
  (1000 < 1001)%nat /\
  exists s,
    populate_thread 1001 ok_cursor populate_cfg (thread_init populate_cfg)
      (Globals 0 0 0) O = Some (PopDone s) /\
    g_insert_key (p_glob s) = 1001 /\
    g_error (p_glob s) = 0 /\ g_stop (p_glob s) = 0 /\
    inserted_keys (p_calls s) = map Z.of_nat (seq 1 1000) /\
    sum_pop_ops [p_thread s] = 1000.
Proof.
  split; [reflexivity|]. split; [reflexivity|]. split; [reflexivity|].
  split; [reflexivity|]. split; [lia|].
  apply (populate_thread_1000 ok_cursor populate_cfg (thread_init populate_cfg)
           O 1001%nat); first [reflexivity|lia].
Defined.

(** C8 (as stated, refuted): in that same populate phase the loop never
    ends with the insert counter at 1000. *)
Lemma populate_thread_counter_not_1000 :
  ~ (exists (fuel : nat) (s : populate_state nat),
       populate_thread fuel ok_cursor populate_cfg (thread_init populate_cfg)
         (Globals 0 0 0) O = Some (PopDone s) /\
       g_insert_key (p_glob s) = 1000).
Proof.
  intros (fuel & s & Hrun & Hkey).
  change (populate_plain fuel ok_cursor populate_cfg
            (Populate (thread_init populate_cfg) (Globals 0 0 0) O [] false 0)
          = Some (PopDone s)) in Hrun.
  apply (populate_plain_fuel ok_cursor populate_cfg fuel _ _ 1001) in Hrun.
  assert (Hfits : 0 <= icount populate_cfg < 2 ^ 32) by (cbn; lia).
  destruct (populate_plain_run ok_cursor populate_cfg (fun _ _ _ => eq_refl)
              Hfits 1000 (fuel + 1001)
              (Populate (thread_init populate_cfg) (Globals 0 0 0) O [] false 0))
    as (s' & Hrun' & Hkey' & _); cbn; try lia.
  rewrite Hrun in Hrun'. injection Hrun' as <-.
  rewrite Hkey in Hkey'. discriminate Hkey'.
Qed.

(** * Further properties of the code *)

(** ** Schedule builder: the first operation kind *)

(** The placement loop on slots that are still all read, started on a
    multiple of the jump: the scan never moves, the pointer advances by one
    jump per operation and the byte past the array is not touched. *)
Lemma mix_place_spread (fuel : nat) (op : Z) (jump : nat) :
  (1 <= fuel)%nat -> wrap8 op = op -> (1 <= jump)%nat ->
  forall (n k : nat) (m : mix_mem),
  ((k + n) * jump <= SCHEDULE_SLOTS)%nat ->
  length (mix_ops m) = SCHEDULE_SLOTS ->
  (forall j, (j < SCHEDULE_SLOTS)%nat -> (forall i, (i < k)%nat -> j <> (i * jump)%nat) ->
     mix_ops m !! j = Some WORKER_READ) ->
  exists m',
    mix_place fuel op jump n m (k * jump) = Some (m', ((k + n) * jump)%nat) /\
    length (mix_ops m') = SCHEDULE_SLOTS /\
    mix_beyond m' = mix_beyond m /\ mix_oob m' = mix_oob m /\
    (forall i, (k <= i < k + n)%nat -> mix_ops m' !! (i * jump)%nat = Some op) /\
    (forall j, (forall i, (k <= i < k + n)%nat -> j <> (i * jump)%nat) ->
       mix_ops m' !! j = mix_ops m !! j) /\
    (forall t,
       (count_tag t (mix_ops m') + (if Z.eqb WORKER_READ t then n else 0)
        = count_tag t (mix_ops m) + (if Z.eqb op t then n else 0))%nat).
Proof.
  intros Hf Hop Hj. induction n as [|n IH]; intros k m Hfit Hlen Hread.
  - exists m. cbn [mix_place]. rewrite Nat.add_0_r.
    split; [reflexivity|]. split; [exact Hlen|]. split; [reflexivity|].
    split; [reflexivity|]. split; [intros i Hi; lia|].
    split; [reflexivity|]. intros t. now destruct (_ =? t), (op =? t).
  - assert (Hp : (k * jump < SCHEDULE_SLOTS)%nat) by nia.
    assert (Hslot : mix_ops m !! (k * jump)%nat = Some WORKER_READ).
    { apply Hread; [assumption|]. intros i Hi. nia. }
    assert (Hscan : mix_scan fuel m (k * jump) = Some (m, (k * jump)%nat)).
    { destruct fuel as [|fuel]; [lia|]. cbn [mix_scan].
      rewrite (mix_load_lookup m _ _ Hslot Hp), Z.eqb_refl.
      now rewrite mix_touch_inside. }
    cbn [mix_place]. rewrite Hscan, mix_store_inside by assumption.
    assert (Hjump : mix_jump jump (k * jump) = (S k * jump)%nat).
    { unfold mix_jump. destruct (Nat.ltb_spec (SCHEDULE_SLOTS - jump) (k * jump)); nia. }
    rewrite Hjump.
    destruct (IH (S k) (MixMem (<[(k * jump)%nat := op]> (mix_ops m))
                               (mix_beyond m) (mix_oob m)))
      as (m' & Hpl & Hlen' & Hb' & Ho' & Hops' & Hrest' & Hcnt').
    + lia.
    + cbn [mix_ops]. now rewrite length_insert.
    + intros j Hj100 Hnot. cbn [mix_ops].
      rewrite list_lookup_insert_ne by (apply not_eq_sym, Hnot; lia).
      apply Hread; [assumption|]. intros i Hi. apply Hnot. lia.
    + exists m'. replace (k + S n)%nat with (S k + n)%nat by lia.
      split; [exact Hpl|]. split; [exact Hlen'|].
      split; [exact Hb'|]. split; [exact Ho'|]. split.
      * intros i Hi. destruct (Nat.eq_dec i k) as [->|Hne].
        -- rewrite Hrest'.
           ++ cbn [mix_ops]. apply list_lookup_insert_eq. now rewrite Hlen.
           ++ intros i Hi'. nia.
        -- apply Hops'. lia.
      * split.
        -- intros j Hnot. rewrite Hrest'.
           ++ cbn [mix_ops]. apply list_lookup_insert_ne, not_eq_sym, Hnot. lia.
           ++ intros i Hi. apply Hnot. lia.
        -- intros t. specialize (Hcnt' t). cbn [mix_ops] in Hcnt'.
           pose proof (count_tag_insert t WORKER_READ op (mix_ops m)
                         (k * jump)%nat Hslot) as Hins.
           destruct (Z.eqb WORKER_READ t), (Z.eqb op t); lia.
Qed.

Lemma mix_jump_of_count (op_cnt : Z) :
  1 <= op_cnt <= 100 ->
  (1 <= Z.to_nat (100 / op_cnt))%nat /\
  (Z.to_nat op_cnt * Z.to_nat (100 / op_cnt) <= SCHEDULE_SLOTS)%nat.
Proof.
  intros H.
  assert (1 <= 100 / op_cnt) by (apply Z.div_le_lower_bound; lia).
  assert (op_cnt * (100 / op_cnt) <= 100) by (apply Z.mul_div_le; lia).
  unfold SCHEDULE_SLOTS. split; [lia|]. nia.
Qed.

(** X1: the first operation kind placed on the all-read schedule is spread
    without any scanning: for 1 <= op_cnt <= 100 the call returns, it puts
    [op] exactly in the slots 0, jump, 2 jump, ..., (op_cnt - 1) jump with
    jump = 100 / op_cnt, leaves the read tag everywhere else, and neither
    reads nor writes the byte past the array. *)
Theorem run_mix_schedule_op_spread (fuel : nat) (op op_cnt : Z) (m : mix_mem) :
  (1 <= fuel)%nat -> wrap8 op = op -> 1 <= op_cnt <= 100 ->
  exists m',
    run_mix_schedule_op fuel op op_cnt (mix_memset m) = Some m' /\
    length (mix_ops m') = SCHEDULE_SLOTS /\
    mix_beyond m' = mix_beyond m /\ mix_oob m' = mix_oob m /\
    (forall i, (i < Z.to_nat op_cnt)%nat ->
       mix_ops m' !! (i * Z.to_nat (100 / op_cnt))%nat = Some op) /\
    (forall j, (j < SCHEDULE_SLOTS)%nat ->
       (forall i, (i < Z.to_nat op_cnt)%nat -> j <> (i * Z.to_nat (100 / op_cnt))%nat) ->
       mix_ops m' !! j = Some WORKER_READ).
Proof.
  intros Hf Hop Hcnt. destruct (mix_jump_of_count op_cnt Hcnt) as [Hj Hfit].
  unfold run_mix_schedule_op. destruct (Z.eqb_spec op_cnt 0); [lia|].
  destruct (mix_place_spread fuel op (Z.to_nat (100 / op_cnt)) Hf Hop Hj
              (Z.to_nat op_cnt) O (mix_memset m))
    as (m' & Hpl & Hlen & Hb & Ho & Hops & Hrest & _).
  - exact Hfit.
  - apply length_replicate.
  - intros j Hj100 _. cbn [mix_memset mix_ops]. now apply lookup_replicate_2.
  - cbn [Nat.mul] in Hpl. rewrite Hpl. exists m'.
    split; [reflexivity|]. split; [exact Hlen|]. split; [exact Hb|].
    split; [exact Ho|]. split.
    + intros i Hi. apply Hops. lia.
    + intros j Hj100 Hnot. rewrite Hrest.
      * cbn [mix_memset mix_ops]. now apply lookup_replicate_2.
      * intros i Hi. apply Hnot. lia.
Qed.

Lemma run_mix_schedule_op_spread_witness :
  (1 <= MIX_FUEL)%nat /\ wrap8 WORKER_INSERT = WORKER_INSERT /\ 1 <= 20 <= 100 /\
  exists m',
    run_mix_schedule_op MIX_FUEL WORKER_INSERT 20 (mix_memset (mix_mem_init 1))
      = Some m' /\
    length (mix_ops m') = SCHEDULE_SLOTS /\
    mix_beyond m' = 1 /\ mix_oob m' = false /\
    (forall i, (i < Z.to_nat 20)%nat ->
       mix_ops m' !! (i * Z.to_nat (100 / 20))%nat = Some WORKER_INSERT) /\
    (forall j, (j < SCHEDULE_SLOTS)%nat ->
       (forall i, (i < Z.to_nat 20)%nat -> j <> (i * Z.to_nat (100 / 20))%nat) ->
       mix_ops m' !! j = Some WORKER_READ).
Proof.
  split; [unfold MIX_FUEL; lia|]. split; [reflexivity|]. split; [lia|].
  apply (run_mix_schedule_op_spread MIX_FUEL WORKER_INSERT 20 (mix_mem_init 1));
    [unfold MIX_FUEL; lia|reflexivity|lia].
Defined.

(** One call on the all-read schedule, counted: [op_cnt] slots hold [op]
    and the other [100 - op_cnt] the read tag. *)
Lemma run_mix_schedule_op_first_counts (fuel : nat) (op op_cnt : Z) (m : mix_mem) :
  (1 <= fuel)%nat -> wrap8 op = op -> op <> WORKER_READ -> 1 <= op_cnt <= 100 ->
  exists m',
    run_mix_schedule_op fuel op op_cnt (mix_memset m) = Some m' /\
    mix_beyond m' = mix_beyond m /\ mix_oob m' = mix_oob m /\
    Z.of_nat (count_tag op (mix_ops m')) = op_cnt /\
    Z.of_nat (count_tag WORKER_READ (mix_ops m')) = 100 - op_cnt /\
    (forall t, t <> op -> t <> WORKER_READ -> count_tag t (mix_ops m') = O).
Proof.
  intros Hf Hop Hne Hcnt. destruct (mix_jump_of_count op_cnt Hcnt) as [Hj Hfit].
  unfold run_mix_schedule_op. destruct (Z.eqb_spec op_cnt 0); [lia|].
  destruct (mix_place_spread fuel op (Z.to_nat (100 / op_cnt)) Hf Hop Hj
              (Z.to_nat op_cnt) O (mix_memset m))
    as (m' & Hpl & _ & Hb & Ho & _ & _ & Hc).
  - exact Hfit.
  - apply length_replicate.
  - intros j Hj100 _. cbn [mix_memset mix_ops]. now apply lookup_replicate_2.
  - cbn [Nat.mul] in Hpl. rewrite Hpl. exists m'.
    split; [reflexivity|]. split; [exact Hb|]. split; [exact Ho|].
    assert (Hc0 : forall t, count_tag t (mix_ops (mix_memset m))
                            = if WORKER_READ =? t then 100%nat else O)
      by (intros t; cbn [mix_memset mix_ops]; apply count_tag_replicate).
    split; [|split].
    + specialize (Hc op). rewrite Hc0, Z.eqb_refl in Hc.
      destruct (Z.eqb_spec WORKER_READ op); [congruence|]. lia.
    + specialize (Hc WORKER_READ). rewrite Hc0, Z.eqb_refl in Hc.
      destruct (Z.eqb_spec op WORKER_READ); [congruence|]. lia.
    + intros t Ht1 Ht2. specialize (Hc t). rewrite Hc0 in Hc.
      destruct (Z.eqb_spec WORKER_READ t); [congruence|].
      destruct (Z.eqb_spec op t); [congruence|]. lia.
Qed.

(** X2: a mix with one operation kind only (inserts without updates, or
    updates without inserts) is scheduled exactly, whatever byte follows the
    array: the schedule holds as many tags of that kind as requested and the
    read tag in all other slots, and the byte past the array is neither read
    nor written. *)
Theorem run_mix_schedule_single_kind (fuel : nat) (cfg : CONFIG) (m : mix_mem) :
  (1 <= fuel)%nat ->
  0 <= run_mix_inserts cfg <= 100 -> 0 <= run_mix_updates cfg <= 100 ->
  run_mix_inserts cfg = 0 \/ run_mix_updates cfg = 0 ->
  exists m',
    run_mix_schedule fuel cfg m = Some m' /\
    mix_beyond m' = mix_beyond m /\ mix_oob m' = mix_oob m /\
    Z.of_nat (count_tag (if insert_rmw cfg then WORKER_INSERT_RMW else WORKER_INSERT)
                (mix_ops m')) = run_mix_inserts cfg /\
    Z.of_nat (count_tag WORKER_UPDATE (mix_ops m')) = run_mix_updates cfg /\
    Z.of_nat (count_tag WORKER_READ (mix_ops m'))
      = 100 - run_mix_inserts cfg - run_mix_updates cfg.
Proof.
  intros Hf Hi Hu Hone. unfold run_mix_schedule.
  set (ins := if insert_rmw cfg then WORKER_INSERT_RMW else WORKER_INSERT).
  assert (Hins : wrap8 ins = ins /\ ins <> WORKER_READ /\ ins <> WORKER_UPDATE)
    by (unfold ins; destruct (insert_rmw cfg); now vm_compute).
  destruct Hins as (Hi8 & HiR & HiU).
  assert (Hc0 : forall t, count_tag t (mix_ops (mix_memset m))
                          = if WORKER_READ =? t then 100%nat else O)
    by (intros t; cbn [mix_memset mix_ops]; apply count_tag_replicate).
  destruct (Z.eqb_spec (run_mix_inserts cfg) 0) as [Ei|Ei];
    destruct (Z.eqb_spec (run_mix_updates cfg) 0) as [Eu|Eu]; try lia.
  - exists (mix_memset m). rewrite !Hc0, Ei, Eu.
    destruct (Z.eqb_spec WORKER_READ ins); [congruence|].
    repeat split.
  - destruct (run_mix_schedule_op_first_counts fuel WORKER_UPDATE
                (run_mix_updates cfg) m Hf eq_refl)
      as (m' & Hr & Hb & Ho & Hcu & Hcr & Hct); [discriminate|lia|].
    rewrite Hr. exists m'.
    rewrite (Hct ins) by first [exact HiU|exact HiR]. rewrite Hcu, Hcr, Ei.
    repeat split; first [assumption|lia].
  - destruct (run_mix_schedule_op_first_counts fuel ins
                (run_mix_inserts cfg) m Hf Hi8 HiR)
      as (m' & Hr & Hb & Ho & Hci & Hcr & Hct); [lia|].
    rewrite Hr. exists m'.
    rewrite (Hct WORKER_UPDATE) by first [exact (not_eq_sym HiU)|discriminate].
    rewrite Hci, Hcr, Eu. repeat split; first [assumption|lia].
Qed.

Lemma run_mix_schedule_single_kind_witness :
  (1 <= MIX_FUEL)%nat /\
  0 <= run_mix_inserts (mix_cfg 60 0) <= 100 /\
  0 <= run_mix_updates (mix_cfg 60 0) <= 100 /\
  (run_mix_inserts (mix_cfg 60 0) = 0 \/ run_mix_updates (mix_cfg 60 0) = 0) /\
  exists m',
    run_mix_schedule MIX_FUEL (mix_cfg 60 0) (mix_mem_init WORKER_READ) = Some m' /\
    mix_beyond m' = WORKER_READ /\ mix_oob m' = false /\
    Z.of_nat (count_tag WORKER_INSERT (mix_ops m')) = 60 /\
    Z.of_nat (count_tag WORKER_UPDATE (mix_ops m')) = 0 /\
    Z.of_nat (count_tag WORKER_READ (mix_ops m')) = 100 - 60 - 0.
Proof.
  split; [unfold MIX_FUEL; lia|]. split; [cbn; lia|]. split; [cbn; lia|].
  split; [right; reflexivity|].
  apply (run_mix_schedule_single_kind MIX_FUEL (mix_cfg 60 0)
           (mix_mem_init WORKER_READ));
    [unfold MIX_FUEL; lia|cbn; lia|cbn; lia|right; reflexivity].
Defined.

(** ** Schedule builder: asking for more than the read slots left *)

Lemma mix_scan_more_fuel (fuel : nat) :
  forall (m : mix_mem) (p : nat) (r : mix_mem * nat) (extra : nat),
  mix_scan fuel m p = Some r -> mix_scan (fuel + extra) m p = Some r.
Proof.
  induction fuel as [|fuel IH]; intros m p r extra; [discriminate|].
  cbn [mix_scan Nat.add]. destruct (mix_load m p =? WORKER_READ); [trivial|].
  apply IH.
Qed.

Lemma mix_place_more_fuel (fuel : nat) (op : Z) (jump : nat) (extra : nat) (n : nat) :
  forall (m : mix_mem) (p : nat) (r : mix_mem * nat),
  mix_place fuel op jump n m p = Some r ->
  mix_place (fuel + extra) op jump n m p = Some r.
Proof.
  induction n as [|n IH]; intros m p r; cbn [mix_place]; [trivial|].
  destruct (mix_scan fuel m p) as [[m1 q]|] eqn:Hscan; [|discriminate].
  rewrite (mix_scan_more_fuel fuel m p _ extra Hscan). apply IH.
Qed.

Lemma mix_place_app (fuel : nat) (op : Z) (jump : nat) (a b : nat) :
  forall (m : mix_mem) (p : nat),
  mix_place fuel op jump (a + b) m p =
    match mix_place fuel op jump a m p with
    | Some (m1, p1) => mix_place fuel op jump b m1 p1
    | None => None
    end.
Proof.
  induction a as [|a IH]; intros m p; cbn [mix_place Nat.add]; [reflexivity|].
  destruct (mix_scan fuel m p) as [[m1 q]|]; [apply IH|reflexivity].
Qed.

Lemma mix_scan_position (fuel : nat) :
  forall (m m' : mix_mem) (p q : nat),
  mix_scan fuel m p = Some (m', q) -> (p <= SCHEDULE_SLOTS)%nat ->
  (q <= SCHEDULE_SLOTS)%nat.
Proof.
  induction fuel as [|fuel IH]; intros m m' p q; [discriminate|].
  cbn [mix_scan]. destruct (mix_load m p =? WORKER_READ).
  - intros [= _ <-]. trivial.
  - intros Hscan Hp. apply (IH _ _ _ _ Hscan).
    destruct (Nat.eqb_spec p SCHEDULE_SLOTS); unfold SCHEDULE_SLOTS in *; lia.
Qed.

Lemma mix_place_position (fuel : nat) (op : Z) (jump : nat) (n : nat) :
  (jump <= SCHEDULE_SLOTS)%nat ->
  forall (m m' : mix_mem) (p p' : nat),
  mix_place fuel op jump n m p = Some (m', p') -> (p <= SCHEDULE_SLOTS)%nat ->
  (p' <= SCHEDULE_SLOTS)%nat.
Proof.
  intros Hj. induction n as [|n IH]; intros m m' p p'; cbn [mix_place].
  - intros [= _ <-]. trivial.
  - destruct (mix_scan fuel m p) as [[m1 q]|]; [|discriminate].
    intros Hpl _. apply (IH _ _ _ _ Hpl). now apply mix_jump_le.
Qed.

Lemma count_tag_none (t : Z) (l : list Z) (i : nat) :
  count_tag t l = O -> l !! i <> Some t.
Proof.
  revert i. induction l as [|a l IH]; intros i; cbn [count_tag]; [easy|].
  destruct (Z.eqb_spec a t); [lia|]. intros Hc.
  destruct i as [|i]; cbn; [congruence|]. apply IH. lia.
Qed.

Lemma mix_load_not_read (m : mix_mem) (k : nat) :
  length (mix_ops m) = SCHEDULE_SLOTS ->
  count_tag WORKER_READ (mix_ops m) = O -> (k < SCHEDULE_SLOTS)%nat ->
  mix_load m k <> WORKER_READ.
Proof.
  intros Hlen Hc Hk Hload.
  apply (count_tag_none WORKER_READ (mix_ops m) k Hc).
  rewrite <- Hload. now apply mix_load_inv.
Qed.

(** X3: [run_mix_schedule_op] never returns when it is asked for more
    operations than the schedule has read slots left and the byte past the
    array is not the read tag: once the read slots are used up the scan
    circles through the array for ever. *)
Theorem run_mix_schedule_op_never_returns (op op_cnt : Z) (m : mix_mem) :
  wrap8 op = op -> op <> WORKER_READ ->
  length (mix_ops m) = SCHEDULE_SLOTS ->
  mix_beyond m <> WORKER_READ ->
  1 <= op_cnt ->
  Z.of_nat (count_tag WORKER_READ (mix_ops m)) < op_cnt ->
  forall fuel, run_mix_schedule_op fuel op op_cnt m = None.
Proof.
  intros Hop Hne Hlen Hb Hcnt Hfew fuel.
  unfold run_mix_schedule_op. destruct (Z.eqb_spec op_cnt 0); [lia|].
  set (jump := Z.to_nat (100 / op_cnt)).
  assert (Hj : (jump <= SCHEDULE_SLOTS)%nat).
  { assert (100 / op_cnt <= 100) by (apply Z.div_le_upper_bound; lia).
    unfold jump, SCHEDULE_SLOTS. lia. }
  set (r := count_tag WORKER_READ (mix_ops m)) in *.
  destruct (mix_place fuel op jump (Z.to_nat op_cnt) m O) as [[m' p']|] eqn:Hrun;
    [exfalso|reflexivity].
  apply (mix_place_more_fuel fuel op jump MIX_FUEL) in Hrun.
  replace (Z.to_nat op_cnt) with (r + S (Z.to_nat op_cnt - r - 1))%nat in Hrun by lia.
  rewrite mix_place_app in Hrun.
  destruct (mix_place_counts (fuel + MIX_FUEL) op jump r ltac:(lia) Hop Hne Hj
              m O Hlen Hb ltac:(lia) ltac:(now left) ltac:(unfold r; lia))
    as (m1 & p1 & Hpl & Hlen1 & Hb1 & Hr1 & _).
  rewrite Hpl in Hrun. cbn [mix_place] in Hrun.
  assert (Hp1 : (p1 <= SCHEDULE_SLOTS)%nat)
    by (apply (mix_place_position _ _ _ _ Hj _ _ _ _ Hpl); lia).
  assert (Hnone : count_tag WORKER_READ (mix_ops m1) = O) by (fold r in Hr1; lia).
  rewrite mix_scan_diverges in Hrun; [discriminate|assumption| | |congruence].
  - intros k Hk. apply mix_load_not_read; [assumption|assumption|lia].
  - intros k Hk. apply mix_load_not_read; [assumption|assumption|lia].
Qed.

Lemma run_mix_schedule_op_never_returns_witness :
  wrap8 WORKER_UPDATE = WORKER_UPDATE /\ WORKER_UPDATE <> WORKER_READ /\
  length (mix_ops (MixMem (replicate SCHEDULE_SLOTS WORKER_INSERT) 0 false))
    = SCHEDULE_SLOTS /\
  mix_beyond (MixMem (replicate SCHEDULE_SLOTS WORKER_INSERT) 0 false) <> WORKER_READ /\
  1 <= 1 /\
  Z.of_nat (count_tag WORKER_READ
              (mix_ops (MixMem (replicate SCHEDULE_SLOTS WORKER_INSERT) 0 false))) < 1 /\
  forall fuel,
    run_mix_schedule_op fuel WORKER_UPDATE 1
      (MixMem (replicate SCHEDULE_SLOTS WORKER_INSERT) 0 false) = None.
Proof.
  split; [reflexivity|]. split; [discriminate|]. split; [reflexivity|].
  split; [discriminate|]. split; [lia|]. split; [cbn; lia|].
  apply (run_mix_schedule_op_never_returns WORKER_UPDATE 1
           (MixMem (replicate SCHEDULE_SLOTS WORKER_INSERT) 0 false));
    first [reflexivity|discriminate|lia|cbn; lia].
Defined.

(** ** Latency aggregator: what a sample does to a track *)

(** X4: the first sample folded into a track as [start_threads] sets it up
    (minimum [UINT32_MAX], maximum 0) leaves both extremes equal to the
    average of that sample, as long as the average fits in 32 bits. *)
Theorem track_first_sample_sets_extremes (trk : TRACK) (nsecs n : Z) :
  min_latency trk = UINT32_MAX -> max_latency trk = 0 ->
  aggregated trk <> 0 -> 0 < n -> 0 <= nsecs -> nsecs / n < 2 ^ 32 ->
  exists trk',
    track_aggregated_update trk nsecs n = Some trk' /\
    min_latency trk' = nsecs / n /\ max_latency trk' = nsecs / n.
Proof.
  intros Hmin Hmax Hagg Hn Hns Hfit. unfold track_aggregated_update.
  destruct (Z.eqb_spec (aggregated trk) 0); [contradiction|].
  destruct (Z.eqb_spec n 0); [lia|].
  set (v := nsecs / n) in *.
  assert (Hv : 0 <= v) by (apply Z.div_pos; lia).
  rewrite Hmin, Hmax. unfold UINT32_MAX in *.
  assert (Hmn : (if v <? 2 ^ 32 - 1 then wrap32 v else 2 ^ 32 - 1) = v)
    by (destruct (Z.ltb_spec v (2 ^ 32 - 1)); [apply wrap32_small|]; lia).
  assert (Hmx : (if 0 <? v then wrap32 v else 0) = v)
    by (destruct (Z.ltb_spec 0 v); [apply wrap32_small|]; lia).
  rewrite Hmn, Hmx. eexists. split; [reflexivity|].
  repeat match goal with |- context [if ?c then _ else _] => destruct c end;
    split; reflexivity.
Qed.

Lemma track_first_sample_sets_extremes_witness :
  min_latency (track_count TRACK_init) = UINT32_MAX /\
  max_latency (track_count TRACK_init) = 0 /\
  aggregated (track_count TRACK_init) <> 0 /\ 0 < 1 /\ 0 <= 2500 /\
  2500 / 1 < 2 ^ 32 /\
  exists trk',
    track_aggregated_update (track_count TRACK_init) 2500 1 = Some trk' /\
    min_latency trk' = 2500 / 1 /\ max_latency trk' = 2500 / 1.
Proof.
  split; [reflexivity|]. split; [reflexivity|]. split; [discriminate|].
  split; [lia|]. split; [lia|]. split; [reflexivity|].
  apply (track_first_sample_sets_extremes (track_count TRACK_init) 2500 1);
    first [reflexivity|discriminate|lia].
Defined.

Lemma sample_slot_mono (trk : TRACK) (v1 v2 : Z) :
  TRACK_sized trk -> 0 <= v1 <= v2 ->
  (sample_slot trk v1 <= sample_slot trk v2)%nat.
Proof.
  intros (Hus & Hms & Hsec) Hv. unfold sample_slot.
  change (us_to_ns 1000) with 1000000.
  change (ms_to_ns 1000) with 1000000000.
  change (sec_to_ns 100) with 100000000000.
  unfold ns_to_us, ns_to_ms, ns_to_sec, THOUSAND, MILLION, BILLION.
  rewrite Hus, Hms, Hsec.
  pose proof (Z.div_le_mono v1 v2 1000 ltac:(lia) ltac:(lia)) as M1.
  pose proof (Z.div_le_mono v1 v2 1000000 ltac:(lia) ltac:(lia)) as M2.
  pose proof (Z.div_le_mono v1 v2 1000000000 ltac:(lia) ltac:(lia)) as M3.
  pose proof (Z.div_pos v1 1000 ltac:(lia) ltac:(lia)) as P1.
  pose proof (Z.div_pos v1 1000000 ltac:(lia) ltac:(lia)) as P2.
  pose proof (Z.div_pos v1 1000000000 ltac:(lia) ltac:(lia)) as P3.
  assert (B1 : v1 < 1000000 -> v1 / 1000 < 1000)
    by (intros; apply Z.div_lt_upper_bound; lia).
  assert (B2 : v1 < 1000000000 -> v1 / 1000000 < 1000)
    by (intros; apply Z.div_lt_upper_bound; lia).
  assert (B3 : v1 < 100000000000 -> v1 / 1000000000 < 100)
    by (intros; apply Z.div_lt_upper_bound; lia).
  set (a1 := v1 / 1000) in *. set (a2 := v1 / 1000000) in *.
  set (a3 := v1 / 1000000000) in *. set (b1 := v2 / 1000) in *.
  set (b2 := v2 / 1000000) in *. set (b3 := v2 / 1000000000) in *.
  destruct (Z.ltb_spec v1 1000000); destruct (Z.ltb_spec v2 1000000);
    destruct (Z.ltb_spec v1 1000000000); destruct (Z.ltb_spec v2 1000000000);
    destruct (Z.ltb_spec v1 100000000000);
    destruct (Z.ltb_spec v2 100000000000); lia.
Qed.

Lemma track_aggregated_update_slot (trk : TRACK) (nsecs n : Z) :
  TRACK_sized trk -> aggregated trk <> 0 -> 0 < n -> 0 <= nsecs ->
  exists trk',
    track_aggregated_update trk nsecs n = Some trk' /\
    buckets trk'
      = bucket_add (buckets trk) (sample_slot trk (nsecs / n)) (aggregated trk) /\
    (sample_slot trk (nsecs / n) < length (buckets trk))%nat.
Proof.
  intros (Hus & Hms & Hsec) Hagg Hn Hns.
  unfold track_aggregated_update, sample_slot.
  destruct (Z.eqb_spec (aggregated trk) 0); [contradiction|].
  destruct (Z.eqb_spec n 0); [lia|].
  set (v := nsecs / n).
  assert (Hv : 0 <= v) by (apply Z.div_pos; lia).
  change (us_to_ns 1000) with 1000000.
  change (ms_to_ns 1000) with 1000000000.
  change (sec_to_ns 100) with 100000000000.
  unfold buckets, ns_to_us, ns_to_ms, ns_to_sec, THOUSAND, MILLION, BILLION.
  pose proof (Z.div_pos v 1000 ltac:(lia) ltac:(lia)) as P1.
  pose proof (Z.div_pos v 1000000 ltac:(lia) ltac:(lia)) as P2.
  pose proof (Z.div_pos v 1000000000 ltac:(lia) ltac:(lia)) as P3.
  assert (B1 : v < 1000000 -> v / 1000 < 1000)
    by (intros; apply Z.div_lt_upper_bound; lia).
  assert (B2 : v < 1000000000 -> v / 1000000 < 1000)
    by (intros; apply Z.div_lt_upper_bound; lia).
  assert (B3 : v < 100000000000 -> v / 1000000000 < 100)
    by (intros; apply Z.div_lt_upper_bound; lia).
  set (a1 := v / 1000) in *. set (a2 := v / 1000000) in *.
  set (a3 := v / 1000000000) in *.
  destruct (Z.ltb_spec v 1000000) as [H1|H1];
    [|destruct (Z.ltb_spec v 1000000000) as [H2|H2];
      [|destruct (Z.ltb_spec v 100000000000) as [H3|H3]]];
    eexists; (split; [reflexivity|]); cbn [us ms sec];
    (split; [|rewrite !length_app; lia]).
  - now rewrite bucket_add_app_l by lia.
  - now rewrite bucket_add_app_r, bucket_add_app_l by lia.
  - now rewrite <- Nat.add_assoc, !bucket_add_app_r.
  - now rewrite <- Nat.add_assoc, !bucket_add_app_r.
Qed.

(** X5: the histogram of a track is ordered, and no sample falls outside
    it.  Whatever the latency, the pending operations of a sample are added
    to one counter inside the three bucket arrays, an average of 100 s or
    more to the last one; and of two samples, the one with the larger
    average goes to the same counter or to a later one. *)
Theorem track_histogram_is_ordered (trk : TRACK) (nsecs1 nsecs2 n : Z) :
  TRACK_sized trk -> aggregated trk <> 0 -> 0 < n ->
  0 <= nsecs1 -> nsecs1 / n <= nsecs2 / n ->
  exists trk1 trk2,
    track_aggregated_update trk nsecs1 n = Some trk1 /\
    track_aggregated_update trk nsecs2 n = Some trk2 /\
    buckets trk1
      = bucket_add (buckets trk) (sample_slot trk (nsecs1 / n)) (aggregated trk) /\
    buckets trk2
      = bucket_add (buckets trk) (sample_slot trk (nsecs2 / n)) (aggregated trk) /\
    (sample_slot trk (nsecs1 / n) <= sample_slot trk (nsecs2 / n)
     < length (buckets trk))%nat.
Proof.
  intros Hsz Hagg Hn Hns Hle.
  assert (Hv1 : 0 <= nsecs1 / n) by (apply Z.div_pos; lia).
  assert (Hns2 : 0 <= nsecs2).
  { destruct (Z.le_gt_cases 0 nsecs2) as [|Hneg]; [assumption|].
    assert (nsecs2 / n < 0) by (apply Z.div_lt_upper_bound; lia). lia. }
  destruct (track_aggregated_update_slot trk nsecs1 n Hsz Hagg Hn Hns)
    as (trk1 & Hu1 & Hb1 & _).
  destruct (track_aggregated_update_slot trk nsecs2 n Hsz Hagg Hn Hns2)
    as (trk2 & Hu2 & Hb2 & Hin2).
  exists trk1, trk2. repeat split; try assumption.
  apply sample_slot_mono; [assumption|lia].
Qed.

Lemma track_histogram_is_ordered_witness :
  exists trk1 trk2,
    track_aggregated_update (track_count TRACK_init) 2500 1 = Some trk1 /\
    track_aggregated_update (track_count TRACK_init) 250000000000 1
      = Some trk2 /\
    buckets trk1
      = bucket_add (buckets (track_count TRACK_init))
          (sample_slot (track_count TRACK_init) (2500 / 1))
          (aggregated (track_count TRACK_init)) /\
    buckets trk2
      = bucket_add (buckets (track_count TRACK_init))
          (sample_slot (track_count TRACK_init) (250000000000 / 1))
          (aggregated (track_count TRACK_init)) /\
    (sample_slot (track_count TRACK_init) (2500 / 1)
     <= sample_slot (track_count TRACK_init) (250000000000 / 1)
     < length (buckets (track_count TRACK_init)))%nat.
Proof.
  apply (track_histogram_is_ordered (track_count TRACK_init) 2500
           250000000000 1);
    first [now repeat split|discriminate|lia|now vm_compute].
Defined.

Lemma bucket_total_app (a b : list Z) :
  bucket_total (a ++ b) = bucket_total a + bucket_total b.
Proof.
  unfold bucket_total. induction a as [|x a IH]; cbn [app fold_right]; lia.
Qed.

Lemma bucket_total_insert (a : list Z) (i : nat) (x y : Z) :
  a !! i = Some x -> bucket_total (<[i := y]> a) = bucket_total a - x + y.
Proof.
  intros Hi.
  assert (Hlt : (i < length a)%nat) by (eapply lookup_lt_Some; eassumption).
  rewrite (insert_take_drop a i y Hlt).
  rewrite <- (take_drop_middle a i x Hi) at 3.
  rewrite !bucket_total_app.
  change (bucket_total (y :: drop (S i) a)) with (y + bucket_total (drop (S i) a)).
  change (bucket_total (x :: drop (S i) a)) with (x + bucket_total (drop (S i) a)).
  lia.
Qed.

Lemma bucket_total_bound (a : list Z) (i : nat) (x : Z) :
  Forall (fun z => 0 <= z) a -> a !! i = Some x -> 0 <= x <= bucket_total a.
Proof.
  unfold bucket_total. intros Hall. revert i.
  induction Hall as [|z a Hz Hall IH]; intros i Hi; [discriminate|].
  assert (0 <= fold_right Z.add 0 a).
  { clear -Hall. induction Hall; cbn; lia. }
  destruct i as [|i]; cbn in *.
  - injection Hi as ->. lia.
  - specialize (IH i Hi). lia.
Qed.

(** A bucket that takes [n] more operations without overflowing. *)
Lemma bucket_add_total (a : list Z) (i : nat) (n : Z) :
  Forall (fun z => 0 <= z) a -> (i < length a)%nat ->
  0 <= n -> bucket_total a + n < 2 ^ 32 ->
  bucket_total (bucket_add a i n) = bucket_total a + n /\
  Forall (fun z => 0 <= z) (bucket_add a i n).
Proof.
  intros Hall Hi Hn Hb.
  destruct (lookup_lt_is_Some_2 a i Hi) as [x Hx].
  pose proof (bucket_total_bound a i x Hall Hx) as Hxb.
  unfold bucket_add. rewrite Hx. cbn [default from_option id].
  rewrite wrap32_small by lia. split.
  - rewrite (bucket_total_insert a i x _ Hx). lia.
  - apply Forall_insert; [assumption|lia].
Qed.

(** A sample keeps the books of a track: if every operation counted so far
    is either pending or in a bucket, and fewer than 2^32 operations have
    been counted, then after [track_aggregated_update] the pending
    operations have all moved into the histogram, whose total is again the
    operation count. *)
Lemma track_aggregated_update_accounted (trk : TRACK) (nsecs aggr : Z) :
  TRACK_accounted trk -> ops trk < 2 ^ 32 -> 0 < aggr -> 0 <= nsecs ->
  exists trk',
    track_aggregated_update trk nsecs aggr = Some trk' /\
    TRACK_accounted trk' /\ ops trk' = ops trk /\ aggregated trk' = 0 /\
    bucket_total (buckets trk') = ops trk.
Proof.
  intros (Hsz & Hall & Hagg & Hops) Hbound Haggr Hns.
  destruct (Z.eq_dec (aggregated trk) 0) as [Hz|Hnz].
  - exists trk. unfold track_aggregated_update. rewrite Hz. cbn [Z.eqb].
    split; [reflexivity|]. split; [exact (conj Hsz (conj Hall (conj Hagg Hops)))|].
    split; [reflexivity|]. split; [reflexivity|]. lia.
  - pose proof Hsz as (Hus & Hms & Hsec).
    unfold track_aggregated_update.
    destruct (Z.eqb_spec (aggregated trk) 0); [contradiction|].
    destruct (Z.eqb_spec aggr 0); [lia|].
    set (v := nsecs / aggr).
    assert (Hv : 0 <= v) by (apply Z.div_pos; lia).
    change (us_to_ns 1000) with 1000000.
    change (ms_to_ns 1000) with 1000000000.
    change (sec_to_ns 100) with 100000000000.
    unfold buckets in Hall, Hops. rewrite !bucket_total_app in Hops.
    apply Forall_app in Hall as [Hau Hall]. apply Forall_app in Hall as [Ham Has].
    assert (0 <= bucket_total (us trk) /\ 0 <= bucket_total (ms trk)
            /\ 0 <= bucket_total (sec trk)) as (Htu & Htm & Hts).
    { repeat split;
        match goal with |- 0 <= bucket_total ?l =>
          assert (Forall (fun z => 0 <= z) l) as Hl by assumption;
          clear -Hl; unfold bucket_total; induction Hl; cbn; lia
        end. }
    eexists. split; [reflexivity|].
    destruct (Z.ltb_spec v 1000000) as [H1|H1];
      [|destruct (Z.ltb_spec v 1000000000) as [H2|H2];
        [|destruct (Z.ltb_spec v 100000000000) as [H3|H3]]];
      unfold TRACK_accounted, TRACK_sized, buckets;
      cbn [us ms sec ops aggregated];
      rewrite ?length_insert, ?bucket_total_app.
    + assert (Hi : (Z.to_nat (ns_to_us v) < length (us trk))%nat).
      { unfold ns_to_us, THOUSAND.
        assert (v / 1000 < 1000) by (apply Z.div_lt_upper_bound; lia).
        assert (0 <= v / 1000) by (apply Z.div_pos; lia). lia. }
      destruct (bucket_add_total (us trk) _ (aggregated trk) Hau Hi) as [Ht Hf];
        [lia|lia|].
      unfold bucket_add at 1. rewrite length_insert, Ht.
      repeat split; try assumption; try lia.
      rewrite !Forall_app. auto.
    + assert (Hi : (Z.to_nat (ns_to_ms v) < length (ms trk))%nat).
      { unfold ns_to_ms, MILLION.
        assert (v / 1000000 < 1000) by (apply Z.div_lt_upper_bound; lia).
        assert (0 <= v / 1000000) by (apply Z.div_pos; lia). lia. }
      destruct (bucket_add_total (ms trk) _ (aggregated trk) Ham Hi) as [Ht Hf];
        [lia|lia|].
      unfold bucket_add at 1. rewrite length_insert, Ht.
      repeat split; try assumption; try lia.
      rewrite !Forall_app. auto.
    + assert (Hi : (Z.to_nat (ns_to_sec v) < length (sec trk))%nat).
      { unfold ns_to_sec, BILLION.
        assert (v / 1000000000 < 100) by (apply Z.div_lt_upper_bound; lia).
        assert (0 <= v / 1000000000) by (apply Z.div_pos; lia). lia. }
      destruct (bucket_add_total (sec trk) _ (aggregated trk) Has Hi) as [Ht Hf];
        [lia|lia|].
      unfold bucket_add at 1. rewrite length_insert, Ht.
      repeat split; try assumption; try lia.
      rewrite !Forall_app. auto.
    + assert (Hi : (length (sec trk) - 1 < length (sec trk))%nat) by lia.
      destruct (bucket_add_total (sec trk) _ (aggregated trk) Has Hi) as [Ht Hf];
        [lia|lia|].
      unfold bucket_add at 1. rewrite length_insert, Ht.
      repeat split; try assumption; try lia.
      rewrite !Forall_app. auto.
Qed.

Lemma TRACK_init_counted_accounted : TRACK_accounted (track_count TRACK_init).
Proof.
  split; [repeat split|]. split; [|split; [now vm_compute|reflexivity]].
  unfold buckets. cbn [track_count TRACK_init us ms sec].
  rewrite !Forall_app. repeat split; apply Forall_replicate; lia.
Qed.

(** Counting an operation keeps the books of a track. *)
Lemma track_count_accounted (trk : TRACK) :
  TRACK_accounted trk -> ops trk < 2 ^ 32 - 1 ->
  TRACK_accounted (track_count trk) /\
  ops (track_count trk) = ops trk + 1 /\
  aggregated (track_count trk) = aggregated trk + 1.
Proof.
  intros (Hsz & Hall & Hagg & Hops) Hbound.
  pose proof (bucket_total_bound (buckets trk)) as Hb.
  assert (Ht : 0 <= bucket_total (buckets trk)).
  { clear -Hall. unfold bucket_total. induction Hall; cbn; lia. }
  unfold TRACK_accounted, TRACK_sized, buckets, track_count in *.
  cbn [us ms sec ops aggregated].
  rewrite wrap64_small, wrap32_small by lia. repeat split; try tauto; lia.
Qed.

(** X6: the two bookkeeping steps keep the books of a track.  As long as
    fewer than 2^32 - 1 operations have been counted, every operation counted
    is either pending or in exactly one bucket: [++trk->ops;
    ++trk->aggregated] adds one pending operation, and
    [track_aggregated_update] moves all pending operations into the
    histogram, whose total then equals the operation count. *)
Theorem track_books_balance (trk : TRACK) (nsecs aggr : Z) :
  TRACK_accounted trk -> ops trk < 2 ^ 32 - 1 -> 0 < aggr -> 0 <= nsecs ->
  TRACK_accounted (track_count trk) /\
  ops (track_count trk) = ops trk + 1 /\
  exists trk',
    track_aggregated_update (track_count trk) nsecs aggr = Some trk' /\
    TRACK_accounted trk' /\ ops trk' = ops trk + 1 /\ aggregated trk' = 0 /\
    bucket_total (buckets trk') = ops trk + 1.
Proof.
  intros Hacc Hbound Haggr Hns.
  destruct (track_count_accounted trk Hacc Hbound) as (Hacc1 & Hops1 & _).
  split; [exact Hacc1|]. split; [exact Hops1|].
  destruct (track_aggregated_update_accounted (track_count trk) nsecs aggr)
    as (trk' & Hup & Hacc' & Hops' & Hagg' & Htot'); try assumption; [lia|].
  exists trk'. rewrite Hops', Htot', Hops1. auto.
Qed.

Lemma track_books_balance_witness :
  TRACK_accounted (track_count TRACK_init) /\
  ops (track_count TRACK_init) < 2 ^ 32 - 1 /\ 0 < 2 /\ 0 <= 7000 /\
  TRACK_accounted (track_count (track_count TRACK_init)) /\
  ops (track_count (track_count TRACK_init)) = ops (track_count TRACK_init) + 1 /\
  exists trk',
    track_aggregated_update (track_count (track_count TRACK_init)) 7000 2
      = Some trk' /\
    TRACK_accounted trk' /\ ops trk' = ops (track_count TRACK_init) + 1 /\
    aggregated trk' = 0 /\
    bucket_total (buckets trk') = ops (track_count TRACK_init) + 1.
Proof.
  split; [exact TRACK_init_counted_accounted|]. split; [now vm_compute|].
  split; [lia|]. split; [lia|].
  apply (track_books_balance (track_count TRACK_init) 7000 2);
    [exact TRACK_init_counted_accounted|now vm_compute|lia|lia].
Defined.

(** ** Worker engine: the key of an operation *)


(** The first [switch] traps only on an empty value range. *)
Lemma worker_next_val_trap (pareto_cdf : Z -> Z -> Z) (cfg : CONFIG)
    (op draw : Z) (g : globals) :
  worker_next_val pareto_cdf cfg op draw g = NextTrap ->
  wtperf_value_range cfg (g_insert_key g) = 0.
Proof.
  unfold worker_next_val.
  assert (Htrap : wtperf_rand pareto_cdf cfg (g_insert_key g) draw = None ->
                  wtperf_value_range cfg (g_insert_key g) = 0).
  { unfold wtperf_rand.
    destruct (Z.eqb_spec (wtperf_value_range cfg (g_insert_key g)) 0);
      [trivial|discriminate]. }
  destruct (_ || _).
  - destruct (random_range cfg =? 0); [discriminate|].
    destruct (wtperf_rand _ _ _ _); [discriminate|auto].
  - destruct (_ || _); [|discriminate].
    destruct (wtperf_rand _ _ _ _) as [v|]; [|auto].
    destruct (_ <? v); discriminate.
Qed.


(** ** Worker engine: invariants of the loop *)

Lemma track_aggregated_update_pending (trk trk' : TRACK) (nsecs aggr : Z) :
  track_aggregated_update trk nsecs aggr = Some trk' -> aggregated trk' = 0.
Proof.
  unfold track_aggregated_update.
  destruct (Z.eqb_spec (aggregated trk) 0) as [E|E]; [now intros [= <-]|].
  destruct (aggr =? 0); [discriminate|].
  repeat match goal with |- context [if ?c then _ else _] => destruct c end;
    now intros [= <-].
Qed.

Lemma thread_sample_shape (th th' : CONFIG_THREAD) (nsecs aggr : Z) :
  thread_sample th nsecs aggr = Some th' ->
  schedule th' = schedule th /\ value_buf th' = value_buf th /\
  aggregated (thread_read th') = 0 /\ aggregated (thread_insert th') = 0 /\
  aggregated (thread_update th') = 0.
Proof.
  unfold thread_sample.
  destruct (track_aggregated_update (thread_insert th) _ _) eqn:Hi; [|discriminate].
  destruct (track_aggregated_update (thread_read th) _ _) eqn:Hr; [|discriminate].
  destruct (track_aggregated_update (thread_update th) _ _) eqn:Hu; [|discriminate].
  intros [= <-]. cbn.
  apply track_aggregated_update_pending in Hi, Hr, Hu. auto.
Qed.

Lemma schedule_next_lt (op : nat) :
  (op < SCHEDULE_SLOTS)%nat -> (schedule_next op < SCHEDULE_SLOTS)%nat.
Proof.
  intros H. unfold schedule_next.
  destruct (Nat.eqb_spec (S op) SCHEDULE_SLOTS); unfold SCHEDULE_SLOTS in *; lia.
Qed.

(** The end of an iteration, after an operation has been counted. *)
Lemma worker_latency_inv {St : Type} (cfg : CONFIG) (now : timespec)
    (s : worker_state St) :
  (w_op s < SCHEDULE_SLOTS)%nat ->
  0 <= aggregated (thread_read (w_thread s)) ->
  0 <= aggregated (thread_insert (w_thread s)) ->
  0 <= aggregated (thread_update (w_thread s)) ->
  thread_pending (w_thread s) = w_aggregated s ->
  0 < w_aggregated s ->
  exists s',
    worker_latency cfg now s = Some s' /\ worker_inv cfg s' /\
    schedule (w_thread s') = schedule (w_thread s) /\
    value_buf (w_thread s') = value_buf (w_thread s) /\
    w_glob s' = w_glob s /\ w_store s' = w_store s /\ w_calls s' = w_calls s.
Proof.
  intros Hop Hr Hi Hu Hpend Hpos. unfold worker_latency.
  destruct (Z.ltb_spec (w_aggregated s) (latency_aggregate cfg)) as [Hlt|Hge];
    cbn [andb];
    [destruct (_ =? _)|].
  - eexists. split; [reflexivity|]. unfold worker_inv. cbn.
    repeat split; auto using schedule_next_lt.
  - destruct (thread_sample_ops (w_thread s) (elapsed_nsecs (w_last s) now)
                (w_aggregated s) ltac:(lia)) as (th' & Hs & _).
    rewrite Hs. destruct (thread_sample_shape _ _ _ _ Hs) as (Hsch & Hvb & Ar & Ai & Au).
    eexists. split; [reflexivity|]. unfold worker_inv, thread_pending. cbn.
    rewrite Ar, Ai, Au. repeat split; auto using schedule_next_lt; lia.
  - destruct (thread_sample_ops (w_thread s) (elapsed_nsecs (w_last s) now)
                (w_aggregated s) ltac:(lia)) as (th' & Hs & _).
    rewrite Hs. destruct (thread_sample_shape _ _ _ _ Hs) as (Hsch & Hvb & Ar & Ai & Au).
    eexists. split; [reflexivity|]. unfold worker_inv, thread_pending. cbn.
    rewrite Ar, Ai, Au. repeat split; auto using schedule_next_lt; lia.
Qed.

(** The accounting of one operation. *)
Lemma worker_account_inv {St : Type} (cfg : CONFIG) (s : worker_state St)
    (g : globals) (r : op_result St) (sel : track_sel) :
  worker_inv cfg s -> latency_aggregate cfg <= UINT32_MAX ->
  let s1 := worker_account s g r sel in
  (w_op s1 < SCHEDULE_SLOTS)%nat /\
  0 <= aggregated (thread_read (w_thread s1)) /\
  0 <= aggregated (thread_insert (w_thread s1)) /\
  0 <= aggregated (thread_update (w_thread s1)) /\
  thread_pending (w_thread s1) = w_aggregated s1 /\
  0 < w_aggregated s1.
Proof.
  intros (Hop & Hr & Hi & Hu & Hpend & Hbatch) Hla. unfold UINT32_MAX in Hla.
  unfold thread_pending in *. cbn zeta. unfold worker_account.
  cbn [w_op w_thread w_aggregated].
  assert (Hw : 0 <= w_aggregated s < 2 ^ 32 - 1) by lia.
  rewrite (wrap32_small (w_aggregated s + 1)) by lia.
  destruct sel; cbn [thread_count thread_read thread_insert thread_update
                     track_count aggregated];
    rewrite wrap32_small by lia; repeat split; lia.
Qed.

(** One iteration keeps the invariant, and it can only trap on an empty
    value range or in the copy of an update. *)
Lemma worker_iteration_keeps_inv {St : Type} (cur : WT_CURSOR St)
    (pareto_cdf : Z -> Z -> Z) (cfg : CONFIG) (draw : Z) (now : timespec)
    (s : worker_state St) :
  worker_inv cfg s -> latency_aggregate cfg <= UINT32_MAX ->
  (forall s', result_state (worker_iteration cur pareto_cdf cfg draw now s) = Some s' ->
     worker_inv cfg s' /\ schedule (w_thread s') = schedule (w_thread s)) /\
  (worker_iteration cur pareto_cdf cfg draw now s = WTrap ->
   wtperf_value_range cfg (g_insert_key (w_glob s)) = 0 \/
   default 0 (schedule (w_thread s) !! w_op s) = WORKER_UPDATE).
Proof.
  intros Hinv Hla. unfold worker_iteration.
  destruct (negb _); [split; [intros s' [= <-]; auto|discriminate]|].
  set (op := default 0 (schedule (w_thread s) !! w_op s)).
  pose proof (worker_next_val_trap pareto_cdf cfg op draw (w_glob s)) as Htrap.
  assert (Hfail : forall g vbuf st calls,
            worker_inv cfg (worker_fail s g vbuf st calls)).
  { intros. exact Hinv. }
  destruct (worker_next_val pareto_cdf cfg op draw (w_glob s)) as [key g| | |].
  - set (r := worker_op cur cfg op key _ _ _). cbv zeta.
    destruct (or_overrun r) eqn:Hover.
    { split; [discriminate|]. intros _. right.
      destruct (Z.eq_dec op WORKER_UPDATE) as [Hu|Hu]; [exact Hu|].
      unfold r in Hover. rewrite worker_op_no_overrun in Hover by now left.
      discriminate. }
    destruct (or_trk r) as [sel|].
    + destruct (worker_account_inv cfg s g r sel Hinv Hla)
        as (H1 & H2 & H3 & H4 & H5 & H6).
      destruct (worker_latency_inv cfg now _ H1 H2 H3 H4 H5 H6)
        as (s1 & Hl & Hinv1 & Hsch & _).
      rewrite Hl. split; [|discriminate].
      intros s' [= <-]. split; [assumption|]. rewrite Hsch.
      now destruct sel.
    + split; [intros s' [= <-]; auto|discriminate].
  - split; [intros s' [= <-]; auto|discriminate].
  - split; [intros s' [= <-]; auto|discriminate].
  - split; [discriminate|auto].
Qed.

(** X8: what a worker keeps true from the first iteration on, for a thread
    that starts with no operation pending: the schedule pointer stays
    inside the 100 slots, the local count [aggregated] is always the number
    of operations pending on the three tracks, a batch that is open is
    always shorter than [latency_aggregate], and the schedule is never
    written. *)
Theorem worker_run_keeps_inv {St : Type} (cur : WT_CURSOR St)
    (pareto_cdf : Z -> Z -> Z) (cfg : CONFIG) (inputs : list (Z * timespec))
    (th : CONFIG_THREAD) (g : globals) (st : St) (t0 : timespec)
    (s' : worker_state St) :
  aggregated (thread_read th) = 0 -> aggregated (thread_insert th) = 0 ->
  aggregated (thread_update th) = 0 ->
  latency_aggregate cfg <= UINT32_MAX ->
  result_state (worker_run cur pareto_cdf cfg inputs (worker_start th g st t0))
    = Some s' ->
  worker_inv cfg s' /\ schedule (w_thread s') = schedule th.
Proof.
  intros Hr Hi Hu Hla.
  assert (Hinv0 : worker_inv cfg (worker_start th g st t0)).
  { unfold worker_inv, thread_pending, worker_start, SCHEDULE_SLOTS. cbn.
    rewrite Hr, Hi, Hu. repeat split; lia. }
  change (schedule th) with (schedule (w_thread (worker_start th g st t0))).
  generalize dependent (worker_start th g st t0). clear Hr Hi Hu.
  induction inputs as [|[draw now] inputs IH]; intros s Hinv; cbn [worker_run].
  - intros [= <-]. auto.
  - destruct (worker_iteration_keeps_inv cur pareto_cdf cfg draw now s Hinv Hla)
      as [Hstep _].
    destruct (worker_iteration cur pareto_cdf cfg draw now s) as [s1|s1|s1|] eqn:Hit;
      cbn [result_state] in *.
    + destruct (Hstep s1 eq_refl) as [Hinv1 Hsch1]. intros Hres.
      destruct (IH s1 Hinv1 Hres) as [Hinv' Hsch']. split; [assumption|congruence].
    + intros [= <-]. now apply Hstep.
    + intros [= <-]. now apply Hstep.
    + discriminate.
Qed.

Lemma worker_run_keeps_inv_witness :
  aggregated (thread_read (thread_init rmw_cfg)) = 0 /\
  aggregated (thread_insert (thread_init rmw_cfg)) = 0 /\
  aggregated (thread_update (thread_init rmw_cfg)) = 0 /\
  latency_aggregate rmw_cfg <= UINT32_MAX /\
  exists s',
    result_state
      (worker_run empty_cursor (fun _ _ => 0) rmw_cfg
         [(7, Timespec 1 0); (8, Timespec 2 0)]
         (worker_start
            (op_setup rmw_cfg WORKER_INSERT_RMW [] (thread_init rmw_cfg))
            (Globals 0 0 0) O (Timespec 0 0))) = Some s' /\
    worker_inv rmw_cfg s' /\
    schedule (w_thread s')
    = schedule (op_setup rmw_cfg WORKER_INSERT_RMW [] (thread_init rmw_cfg)).
Proof.
  split; [reflexivity|]. split; [reflexivity|]. split; [reflexivity|].
  split; [now vm_compute|].
  eexists. split; [vm_compute; reflexivity|].
  apply (worker_run_keeps_inv empty_cursor (fun _ _ => 0) rmw_cfg
           [(7, Timespec 1 0); (8, Timespec 2 0)]
           (op_setup rmw_cfg WORKER_INSERT_RMW [] (thread_init rmw_cfg))
           (Globals 0 0 0) O (Timespec 0 0));
    first [reflexivity|now vm_compute].
Defined.

(** ** Worker engine: every operation ends up in a bucket *)

Lemma thread_count_accounted (sel : track_sel) (vbuf : list Z)
    (th : CONFIG_THREAD) (b : Z) :
  thread_accounted th -> thread_ops_below th b -> b <= 2 ^ 32 - 1 ->
  thread_accounted (thread_count sel vbuf th) /\
  thread_ops_below (thread_count sel vbuf th) (b + 1).
Proof.
  intros (Hr & Hi & Hu) (Br & Bi & Bu) Hb.
  unfold thread_accounted, thread_ops_below.
  destruct sel; cbn [thread_count thread_read thread_insert thread_update].
  - destruct (track_count_accounted _ Hr) as (? & -> & _); [lia|].
    split; [split; [|split]; assumption|repeat split; lia].
  - destruct (track_count_accounted _ Hi) as (? & -> & _); [lia|].
    split; [split; [|split]; assumption|repeat split; lia].
  - destruct (track_count_accounted _ Hu) as (? & -> & _); [lia|].
    split; [split; [|split]; assumption|repeat split; lia].
Qed.

Lemma thread_sample_accounted (th : CONFIG_THREAD) (nsecs aggr b : Z) :
  thread_accounted th -> thread_ops_below th b -> b <= 2 ^ 32 ->
  0 < aggr -> 0 <= nsecs ->
  exists th',
    thread_sample th nsecs aggr = Some th' /\
    thread_accounted th' /\ thread_ops_below th' b.
Proof.
  intros (Hr & Hi & Hu) (Br & Bi & Bu) Hb Haggr Hns. unfold thread_sample.
  destruct (track_aggregated_update_accounted (thread_insert th) nsecs aggr Hi)
    as (ti & -> & Hai & Hoi & _); try lia.
  destruct (track_aggregated_update_accounted (thread_read th) nsecs aggr Hr)
    as (tr & -> & Har & Hor & _); try lia.
  destruct (track_aggregated_update_accounted (thread_update th) nsecs aggr Hu)
    as (tu & -> & Hau & Hou & _); try lia.
  eexists. split; [reflexivity|].
  unfold thread_accounted, thread_ops_below. cbn. rewrite Hoi, Hor, Hou. auto.
Qed.

Lemma elapsed_nsecs_nonneg (last t : timespec) : 0 <= elapsed_nsecs last t.
Proof. unfold elapsed_nsecs. apply wrap64_range. Qed.

(** One iteration keeps the books of the three tracks and counts at most
    one operation. *)
Lemma worker_iteration_accounted {St : Type} (cur : WT_CURSOR St)
    (pareto_cdf : Z -> Z -> Z) (cfg : CONFIG) (draw : Z) (now : timespec)
    (s s' : worker_state St) (b : Z) :
  worker_inv cfg s -> latency_aggregate cfg <= UINT32_MAX ->
  thread_accounted (w_thread s) -> thread_ops_below (w_thread s) b ->
  b <= 2 ^ 32 - 1 ->
  result_state (worker_iteration cur pareto_cdf cfg draw now s) = Some s' ->
  thread_accounted (w_thread s') /\ thread_ops_below (w_thread s') (b + 1).
Proof.
  intros Hinv Hla Hacc Hbel Hb. unfold worker_iteration.
  assert (Hsame : thread_accounted (w_thread s)
                  /\ thread_ops_below (w_thread s) (b + 1)).
  { split; [assumption|]. destruct Hbel as (? & ? & ?). repeat split; lia. }
  assert (Hfail : forall g vbuf st calls,
            thread_accounted (w_thread (worker_fail s g vbuf st calls)) /\
            thread_ops_below (w_thread (worker_fail s g vbuf st calls)) (b + 1)).
  { intros. exact Hsame. }
  destruct (negb _); [intros [= <-]; exact Hsame|].
  destruct (worker_next_val _ _ _ _ _) as [key g| | |]; cbn [result_state];
    try (intros [= <-]; auto); try discriminate.
  set (r := worker_op cur cfg _ key _ _ _). cbv zeta.
  destruct (or_overrun r); [discriminate|].
  destruct (or_trk r) as [sel|]; [|intros [= <-]; auto].
  destruct (worker_account_inv cfg s g r sel Hinv Hla) as (_ & _ & _ & _ & _ & Hpos).
  destruct (thread_count_accounted sel (or_value_buf r) (w_thread s) b Hacc Hbel Hb)
    as [Hacc1 Hbel1].
  unfold worker_latency.
  destruct (_ && _); cbn [result_state]; [intros [= <-]; cbn; auto|].
  destruct (thread_sample_accounted
              (w_thread (worker_account s g r sel))
              (elapsed_nsecs (w_last (worker_account s g r sel)) now)
              (w_aggregated (worker_account s g r sel)) (b + 1))
    as (th' & Hs & Hacc' & Hbel'); auto using elapsed_nsecs_nonneg; [lia|].
  rewrite Hs. intros [= <-]. cbn. auto.
Qed.

(** X9: a worker never loses an operation between its counters and its
    histograms.  Started on tracks whose books balance (as fresh tracks do)
    and with no operation pending, after any number of iterations every
    operation counted on a track is either pending or in exactly one bucket
    of that track, provided no track reaches 2^32 - 1 operations. *)
Theorem worker_run_books_balance {St : Type} (cur : WT_CURSOR St)
    (pareto_cdf : Z -> Z -> Z) (cfg : CONFIG) (inputs : list (Z * timespec))
    (th : CONFIG_THREAD) (g : globals) (st : St) (t0 : timespec)
    (s' : worker_state St) (b : Z) :
  aggregated (thread_read th) = 0 -> aggregated (thread_insert th) = 0 ->
  aggregated (thread_update th) = 0 ->
  latency_aggregate cfg <= UINT32_MAX ->
  thread_accounted th -> thread_ops_below th b ->
  b + Z.of_nat (length inputs) <= 2 ^ 32 ->
  result_state (worker_run cur pareto_cdf cfg inputs (worker_start th g st t0))
    = Some s' ->
  thread_accounted (w_thread s') /\
  thread_ops_below (w_thread s') (b + Z.of_nat (length inputs)).
Proof.
  intros Hr Hi Hu Hla.
  assert (Hinv0 : worker_inv cfg (worker_start th g st t0)).
  { unfold worker_inv, thread_pending, worker_start, SCHEDULE_SLOTS. cbn.
    rewrite Hr, Hi, Hu. repeat split; lia. }
  change th with (w_thread (worker_start th g st t0)) at 1 2.
  generalize dependent (worker_start th g st t0). clear Hr Hi Hu.
  revert b. induction inputs as [|[draw now] inputs IH];
    intros b s Hinv Hacc Hbel Hb; cbn [worker_run length] in *.
  - intros [= <-]. split; [assumption|].
    destruct Hbel as (? & ? & ?). cbn. repeat split; lia.
  - destruct (worker_iteration_keeps_inv cur pareto_cdf cfg draw now s Hinv Hla)
      as [Hstep _].
    pose proof (fun s1 => worker_iteration_accounted cur pareto_cdf cfg draw now
                            s s1 b Hinv Hla Hacc Hbel ltac:(lia)) as Hbooks.
    assert (Hweak : forall t, thread_ops_below t (b + 1) ->
              thread_ops_below t (b + Z.of_nat (S (length inputs)))).
    { intros t (? & ? & ?). repeat split; lia. }
    destruct (worker_iteration cur pareto_cdf cfg draw now s) as [s1|s1|s1|] eqn:Hit;
      cbn [result_state] in *.
    + destruct (Hstep s1 eq_refl) as [Hinv1 _].
      destruct (Hbooks s1 eq_refl) as [Hacc1 Hbel1]. intros Hres.
      replace (b + Z.of_nat (S (length inputs)))
        with ((b + 1) + Z.of_nat (length inputs)) by lia.
      apply (IH (b + 1) s1 Hinv1 Hacc1 Hbel1); [lia|exact Hres].
    + intros [= <-]. destruct (Hbooks s1 eq_refl). auto.
    + intros [= <-]. destruct (Hbooks s1 eq_refl). auto.
    + discriminate.
Qed.

Lemma TRACK_init_accounted : TRACK_accounted TRACK_init.
Proof.
  split; [repeat split|]. split; [|split; [now vm_compute|reflexivity]].
  unfold buckets. cbn [TRACK_init us ms sec].
  rewrite !Forall_app. repeat split; apply Forall_replicate; lia.
Qed.

Lemma worker_run_books_balance_witness :
  let th := op_setup rmw_cfg WORKER_INSERT_RMW [] (thread_init rmw_cfg) in
  let inputs := [(7, Timespec 1 0); (8, Timespec 2 0)] in
  aggregated (thread_read th) = 0 /\ aggregated (thread_insert th) = 0 /\
  aggregated (thread_update th) = 0 /\
  latency_aggregate rmw_cfg <= UINT32_MAX /\
  thread_accounted th /\ thread_ops_below th 1 /\
  1 + Z.of_nat (length inputs) <= 2 ^ 32 /\
  exists s',
    result_state
      (worker_run empty_cursor (fun _ _ => 0) rmw_cfg inputs
         (worker_start th (Globals 0 0 0) O (Timespec 0 0))) = Some s' /\
    thread_accounted (w_thread s') /\
    thread_ops_below (w_thread s') (1 + Z.of_nat (length inputs)).
Proof.
  intros th inputs.
  assert (Hacc : thread_accounted th)
    by (split; [|split]; exact TRACK_init_accounted).
  assert (Hbel : thread_ops_below th 1) by (repeat split; now vm_compute).
  split; [reflexivity|]. split; [reflexivity|]. split; [reflexivity|].
  split; [now vm_compute|]. split; [exact Hacc|]. split; [exact Hbel|].
  split; [now vm_compute|].
  eexists. split; [vm_compute; reflexivity|].
  apply (worker_run_books_balance empty_cursor (fun _ _ => 0) rmw_cfg inputs th
           (Globals 0 0 0) O (Timespec 0 0) _ 1);
    first [reflexivity|exact Hacc|exact Hbel|now vm_compute].
Defined.

(** ** Worker engine: reads and updates *)

Lemma worker_op_read {St : Type} (cur : WT_CURSOR St)
    (cfg : CONFIG) (key : Z) (vbuf : list Z) (st st1 : St)
    (calls : list store_call) (ret : Z) :
  cursor_search cur key st = (ret, st1) ->
  worker_op cur cfg WORKER_READ key vbuf st calls
  = OpResult (if (ret =? 0) || (ret =? WT_NOTFOUND) then Some TrkRead else None)
             vbuf st1 (calls ++ [CallSearch key]) false.
Proof. intros Hs. unfold worker_op. decide_tags. now rewrite Hs. Qed.

Lemma worker_next_val_read (pareto_cdf : Z -> Z -> Z) (cfg : CONFIG)
    (draw key : Z) (g g' : globals) :
  worker_next_val pareto_cdf cfg WORKER_READ draw g = NextVal key g' -> g' = g.
Proof.
  unfold worker_next_val. cbn.
  destruct (wtperf_rand _ _ _ _); [|discriminate].
  destruct (_ <? _); [discriminate|]. now intros [= _ <-].
Qed.

(** X10: a plain read counts a miss like a hit.  When the slot scheduled is
    read, a search that returns success or "not found" is charged to the
    read track and the loop goes on, with the search as the only store call
    and no flag changed; any other result is fatal: the worker sets the
    error and stop flags and leaves the loop, and no track is charged. *)
Theorem worker_read_counts_misses {St : Type} (cur : WT_CURSOR St)
    (pareto_cdf : Z -> Z -> Z) (cfg : CONFIG) (draw : Z) (now : timespec)
    (s : worker_state St) (key : Z) (g : globals) (ret : Z) (st1 : St) :
  g_stop (w_glob s) = 0 ->
  schedule (w_thread s) !! w_op s = Some WORKER_READ ->
  worker_next_val pareto_cdf cfg WORKER_READ draw (w_glob s) = NextVal key g ->
  cursor_search cur key (w_store s) = (ret, st1) ->
  0 <= w_aggregated s < UINT32_MAX ->
  (ret = 0 \/ ret = WT_NOTFOUND ->
     exists s',
       worker_iteration cur pareto_cdf cfg draw now s = WContinue s' /\
       ops (thread_read (w_thread s')) = wrap64 (ops (thread_read (w_thread s)) + 1) /\
       ops (thread_insert (w_thread s')) = ops (thread_insert (w_thread s)) /\
       ops (thread_update (w_thread s')) = ops (thread_update (w_thread s)) /\
       w_calls s' = w_calls s ++ [CallSearch key] /\
       w_glob s' = w_glob s) /\
  (ret <> 0 -> ret <> WT_NOTFOUND ->
     exists s',
       worker_iteration cur pareto_cdf cfg draw now s = WFailed s' /\
       g_error (w_glob s') = 1 /\ g_stop (w_glob s') = 1 /\
       w_calls s' = w_calls s ++ [CallSearch key] /\
       thread_read (w_thread s') = thread_read (w_thread s)).
Proof.
  intros Hstop Hop Hkey Hsearch Hagg.
  pose proof (worker_next_val_read _ _ _ _ _ _ Hkey) as ->.
  pose proof (worker_iteration_op cur pareto_cdf cfg draw now s _ key _
                Hstop Hop Hkey
                (worker_op_no_overrun cur cfg WORKER_READ key _ _ _
                   ltac:(left; discriminate))) as Hit.
  rewrite (worker_op_read cur cfg key _ _ st1 _ ret Hsearch) in Hit.
  cbv zeta in Hit. cbn [or_trk or_value_buf or_store or_calls] in Hit.
  split.
  - intros Hret.
    assert (Hsel : (ret =? 0) || (ret =? WT_NOTFOUND) = true).
    { destruct Hret as [-> | ->]; reflexivity. }
    rewrite Hsel in Hit.
    set (s1 := worker_account s (w_glob s) _ TrkRead) in *.
    destruct (worker_latency_ops cfg now s1) as (s' & Hl & Hg & Hc & Hro & Hio & Huo).
    { unfold s1. cbn [worker_account w_aggregated].
      rewrite wrap32_small by (unfold UINT32_MAX in Hagg; lia). lia. }
    rewrite Hl in Hit. exists s'. split; [exact Hit|].
    rewrite Hro, Hio, Huo, Hc, Hg. repeat split.
  - intros H0 Hnf.
    destruct (Z.eqb_spec ret 0); [contradiction|].
    destruct (Z.eqb_spec ret WT_NOTFOUND); [contradiction|].
    cbn [orb] in Hit. eexists. split; [exact Hit|]. repeat split.
Qed.

Lemma worker_read_counts_misses_witness :
  let s := worker_init (mix_cfg 0 0) WORKER_READ in
  g_stop (w_glob s) = 0 /\
  schedule (w_thread s) !! w_op s = Some WORKER_READ /\
  worker_next_val (fun _ _ => 0) (mix_cfg 0 0) WORKER_READ 12345 (w_glob s)
    = NextVal 2348 (w_glob s) /\
  cursor_search empty_cursor 2348 (w_store s) = (WT_NOTFOUND, 1%nat) /\
  0 <= w_aggregated s < UINT32_MAX /\
  exists s',
    worker_iteration empty_cursor (fun _ _ => 0) (mix_cfg 0 0) 12345
      (Timespec 1 0) s = WContinue s' /\
    ops (thread_read (w_thread s')) = wrap64 (ops (thread_read (w_thread s)) + 1) /\
    w_calls s' = w_calls s ++ [CallSearch 2348].
Proof.
  intros s.
  assert (H1 : g_stop (w_glob s) = 0) by reflexivity.
  assert (H2 : schedule (w_thread s) !! w_op s = Some WORKER_READ) by reflexivity.
  assert (H3 : worker_next_val (fun _ _ => 0) (mix_cfg 0 0) WORKER_READ 12345
                 (w_glob s) = NextVal 2348 (w_glob s)) by reflexivity.
  assert (H4 : cursor_search empty_cursor 2348 (w_store s) = (WT_NOTFOUND, 1%nat))
    by reflexivity.
  assert (H5 : 0 <= w_aggregated s < UINT32_MAX) by (cbn; unfold UINT32_MAX; lia).
  destruct (worker_read_counts_misses empty_cursor (fun _ _ => 0)
              (mix_cfg 0 0) 12345 (Timespec 1 0) s 2348 (w_glob s) WT_NOTFOUND
              1%nat H1 H2 H3 H4 H5) as [Hok _].
  destruct (Hok (or_intror eq_refl)) as (s' & Hit & Hro & _ & _ & Hc & _).
  split; [exact H1|]. split; [exact H2|]. split; [exact H3|].
  split; [exact H4|]. split; [exact H5|].
  exists s'. split; [exact Hit|]. split; [exact Hro|exact Hc].
Defined.

Lemma worker_latency_value_buf {St : Type} (cfg : CONFIG) (now : timespec)
    (s s' : worker_state St) :
  worker_latency cfg now s = Some s' ->
  value_buf (w_thread s') = value_buf (w_thread s) /\
  schedule (w_thread s') = schedule (w_thread s) /\
  w_op s' = schedule_next (w_op s).
Proof.
  unfold worker_latency. destruct (_ && _); [now intros [= <-]|].
  destruct (thread_sample _ _ _) as [th'|] eqn:Hs; [|discriminate].
  intros [= <-]. cbn. apply thread_sample_shape in Hs. tauto.
Qed.

Lemma copy_fits_spec (cfg : CONFIG) (value : list Z) :
  copy_fits cfg value = true
  <-> 1 <= data_sz cfg /\ data_sz cfg <= Z.of_nat (length value).
Proof.
  unfold copy_fits. rewrite andb_true_iff, Z.leb_le, Z.leb_le. reflexivity.
Qed.

Lemma worker_op_update_hit {St : Type} (cur : WT_CURSOR St)
    (cfg : CONFIG) (key : Z) (vbuf : list Z) (st st1 st2 : St)
    (calls : list store_call) (ret2 : Z) :
  cursor_search cur key st = (0, st1) ->
  copy_fits cfg (cursor_get_value cur st1) = true ->
  cursor_update cur key (flip_value cfg (cursor_get_value cur st1)) st1
    = (ret2, st2) ->
  worker_op cur cfg WORKER_UPDATE key vbuf st calls
  = OpResult (if ret2 =? 0 then Some TrkUpdate else None)
             (flip_value cfg (cursor_get_value cur st1)) st2
             (calls ++ [CallSearch key;
                        CallUpdate key (flip_value cfg (cursor_get_value cur st1))])
             false.
Proof.
  intros Hs Hfit Hu. unfold worker_op. decide_tags. rewrite Hs. cbn [Z.eqb].
  cbv zeta. now rewrite Hfit, Hu.
Qed.

(** An update that finds a value shorter than [data_sz], or any value when
    [data_sz] is 0, copies outside its memory: the iteration has no defined
    result. *)
Lemma worker_iteration_update_overrun {St : Type} (cur : WT_CURSOR St)
    (pareto_cdf : Z -> Z -> Z) (cfg : CONFIG) (draw : Z) (now : timespec)
    (s : worker_state St) (key : Z) (g : globals) (st1 : St) :
  g_stop (w_glob s) = 0 ->
  schedule (w_thread s) !! w_op s = Some WORKER_UPDATE ->
  worker_next_val pareto_cdf cfg WORKER_UPDATE draw (w_glob s) = NextVal key g ->
  cursor_search cur key (w_store s) = (0, st1) ->
  copy_fits cfg (cursor_get_value cur st1) = false ->
  worker_iteration cur pareto_cdf cfg draw now s = WTrap.
Proof.
  intros Hstop Hop Hkey Hs Hfit. unfold worker_iteration.
  rewrite Hstop, Hop. change (default 0 (Some WORKER_UPDATE)) with WORKER_UPDATE.
  cbn [negb Z.eqb]. rewrite Hkey. cbv zeta. unfold worker_op. decide_tags.
  rewrite Hs. cbn [Z.eqb]. cbv zeta. now rewrite Hfit.
Qed.

(** X11: an update that finds its key, with a stored value of at least
    [data_sz] bytes ([data_sz] at least 1), writes back the first [data_sz]
    bytes of the value it read with the first byte flipped.  The store sees
    exactly one search and one update of the same key; when the update
    succeeds it is charged to the update track, the thread's value buffer
    holds the flipped value and the loop goes on; when it fails the worker
    sets both flags and leaves the loop with no track charged. *)
Theorem worker_update_hit_writes_flipped {St : Type} (cur : WT_CURSOR St)
    (pareto_cdf : Z -> Z -> Z) (cfg : CONFIG) (draw : Z) (now : timespec)
    (s : worker_state St) (key : Z) (g : globals) (st1 st2 : St) (ret2 : Z) :
  g_stop (w_glob s) = 0 ->
  schedule (w_thread s) !! w_op s = Some WORKER_UPDATE ->
  worker_next_val pareto_cdf cfg WORKER_UPDATE draw (w_glob s) = NextVal key g ->
  cursor_search cur key (w_store s) = (0, st1) ->
  1 <= data_sz cfg ->
  data_sz cfg <= Z.of_nat (length (cursor_get_value cur st1)) ->
  cursor_update cur key (flip_value cfg (cursor_get_value cur st1)) st1
    = (ret2, st2) ->
  0 <= w_aggregated s < UINT32_MAX ->
  let flipped := flip_value cfg (cursor_get_value cur st1) in
  length flipped = Z.to_nat (data_sz cfg) /\
  flipped !! O
    = Some (if default 0 (cursor_get_value cur st1 !! O) =? 97 then 98 else 97) /\
  drop 1 flipped
    = drop 1 (take (Z.to_nat (data_sz cfg)) (cursor_get_value cur st1)) /\
  (ret2 = 0 ->
     exists s',
       worker_iteration cur pareto_cdf cfg draw now s = WContinue s' /\
       ops (thread_update (w_thread s'))
         = wrap64 (ops (thread_update (w_thread s)) + 1) /\
       ops (thread_read (w_thread s')) = ops (thread_read (w_thread s)) /\
       ops (thread_insert (w_thread s')) = ops (thread_insert (w_thread s)) /\
       w_calls s' = w_calls s ++ [CallSearch key; CallUpdate key flipped] /\
       value_buf (w_thread s') = flipped /\ w_store s' = st2 /\
       w_glob s' = w_glob s) /\
  (ret2 <> 0 ->
     exists s',
       worker_iteration cur pareto_cdf cfg draw now s = WFailed s' /\
       g_error (w_glob s') = 1 /\ g_stop (w_glob s') = 1 /\
       w_calls s' = w_calls s ++ [CallSearch key; CallUpdate key flipped] /\
       thread_read (w_thread s') = thread_read (w_thread s) /\
       thread_insert (w_thread s') = thread_insert (w_thread s) /\
       thread_update (w_thread s') = thread_update (w_thread s)).
Proof.
  intros Hstop Hop Hkey Hsearch Hsz Hlen Hupd Hagg flipped.
  assert (Hfit : copy_fits cfg (cursor_get_value cur st1) = true)
    by (apply copy_fits_spec; split; assumption).
  pose proof (worker_next_val_update _ _ _ _ _ _ Hkey) as ->.
  pose proof (worker_iteration_op cur pareto_cdf cfg draw now s _ key _
                Hstop Hop Hkey) as Hit.
  rewrite (worker_op_update_hit cur cfg key _ _ st1 st2 _ ret2 Hsearch Hfit Hupd)
    in Hit.
  specialize (Hit eq_refl).
  cbv zeta in Hit. cbn [or_trk or_value_buf or_store or_calls] in Hit.
  fold flipped in Hit.
  assert (Hshape : length flipped = Z.to_nat (data_sz cfg) /\
            flipped !! O
              = Some (if default 0 (cursor_get_value cur st1 !! O) =? 97
                      then 98 else 97) /\
            drop 1 flipped
              = drop 1 (take (Z.to_nat (data_sz cfg)) (cursor_get_value cur st1))).
  { unfold flipped, flip_value.
    destruct (cursor_get_value cur st1) as [|x rest]; [cbn [length] in Hlen; lia|].
    destruct (Z.to_nat (data_sz cfg)) as [|n] eqn:Hn; [lia|].
    cbn [take lookup list_lookup default insert list_insert length drop].
    rewrite length_take. cbn [length] in Hlen.
    repeat split. f_equal. lia. }
  destruct Hshape as (Hl1 & Hl2 & Hl3).
  split; [exact Hl1|]. split; [exact Hl2|]. split; [exact Hl3|]. split.
  - intros ->. cbn [Z.eqb] in Hit.
    set (s1 := worker_account s (w_glob s) _ TrkUpdate) in *.
    destruct (worker_latency_ops cfg now s1) as (s' & Hl & Hg & Hc & Hro & Hio & Huo).
    { unfold s1. cbn [worker_account w_aggregated].
      rewrite wrap32_small by (unfold UINT32_MAX in Hagg; lia). lia. }
    destruct (worker_latency_value_buf cfg now s1 s' Hl) as (Hvb & _ & _).
    assert (Hst : w_store s' = st2).
    { revert Hl. unfold worker_latency. destruct (_ && _); [now intros [= <-]|].
      destruct (thread_sample _ _ _); [now intros [= <-]|discriminate]. }
    rewrite Hl in Hit. exists s'. split; [exact Hit|].
    rewrite Hro, Hio, Huo, Hc, Hg, Hvb. repeat split. exact Hst.
  - intros Hne. destruct (Z.eqb_spec ret2 0); [contradiction|].
    eexists. split; [exact Hit|]. repeat split.
Qed.

Lemma worker_update_hit_writes_flipped_witness :
  let cfg := mix_cfg 0 0 in
  let cur := stored_cursor (value_buf (thread_init cfg)) in
  let s := worker_init cfg WORKER_UPDATE in
  let flipped := flip_value cfg (cursor_get_value cur 1%nat) in
  g_stop (w_glob s) = 0 /\
  schedule (w_thread s) !! w_op s = Some WORKER_UPDATE /\
  worker_next_val (fun _ _ => 0) cfg WORKER_UPDATE 12345 (w_glob s)
    = NextVal 2348 (w_glob s) /\
  cursor_search cur 2348 (w_store s) = (0, 1%nat) /\
  1 <= data_sz cfg /\
  data_sz cfg <= Z.of_nat (length (cursor_get_value cur 1%nat)) /\
  cursor_update cur 2348 flipped 1%nat = (0, 2%nat) /\
  0 <= w_aggregated s < UINT32_MAX /\
  length flipped = 100%nat /\ flipped !! O = Some 98 /\
  exists s',
    worker_iteration cur (fun _ _ => 0) cfg 12345 (Timespec 1 0) s
      = WContinue s' /\
    ops (thread_update (w_thread s'))
      = wrap64 (ops (thread_update (w_thread s)) + 1) /\
    w_calls s' = w_calls s ++ [CallSearch 2348; CallUpdate 2348 flipped] /\
    value_buf (w_thread s') = flipped.
Proof.
  intros cfg cur s flipped.
  assert (H1 : g_stop (w_glob s) = 0) by reflexivity.
  assert (H2 : schedule (w_thread s) !! w_op s = Some WORKER_UPDATE) by reflexivity.
  assert (H3 : worker_next_val (fun _ _ => 0) cfg WORKER_UPDATE 12345
                 (w_glob s) = NextVal 2348 (w_glob s)) by reflexivity.
  assert (H4 : cursor_search cur 2348 (w_store s) = (0, 1%nat)) by reflexivity.
  assert (Ha : 1 <= data_sz cfg) by (vm_compute; discriminate).
  assert (Hb : data_sz cfg <= Z.of_nat (length (cursor_get_value cur 1%nat)))
    by (vm_compute; discriminate).
  assert (H5 : cursor_update cur 2348 flipped 1%nat = (0, 2%nat)) by reflexivity.
  assert (H6 : 0 <= w_aggregated s < UINT32_MAX) by (cbn; unfold UINT32_MAX; lia).
  destruct (worker_update_hit_writes_flipped cur (fun _ _ => 0)
              cfg 12345 (Timespec 1 0) s 2348 (w_glob s) 1%nat 2%nat 0
              H1 H2 H3 H4 Ha Hb H5 H6) as (Hl1 & Hl2 & _ & Hok & _).
  destruct (Hok eq_refl) as (s' & Hit & Huo & _ & _ & Hc & Hvb & _).
  split; [exact H1|]. split; [exact H2|]. split; [exact H3|].
  split; [exact H4|]. split; [exact Ha|]. split; [exact Hb|].
  split; [exact H5|]. split; [exact H6|].
  split; [exact Hl1|]. split; [exact Hl2|].
  exists s'. split; [exact Hit|]. split; [exact Huo|]. split; [exact Hc|exact Hvb].
Defined.

(** X12: the flip alternates.  On a stored value of at least [data_sz]
    bytes (with [data_sz] at least 1) whose first byte is ['a'] or ['b'],
    flipping changes the first byte to the other letter and nothing else, so
    that two updates of a record restore the [data_sz] bytes it had; any
    other first byte becomes ['a']. *)
Theorem flip_value_alternates (cfg : CONFIG) (value : list Z) (x : Z) :
  1 <= data_sz cfg -> data_sz cfg <= Z.of_nat (length value) ->
  value !! O = Some x ->
  let n := Z.to_nat (data_sz cfg) in
  flip_value cfg value = (if x =? 97 then 98 else 97) :: drop 1 (take n value) /\
  length (flip_value cfg value) = n /\
  (x = 97 \/ x = 98 -> flip_value cfg (flip_value cfg value) = take n value).
Proof.
  intros Hsz Hlen Hx n.
  destruct value as [|y rest]; [discriminate|]. injection Hx as ->.
  assert (Hn : n = S (n - 1)) by (unfold n; lia).
  assert (Htake : take n (x :: rest) = x :: take (n - 1) rest)
    by (rewrite Hn at 1; reflexivity).
  assert (Hflip : flip_value cfg (x :: rest)
                  = (if x =? 97 then 98 else 97) :: take (n - 1) rest).
  { unfold flip_value. fold n. rewrite Htake. reflexivity. }
  assert (Hl : length (take (n - 1) rest) = (n - 1)%nat).
  { rewrite length_take. cbn [length] in Hlen. lia. }
  split; [rewrite Hflip, Htake; cbn [drop]; reflexivity|].
  split; [rewrite Hflip; cbn [length]; lia|].
  intros Hab. rewrite Hflip, Htake. unfold flip_value. fold n.
  rewrite (take_ge (_ :: take (n - 1) rest)) by (cbn [length]; lia).
  destruct Hab as [-> | ->]; reflexivity.
Qed.

Lemma flip_value_alternates_witness :
  let value := value_buf (thread_init (mix_cfg 0 0)) in
  1 <= data_sz (mix_cfg 0 0) /\
  data_sz (mix_cfg 0 0) <= Z.of_nat (length value) /\
  value !! O = Some 97 /\
  flip_value (mix_cfg 0 0) value
    = (if 97 =? 97 then 98 else 97)
      :: drop 1 (take (Z.to_nat (data_sz (mix_cfg 0 0))) value) /\
  length (flip_value (mix_cfg 0 0) value) = Z.to_nat (data_sz (mix_cfg 0 0)) /\
  (97 = 97 \/ 97 = 98 ->
   flip_value (mix_cfg 0 0) (flip_value (mix_cfg 0 0) value)
   = take (Z.to_nat (data_sz (mix_cfg 0 0))) value).
Proof.
  intros value. split; [now vm_compute|]. split; [now vm_compute|].
  split; [reflexivity|].
  apply (flip_value_alternates (mix_cfg 0 0) value 97);
    first [reflexivity|now vm_compute].
Defined.

(** ** Threads without a mix *)

Lemma thread_sample_keeps_ops (th th' : CONFIG_THREAD) (nsecs aggr : Z) :
  thread_sample th nsecs aggr = Some th' ->
  ops (thread_read th') = ops (thread_read th) /\
  ops (thread_insert th') = ops (thread_insert th) /\
  ops (thread_update th') = ops (thread_update th).
Proof.
  unfold thread_sample.
  destruct (track_aggregated_update (thread_insert th) _ _) eqn:Hi; [|discriminate].
  destruct (track_aggregated_update (thread_read th) _ _) eqn:Hr; [|discriminate].
  destruct (track_aggregated_update (thread_update th) _ _) eqn:Hu; [|discriminate].
  intros [= <-]. cbn.
  apply track_aggregated_update_ops in Hi, Hr, Hu. auto.
Qed.

(** What the end of an iteration leaves alone. *)
Lemma worker_latency_frame {St : Type} (cfg : CONFIG) (now : timespec)
    (s s' : worker_state St) :
  worker_latency cfg now s = Some s' ->
  w_calls s' = w_calls s /\ w_glob s' = w_glob s /\ w_store s' = w_store s /\
  ops (thread_read (w_thread s')) = ops (thread_read (w_thread s)) /\
  ops (thread_insert (w_thread s')) = ops (thread_insert (w_thread s)) /\
  ops (thread_update (w_thread s')) = ops (thread_update (w_thread s)).
Proof.
  unfold worker_latency. destruct (_ && _); [intros [= <-]; cbn; tauto|].
  destruct (thread_sample _ _ _) as [th'|] eqn:Hs; [|discriminate].
  intros [= <-]. cbn. apply thread_sample_keeps_ops in Hs. tauto.
Qed.

Lemma worker_iteration_read_only {St : Type} (cur : WT_CURSOR St)
    (pareto_cdf : Z -> Z -> Z) (cfg : CONFIG) (draw : Z) (now : timespec)
    (s s' : worker_state St) :
  schedule (w_thread s) = replicate SCHEDULE_SLOTS WORKER_READ ->
  (w_op s < SCHEDULE_SLOTS)%nat ->
  result_state (worker_iteration cur pareto_cdf cfg draw now s) = Some s' ->
  schedule (w_thread s') = replicate SCHEDULE_SLOTS WORKER_READ /\
  (w_op s' < SCHEDULE_SLOTS)%nat /\
  (Forall (fun c => is_write_call c = false) (w_calls s) ->
   Forall (fun c => is_write_call c = false) (w_calls s')) /\
  ops (thread_insert (w_thread s')) = ops (thread_insert (w_thread s)) /\
  ops (thread_update (w_thread s')) = ops (thread_update (w_thread s)).
Proof.
  intros Hsch Hop. unfold worker_iteration.
  destruct (negb _); [intros [= <-]; auto|].
  rewrite Hsch, (lookup_replicate_2 _ _ _ Hop).
  change (default 0 (Some WORKER_READ)) with WORKER_READ.
  destruct (worker_next_val _ _ _ _ _) as [key g| | |]; cbn [result_state];
    try (intros [= <-]; cbn; auto); try discriminate.
  destruct (cursor_search cur key (w_store s)) as [ret st1] eqn:Hsearch.
  rewrite (worker_op_read cur cfg key _ _ st1 _ ret Hsearch).
  cbn [or_trk or_value_buf or_store or_calls].
  assert (Hcalls : Forall (fun c => is_write_call c = false) (w_calls s) ->
            Forall (fun c => is_write_call c = false)
                   (w_calls s ++ [CallSearch key])).
  { intros H. apply Forall_app. split; [assumption|]. now repeat constructor. }
  destruct (_ || _); cbn [result_state]; [|intros [= <-]; cbn; auto].
  destruct (worker_latency cfg now _) as [s1|] eqn:Hl; [|discriminate].
  intros [= <-].
  destruct (worker_latency_value_buf _ _ _ _ Hl) as (_ & Hs1 & Ho1).
  destruct (worker_latency_frame _ _ _ _ Hl) as (Hc & _ & _ & _ & Hi & Hu).
  rewrite Hs1, Ho1, Hc, Hi, Hu. cbn.
  repeat split; auto using schedule_next_lt.
Qed.

(** X13: without a mix, a read thread never writes to the store.  Whatever
    the store answers and however long the thread runs, every call it issues
    is a search, and its insert and update tracks count no operation. *)
Theorem read_thread_never_writes {St : Type} (cur : WT_CURSOR St)
    (pareto_cdf : Z -> Z -> Z) (cfg : CONFIG) (run_mix_ops : list Z)
    (inputs : list (Z * timespec)) (th : CONFIG_THREAD) (g : globals)
    (st : St) (t0 : timespec) (s' : worker_state St) :
  run_mix_inserts cfg = 0 -> run_mix_updates cfg = 0 ->
  result_state (read_thread cur pareto_cdf cfg run_mix_ops inputs th g st t0)
    = Some s' ->
  Forall (fun c => is_write_call c = false) (w_calls s') /\
  ops (thread_insert (w_thread s')) = ops (thread_insert th) /\
  ops (thread_update (w_thread s')) = ops (thread_update th).
Proof.
  intros Hi Hu. unfold read_thread.
  set (s0 := worker_start (op_setup cfg WORKER_READ run_mix_ops th) g st t0).
  assert (Hsch : schedule (w_thread s0) = replicate SCHEDULE_SLOTS WORKER_READ)
    by (unfold s0, op_setup; cbn; now rewrite Hi, Hu).
  assert (Hop : (w_op s0 < SCHEDULE_SLOTS)%nat) by (unfold SCHEDULE_SLOTS; cbn; lia).
  assert (Hcalls : Forall (fun c => is_write_call c = false) (w_calls s0))
    by constructor.
  change (thread_insert th) with (thread_insert (w_thread s0)).
  change (thread_update th) with (thread_update (w_thread s0)).
  clearbody s0. revert s0 Hsch Hop Hcalls.
  induction inputs as [|[draw now] inputs IH]; intros s Hsch Hop Hcalls;
    cbn [worker_run].
  - intros [= <-]. auto.
  - pose proof (fun s1 => worker_iteration_read_only cur pareto_cdf cfg draw now
                            s s1 Hsch Hop) as Hstep.
    destruct (worker_iteration cur pareto_cdf cfg draw now s) as [s1|s1|s1|];
      cbn [result_state] in *.
    + destruct (Hstep s1 eq_refl) as (Hs1 & Ho1 & Hc1 & Hi1 & Hu1). intros Hres.
      rewrite <- Hi1, <- Hu1. apply IH; auto.
    + intros [= <-]. destruct (Hstep s1 eq_refl) as (_ & _ & Hc1 & Hi1 & Hu1). auto.
    + intros [= <-]. destruct (Hstep s1 eq_refl) as (_ & _ & Hc1 & Hi1 & Hu1). auto.
    + discriminate.
Qed.

Lemma read_thread_never_writes_witness :
  run_mix_inserts (mix_cfg 0 0) = 0 /\ run_mix_updates (mix_cfg 0 0) = 0 /\
  exists s',
    result_state
      (read_thread ok_cursor (fun _ _ => 0) (mix_cfg 0 0) []
         [(12345, Timespec 1 0); (678, Timespec 2 0)]
         (thread_init (mix_cfg 0 0)) (Globals 0 0 0) O (Timespec 0 0)) = Some s' /\
    Forall (fun c => is_write_call c = false) (w_calls s') /\
    ops (thread_insert (w_thread s')) = ops (thread_insert (thread_init (mix_cfg 0 0))) /\
    ops (thread_update (w_thread s')) = ops (thread_update (thread_init (mix_cfg 0 0))).
Proof.
  split; [reflexivity|]. split; [reflexivity|].
  eexists. split; [vm_compute; reflexivity|].
  apply (read_thread_never_writes ok_cursor (fun _ _ => 0) (mix_cfg 0 0) []
           [(12345, Timespec 1 0); (678, Timespec 2 0)]
           (thread_init (mix_cfg 0 0)) (Globals 0 0 0) O (Timespec 0 0));
    reflexivity.
Defined.

Lemma worker_iteration_insert {St : Type} (cur : WT_CURSOR St)
    (pareto_cdf : Z -> Z -> Z) (cfg : CONFIG) (draw : Z) (now : timespec)
    (s : worker_state St) :
  (forall k v st, fst (cursor_insert cur k v st) = 0) ->
  random_range cfg = 0 -> 0 <= icount cfg ->
  latency_aggregate cfg <= UINT32_MAX ->
  schedule (w_thread s) = replicate SCHEDULE_SLOTS WORKER_INSERT ->
  worker_inv cfg s -> g_stop (w_glob s) = 0 ->
  0 <= g_insert_key (w_glob s) ->
  icount cfg + g_insert_key (w_glob s) + 1 < 2 ^ 64 ->
  0 <= ops (thread_insert (w_thread s)) < 2 ^ 64 - 1 ->
  exists s',
    worker_iteration cur pareto_cdf cfg draw now s = WContinue s' /\
    worker_inv cfg s' /\
    schedule (w_thread s') = replicate SCHEDULE_SLOTS WORKER_INSERT /\
    g_stop (w_glob s') = 0 /\ g_error (w_glob s') = g_error (w_glob s) /\
    g_insert_key (w_glob s') = g_insert_key (w_glob s) + 1 /\
    w_calls s'
      = w_calls s ++ [CallInsert (icount cfg + g_insert_key (w_glob s) + 1)
                                 (value_buf (w_thread s))] /\
    value_buf (w_thread s') = value_buf (w_thread s) /\
    ops (thread_insert (w_thread s')) = ops (thread_insert (w_thread s)) + 1 /\
    ops (thread_read (w_thread s')) = ops (thread_read (w_thread s)) /\
    ops (thread_update (w_thread s')) = ops (thread_update (w_thread s)).
Proof.
  intros Hins Hrr Hic Hla Hsch Hinv Hstop Hkey Hfit Hops.
  pose proof Hinv as (Hop & _).
  assert (Hslot : schedule (w_thread s) !! w_op s = Some WORKER_INSERT)
    by (rewrite Hsch; now apply lookup_replicate_2).
  assert (Hnext : worker_next_val pareto_cdf cfg WORKER_INSERT draw (w_glob s)
            = NextVal (icount cfg + g_insert_key (w_glob s) + 1)
                      (Globals (g_insert_key (w_glob s) + 1)
                               (g_error (w_glob s)) (g_stop (w_glob s)))).
  { unfold worker_next_val, get_next_incr. cbn [orb Z.eqb WORKER_INSERT Pos.eqb].
    rewrite Hrr. cbn [Z.eqb].
    rewrite (wrap64_small (g_insert_key (w_glob s) + 1)) by lia.
    rewrite wrap64_small by lia. f_equal. lia. }
  rewrite (worker_iteration_op cur pareto_cdf cfg draw now s _ _ _ Hstop Hslot Hnext)
    by (apply worker_op_no_overrun; left; discriminate).
  set (key := icount cfg + g_insert_key (w_glob s) + 1).
  set (g1 := Globals _ _ _).
  assert (Hr : worker_op cur cfg WORKER_INSERT key (value_buf (w_thread s))
                 (w_store s) (w_calls s)
               = OpResult (Some TrkInsert) (value_buf (w_thread s))
                   (snd (cursor_insert cur key (value_buf (w_thread s)) (w_store s)))
                   (w_calls s ++ [CallInsert key (value_buf (w_thread s))]) false).
  { unfold worker_op. decide_tags. unfold worker_insert.
    pose proof (Hins key (value_buf (w_thread s)) (w_store s)) as Hret.
    destruct (cursor_insert cur key _ _) as [ret st1]. cbn in Hret. now subst ret. }
  cbv zeta. rewrite Hr. cbn [or_trk].
  set (r := OpResult _ _ _ _ _).
  destruct (worker_account_inv cfg s g1 r TrkInsert Hinv Hla)
    as (H1 & H2 & H3 & H4 & H5 & H6).
  destruct (worker_latency_inv cfg now _ H1 H2 H3 H4 H5 H6)
    as (s' & Hl & Hinv' & Hsch' & Hvb' & Hg' & _ & Hc').
  destruct (worker_latency_frame _ _ _ _ Hl) as (_ & _ & _ & Hro & Hio & Huo).
  rewrite Hl. exists s'. split; [reflexivity|]. split; [exact Hinv'|].
  rewrite Hsch', Hg', Hc', Hvb', Hro, Hio, Huo. cbn.
  rewrite wrap64_small by lia. repeat split; auto.
Qed.

(** X14: without a mix and without a fixed range, an insert thread on a
    store that accepts every insert extends the table key by key.  Started
    with the insert counter at [k], after [n] iterations it has inserted
    exactly the keys [icount + k + 1], ..., [icount + k + n], in this
    order and without any search, the counter is at [k + n], its insert
    track has counted [n] more operations, and it is still running with no
    flag set. *)
Theorem insert_thread_consecutive_keys {St : Type} (cur : WT_CURSOR St)
    (pareto_cdf : Z -> Z -> Z) (cfg : CONFIG) (run_mix_ops : list Z)
    (inputs : list (Z * timespec)) (th : CONFIG_THREAD) (g : globals)
    (st : St) (t0 : timespec) :
  run_mix_inserts cfg = 0 -> run_mix_updates cfg = 0 ->
  insert_rmw cfg = false -> random_range cfg = 0 ->
  (forall k v s, fst (cursor_insert cur k v s) = 0) ->
  0 <= icount cfg -> latency_aggregate cfg <= UINT32_MAX ->
  aggregated (thread_read th) = 0 -> aggregated (thread_insert th) = 0 ->
  aggregated (thread_update th) = 0 ->
  g_stop g = 0 -> 0 <= g_insert_key g -> 0 <= ops (thread_insert th) ->
  icount cfg + g_insert_key g + Z.of_nat (length inputs) < 2 ^ 64 ->
  ops (thread_insert th) + Z.of_nat (length inputs) < 2 ^ 64 ->
  exists s',
    insert_thread cur pareto_cdf cfg run_mix_ops inputs th g st t0 = WContinue s' /\
    g_insert_key (w_glob s') = g_insert_key g + Z.of_nat (length inputs) /\
    g_stop (w_glob s') = 0 /\ g_error (w_glob s') = g_error g /\
    w_calls s'
      = map (fun j => CallInsert (icount cfg + g_insert_key g + Z.of_nat j)
                                 (value_buf th))
            (seq 1 (length inputs)) /\
    ops (thread_insert (w_thread s'))
      = ops (thread_insert th) + Z.of_nat (length inputs).
Proof.
  intros Hmi Hmu Hrmw Hrr Hins Hic Hla Har Hai Hau Hstop Hkey Hops Hfit Hofit.
  unfold insert_thread. rewrite Hrmw.
  set (s0 := worker_start (op_setup cfg WORKER_INSERT run_mix_ops th) g st t0).
  assert (Hsch : schedule (w_thread s0) = replicate SCHEDULE_SLOTS WORKER_INSERT)
    by (unfold s0, op_setup; cbn; now rewrite Hmi, Hmu).
  assert (Hinv : worker_inv cfg s0).
  { unfold worker_inv, thread_pending, s0, worker_start, op_setup, SCHEDULE_SLOTS.
    cbn. rewrite Har, Hai, Hau. repeat split; lia. }
  change (w_calls s0 ++
            map (fun j => CallInsert (icount cfg + g_insert_key (w_glob s0) + Z.of_nat j)
                                     (value_buf (w_thread s0)))
                (seq 1 (length inputs)))
    with (map (fun j => CallInsert (icount cfg + g_insert_key g + Z.of_nat j)
                                   (value_buf th))
              (seq 1 (length inputs))) in |- *.
  change (g_insert_key g) with (g_insert_key (w_glob s0)) in *.
  change (g_error g) with (g_error (w_glob s0)).
  change (g_stop g) with (g_stop (w_glob s0)) in Hstop.
  change (thread_insert th) with (thread_insert (w_thread s0)) in *.
  change (value_buf th) with (value_buf (w_thread s0)).
  change (map _ (seq 1 (length inputs)))
    with (w_calls s0 ++
          map (fun j => CallInsert (icount cfg + g_insert_key (w_glob s0) + Z.of_nat j)
                                   (value_buf (w_thread s0)))
              (seq 1 (length inputs))).
  clearbody s0. clear Har Hai Hau. revert s0 Hsch Hinv Hstop Hkey Hops Hfit Hofit.
  induction inputs as [|[draw now] inputs IH];
    intros s Hsch Hinv Hstop Hkey Hops Hfit Hofit; cbn [worker_run length] in *.
  - exists s. cbn [seq map Z.of_nat]. rewrite app_nil_r, !Z.add_0_r.
    repeat split; auto.
  - destruct (worker_iteration_insert cur pareto_cdf cfg draw now s Hins Hrr Hic
                Hla Hsch Hinv Hstop Hkey ltac:(lia) ltac:(lia))
      as (s1 & Hit & Hinv1 & Hsch1 & Hstop1 & Herr1 & Hkey1 & Hc1 & Hvb1 & Ho1 & _).
    rewrite Hit.
    destruct (IH s1 Hsch1 Hinv1 Hstop1 ltac:(lia) ltac:(lia) ltac:(lia) ltac:(lia))
      as (s' & Hrun & Hk' & Hs' & He' & Hc' & Ho').
    exists s'. split; [exact Hrun|]. split; [lia|]. split; [exact Hs'|].
    split; [congruence|]. split; [|lia].
    rewrite Hc', Hc1, Hvb1, Hkey1, <- app_assoc. f_equal.
    cbn [seq map app].
    replace (icount cfg + g_insert_key (w_glob s) + Z.of_nat 1)
      with (icount cfg + g_insert_key (w_glob s) + 1) by lia.
    apply (f_equal (cons _)).
    rewrite <- (seq_shift (length inputs) 1), map_map.
    apply map_ext. intros j.
    replace (icount cfg + (g_insert_key (w_glob s) + 1) + Z.of_nat j)
      with (icount cfg + g_insert_key (w_glob s) + Z.of_nat (S j)) by lia.
    reflexivity.
Qed.

Lemma insert_thread_consecutive_keys_witness :
  (forall k v s, fst (cursor_insert ok_cursor k v s) = 0) /\
  exists s',
    insert_thread ok_cursor (fun _ _ => 0) populate_cfg []
      [(0, Timespec 1 0); (0, Timespec 2 0); (0, Timespec 3 0)]
      (thread_init populate_cfg) (Globals 7 0 0) O (Timespec 0 0) = WContinue s' /\
    g_insert_key (w_glob s') = 7 + Z.of_nat 3 /\
    g_stop (w_glob s') = 0 /\ g_error (w_glob s') = 0 /\
    w_calls s'
      = map (fun j => CallInsert (icount populate_cfg + 7 + Z.of_nat j)
                                 (value_buf (thread_init populate_cfg)))
            (seq 1 3) /\
    ops (thread_insert (w_thread s'))
      = ops (thread_insert (thread_init populate_cfg)) + Z.of_nat 3.
Proof.
  split; [reflexivity|].
  apply (insert_thread_consecutive_keys ok_cursor (fun _ _ => 0) populate_cfg []
           [(0, Timespec 1 0); (0, Timespec 2 0); (0, Timespec 3 0)]
           (thread_init populate_cfg) (Globals 7 0 0) O (Timespec 0 0));
    try reflexivity; now vm_compute.
Defined.


(** ** Populate: transactions *)

Lemma call_count_app (f : store_call -> bool) (l1 l2 : list store_call) :
  call_count f (l1 ++ l2) = call_count f l1 + call_count f l2.
Proof.
  unfold call_count. rewrite List.filter_app, length_app. lia.
Qed.

Lemma txn_trace_app (T : Z) (l : list store_call) (c : store_call) :
  txn_trace T (l ++ [c]) = txn_step T (txn_trace T l) c.
Proof. unfold txn_trace. now rewrite fold_left_app. Qed.

Lemma ceil_div_next (x T : Z) :
  0 < T -> (x + T + T - 1) / T = (x + T - 1) / T + 1.
Proof.
  intros HT. replace (x + T + T - 1) with (x + T - 1 + 1 * T) by lia.
  apply Z.div_add. lia.
Qed.

Lemma ceil_div_part (c T : Z) : 0 < c <= T -> (c + T - 1) / T = 1.
Proof.
  intros H. replace (c + T - 1) with (c - 1 + 1 * T) by lia.
  rewrite Z.div_add by lia. rewrite Z.div_small by lia. reflexivity.
Qed.

(** The transactional loop, from any point of its run: [n] keys to go,
    [opcount] inserts in the open transaction. *)
Lemma populate_txn_balance {St : Type} (cur : WT_CURSOR St) (cfg : CONFIG)
    (n : nat) :
  (forall k v st, fst (cursor_insert cur k v st) = 0) ->
  (forall st, fst (session_begin_transaction cur st) = 0) ->
  0 <= icount cfg < 2 ^ 32 ->
  0 < populate_ops_per_txn cfg < 2 ^ 32 ->
  forall (fuel : nat) (s : populate_state St),
  0 <= g_insert_key (p_glob s) ->
  Z.of_nat n = icount cfg - g_insert_key (p_glob s) ->
  (p_intxn s = false -> p_opcount s = 0) ->
  (p_intxn s = true -> 0 < p_opcount s < populate_ops_per_txn cfg) ->
  txn_trace (populate_ops_per_txn cfg) (p_calls s) = txn_view s ->
  (n < fuel)%nat ->
  exists s',
    populate_txn fuel cur cfg s = Some (PopDone s') /\
    p_intxn s' = false /\
    txn_trace (populate_ops_per_txn cfg) (p_calls s') = TxnIdle /\
    call_count is_commit_call (p_calls s')
      = call_count is_commit_call (p_calls s)
        + ((Z.of_nat n + p_opcount s + populate_ops_per_txn cfg - 1)
           / populate_ops_per_txn cfg) /\
    call_count is_begin_call (p_calls s')
      = call_count is_begin_call (p_calls s)
        + ((Z.of_nat n + p_opcount s + populate_ops_per_txn cfg - 1)
           / populate_ops_per_txn cfg)
        - (if p_intxn s then 1 else 0) /\
    call_count is_insert_call (p_calls s')
      = call_count is_insert_call (p_calls s) + Z.of_nat n.
Proof.
  intros Hins Hbeg Hic HT. set (T := populate_ops_per_txn cfg) in *.
  induction n as [|n IH]; intros fuel s Hk Hn Hidle Hopen Htr Hf;
    (destruct fuel as [|fuel]; [lia|]); cbn [populate_txn get_next_incr];
    rewrite wrap64_small by lia.
  - destruct (Z.ltb_spec (icount cfg) (g_insert_key (p_glob s) + 1)); [|lia].
    eexists. split; [reflexivity|]. unfold txn_view in Htr.
    destruct (p_intxn s) eqn:Hin.
    + specialize (Hopen eq_refl). unfold populate_commit.
      destruct (session_commit_transaction cur _) as [r st1].
      cbn [p_intxn p_calls p_store p_glob p_thread p_opcount].
      rewrite txn_trace_app, !call_count_app, Htr. cbn [txn_step].
      destruct (Z.ltb_spec 0 (p_opcount s)); [|lia].
      change (Z.of_nat 0) with 0. rewrite Z.add_0_l.
      rewrite ceil_div_part by lia.
      change (call_count is_commit_call [CallCommit]) with 1.
      change (call_count is_begin_call [CallCommit]) with 0.
      change (call_count is_insert_call [CallCommit]) with 0.
      repeat split; lia.
    + specialize (Hidle eq_refl). cbn [p_intxn p_calls].
      rewrite Hidle. change (Z.of_nat 0) with 0.
      rewrite (Z.div_small (0 + 0 + T - 1) T) by lia.
      repeat split; [exact Htr|lia|lia|lia].
  - destruct (Z.ltb_spec (icount cfg) (g_insert_key (p_glob s) + 1)); [lia|].
    set (c := p_opcount s) in *.
    assert (Hc : 0 <= c < T)
      by (destruct (p_intxn s); [specialize (Hopen eq_refl)
                                |specialize (Hidle eq_refl)]; lia).
    assert (Hbegin : exists st0 calls0,
      (if p_intxn s then (0, p_store s, p_calls s)
       else let '(b, st) := session_begin_transaction cur (p_store s) in
            (b, st, p_calls s ++ [CallBegin])) = (0, st0, calls0) /\
      txn_trace T calls0 = TxnOpen c /\
      call_count is_commit_call calls0 = call_count is_commit_call (p_calls s) /\
      call_count is_begin_call calls0
        = call_count is_begin_call (p_calls s)
          + (if p_intxn s then 0 else 1) /\
      call_count is_insert_call calls0 = call_count is_insert_call (p_calls s)).
    { unfold txn_view in Htr. destruct (p_intxn s).
      - eexists _, _. split; [reflexivity|]. repeat split; [exact Htr|lia].
      - pose proof (Hbeg (p_store s)) as Hb.
        destruct (session_begin_transaction cur (p_store s)) as [b st].
        cbn in Hb. subst b. eexists _, _. split; [reflexivity|].
        rewrite txn_trace_app, !call_count_app, Htr, (Hidle eq_refl).
        change (call_count is_commit_call [CallBegin]) with 0.
        change (call_count is_insert_call [CallBegin]) with 0.
        repeat split; lia. }
    destruct Hbegin as (st0 & calls0 & -> & Htr0 & Hcm0 & Hbg0 & Hin0).
    cbn [Z.eqb negb].
    pose proof (Hins (g_insert_key (p_glob s) + 1)
                  (value_buf (p_thread s)) st0) as Hret.
    destruct (cursor_insert cur _ _ _) as [ret st1]. cbn in Hret. subst ret.
    cbn [Z.eqb negb p_opcount p_thread]. fold c.
    rewrite wrap32_small by lia.
    set (calls1 := calls0 ++ [CallInsert _ _]).
    assert (Htr1 : txn_trace T calls1 = TxnOpen (c + 1)).
    { unfold calls1. rewrite txn_trace_app, Htr0. cbn [txn_step].
      destruct (Z.ltb_spec c T); [reflexivity|lia]. }
    assert (Hcm1 : call_count is_commit_call calls1
                   = call_count is_commit_call (p_calls s))
      by (unfold calls1; rewrite call_count_app, Hcm0;
          change (call_count is_commit_call [CallInsert _ _]) with 0; lia).
    assert (Hbg1 : call_count is_begin_call calls1
                   = call_count is_begin_call (p_calls s)
                     + (if p_intxn s then 0 else 1))
      by (unfold calls1; rewrite call_count_app, Hbg0;
          change (call_count is_begin_call [CallInsert _ _]) with 0; lia).
    assert (Hin1 : call_count is_insert_call calls1
                   = call_count is_insert_call (p_calls s) + 1)
      by (unfold calls1; rewrite call_count_app, Hin0;
          change (call_count is_insert_call [CallInsert _ _]) with 1; lia).
    clearbody calls1. fold T.
    destruct (Z.ltb_spec (c + 1) T) as [Hlt|Hge].
    + match goal with |- context [populate_txn fuel cur cfg ?s2] =>
        destruct (IH fuel s2) as (s' & Hrun & Hin' & Htr' & Hcm' & Hbg' & Hi');
          cbn [p_glob p_calls p_intxn p_opcount g_insert_key] in *;
          try lia; try discriminate; try (intros _; lia)
      end.
      { unfold txn_view. cbn [p_intxn p_opcount]. exact Htr1. }
      exists s'. split; [exact Hrun|]. split; [exact Hin'|].
      split; [exact Htr'|].
      replace (Z.of_nat (S n) + c + T - 1) with (Z.of_nat n + (c + 1) + T - 1)
        by lia.
      split; [lia|]. split; [destruct (p_intxn s); lia|lia].
    + assert (HcT : c + 1 = T) by lia.
      unfold populate_commit.
      cbn [p_store p_calls p_thread p_glob p_opcount].
      destruct (session_commit_transaction cur st1) as [r st2].
      match goal with |- context [populate_txn fuel cur cfg ?s2] =>
        destruct (IH fuel s2) as (s' & Hrun & Hin' & Htr' & Hcm' & Hbg' & Hi');
          cbn [p_glob p_calls p_intxn p_opcount g_insert_key] in *;
          try lia; try discriminate; try (intros _; reflexivity)
      end.
      { unfold txn_view. cbn [p_intxn p_calls].
        rewrite txn_trace_app, Htr1. cbn [txn_step].
        destruct (Z.ltb_spec 0 (c + 1)); [reflexivity|lia]. }
      exists s'. split; [exact Hrun|]. split; [exact Hin'|].
      split; [exact Htr'|].
      rewrite call_count_app in Hcm', Hbg', Hi'.
      change (call_count is_commit_call [CallCommit]) with 1 in Hcm'.
      change (call_count is_begin_call [CallCommit]) with 0 in Hbg'.
      change (call_count is_insert_call [CallCommit]) with 0 in Hi'.
      replace (Z.of_nat (S n) + c + T - 1) with (Z.of_nat n + T + T - 1) by lia.
      rewrite ceil_div_next by lia.
      replace (Z.of_nat n + 0 + T - 1) with (Z.of_nat n + T - 1) in Hcm', Hbg'
        by lia.
      split; [lia|]. split; [destruct (p_intxn s); lia|lia].
Qed.

(** X15: with [populate_ops_per_txn] set to [T], a populate thread on a
    store that accepts every insert and every transaction start wraps its
    inserts in transactions and leaves none open: it ends by its [break],
    and its calls form a sequence of transactions, each one a begin, at
    least one and at most [T] inserts, and a commit, with no call outside
    them. *)
Theorem populate_thread_transactions_closed {St : Type} (cur : WT_CURSOR St)
    (cfg : CONFIG) (th : CONFIG_THREAD) (g : globals) (st : St) (fuel : nat) :
  (forall k v s, fst (cursor_insert cur k v s) = 0) ->
  (forall s, fst (session_begin_transaction cur s) = 0) ->
  0 <= icount cfg < 2 ^ 32 ->
  0 < populate_ops_per_txn cfg < 2 ^ 32 ->
  0 <= g_insert_key g <= icount cfg ->
  (Z.to_nat (icount cfg - g_insert_key g) < fuel)%nat ->
  exists s,
    populate_thread fuel cur cfg th g st = Some (PopDone s) /\
    p_intxn s = false /\
    txn_trace (populate_ops_per_txn cfg) (p_calls s) = TxnIdle.
Proof.
  intros Hins Hbeg Hic HT Hk Hf. unfold populate_thread.
  destruct (Z.eqb_spec (populate_ops_per_txn cfg) 0) as [H0|_]; [lia|].
  destruct (populate_txn_balance cur cfg (Z.to_nat (icount cfg - g_insert_key g))
              Hins Hbeg Hic HT fuel (Populate th g st [] false 0))
    as (s & Hrun & Hin & Htr & _);
    cbn [p_glob p_intxn p_opcount p_calls]; try lia; try discriminate;
    try reflexivity.
  exists s. auto.
Qed.

Lemma populate_thread_transactions_closed_witness :
  exists s,
    populate_thread 8 ok_cursor (Config 7 100 0 0 false false 0 0 1 3)
      (thread_init populate_cfg) (Globals 0 0 0) O = Some (PopDone s) /\
    p_intxn s = false /\
    txn_trace 3 (p_calls s) = TxnIdle.
Proof.
  apply (populate_thread_transactions_closed ok_cursor
           (Config 7 100 0 0 false false 0 0 1 3) (thread_init populate_cfg)
           (Globals 0 0 0) O 8);
    try reflexivity; now vm_compute.
Defined.


(** X16: in the same run the thread starts and commits the same number of
    transactions, the number of keys it inserts divided by [T] and rounded
    up: full transactions of [T] inserts and, when keys are left over, one
    last shorter transaction, committed after the loop. *)
Theorem populate_thread_commit_count {St : Type} (cur : WT_CURSOR St)
    (cfg : CONFIG) (th : CONFIG_THREAD) (g : globals) (st : St) (fuel : nat) :
  (forall k v s, fst (cursor_insert cur k v s) = 0) ->
  (forall s, fst (session_begin_transaction cur s) = 0) ->
  0 <= icount cfg < 2 ^ 32 ->
  0 < populate_ops_per_txn cfg < 2 ^ 32 ->
  0 <= g_insert_key g <= icount cfg ->
  (Z.to_nat (icount cfg - g_insert_key g) < fuel)%nat ->
  exists s,
    populate_thread fuel cur cfg th g st = Some (PopDone s) /\
    call_count is_insert_call (p_calls s) = icount cfg - g_insert_key g /\
    call_count is_commit_call (p_calls s)
      = (icount cfg - g_insert_key g + populate_ops_per_txn cfg - 1)
        / populate_ops_per_txn cfg /\
    call_count is_begin_call (p_calls s)
      = call_count is_commit_call (p_calls s).
Proof.
  intros Hins Hbeg Hic HT Hk Hf. unfold populate_thread.
  destruct (Z.eqb_spec (populate_ops_per_txn cfg) 0) as [H0|_]; [lia|].
  destruct (populate_txn_balance cur cfg (Z.to_nat (icount cfg - g_insert_key g))
              Hins Hbeg Hic HT fuel (Populate th g st [] false 0))
    as (s & Hrun & Hin & Htr & Hcm & Hbg & Hi);
    cbn [p_glob p_intxn p_opcount p_calls] in *; try lia; try discriminate;
    try reflexivity.
  exists s. split; [exact Hrun|].
  change (call_count is_commit_call []) with 0 in Hcm.
  change (call_count is_begin_call []) with 0 in Hbg.
  change (call_count is_insert_call []) with 0 in Hi.
  rewrite Z2Nat.id in Hcm, Hbg, Hi by lia.
  replace (icount cfg - g_insert_key g + 0 + populate_ops_per_txn cfg - 1)
    with (icount cfg - g_insert_key g + populate_ops_per_txn cfg - 1)
    in Hcm, Hbg by lia.
  split; [lia|]. split; lia.
Qed.

Lemma populate_thread_commit_count_witness :
  exists s,
    populate_thread 8 ok_cursor (Config 7 100 0 0 false false 0 0 1 3)
      (thread_init populate_cfg) (Globals 0 0 0) O = Some (PopDone s) /\
    call_count is_insert_call (p_calls s) = 7 - 0 /\
    call_count is_commit_call (p_calls s) = (7 - 0 + 3 - 1) / 3 /\
    call_count is_begin_call (p_calls s)
      = call_count is_commit_call (p_calls s).
Proof.
  apply (populate_thread_commit_count ok_cursor
           (Config 7 100 0 0 false false 0 0 1 3) (thread_init populate_cfg)
           (Globals 0 0 0) O 8);
    try reflexivity; now vm_compute.
Defined.

(** ** Populate: a failing insert *)

Lemma populate_plain_fails {St : Type} (cur : WT_CURSOR St) (cfg : CONFIG)
    (bad : Z) (n : nat) :
  (forall k v st, k <> bad -> fst (cursor_insert cur k v st) = 0) ->
  (forall v st, fst (cursor_insert cur bad v st) <> 0) ->
  0 <= icount cfg < 2 ^ 32 -> bad <= icount cfg ->
  forall (fuel : nat) (s : populate_state St),
  0 <= g_insert_key (p_glob s) ->
  Z.of_nat n = bad - 1 - g_insert_key (p_glob s) ->
  0 <= ops (thread_insert (p_thread s)) ->
  ops (thread_insert (p_thread s)) + Z.of_nat n < 2 ^ 64 ->
  (n < fuel)%nat ->
  exists s',
    populate_plain fuel cur cfg s = Some (PopFailed s') /\
    g_error (p_glob s') = 1 /\ g_stop (p_glob s') = 1 /\
    g_insert_key (p_glob s') = bad /\
    ops (thread_insert (p_thread s'))
      = ops (thread_insert (p_thread s)) + Z.of_nat n /\
    last (p_calls s') = Some (CallInsert bad (value_buf (p_thread s))).
Proof.
  intros Hgood Hbad Hic Hle.
  induction n as [|n IH]; intros fuel s Hk Hn Ho Hob Hf;
    (destruct fuel as [|fuel]; [lia|]); cbn [populate_plain get_next_incr];
    rewrite wrap64_small by lia;
    (destruct (Z.ltb_spec (icount cfg) (g_insert_key (p_glob s) + 1)); [lia|]).
  - replace (g_insert_key (p_glob s) + 1) with bad by lia.
    pose proof (Hbad (value_buf (p_thread s)) (p_store s)) as Hret.
    destruct (cursor_insert cur _ _ _) as [ret st1]. cbn [fst] in Hret.
    destruct (Z.eqb_spec ret 0) as [->|_]; [contradiction|]. cbn [negb].
    eexists. split; [reflexivity|]. cbn. rewrite last_snoc.
    repeat split; lia.
  - pose proof (Hgood (g_insert_key (p_glob s) + 1) (value_buf (p_thread s))
                  (p_store s) ltac:(lia)) as Hret.
    destruct (cursor_insert cur _ _ _) as [ret st1]. cbn [fst] in Hret.
    subst ret. cbn [Z.eqb negb].
    match goal with |- context [populate_plain fuel cur cfg ?s2] =>
      destruct (IH fuel s2) as (s' & Hrun & He & Hs & Hkey & Hops & Hlast);
        cbn [p_glob p_thread p_calls g_insert_key thread_insert_op
             thread_insert ops value_buf] in *;
        rewrite ?wrap64_small in * by lia; try lia
    end.
    exists s'. split; [exact Hrun|]. repeat split; try assumption. lia.
Qed.

Lemma populate_txn_fails {St : Type} (cur : WT_CURSOR St) (cfg : CONFIG)
    (bad : Z) (n : nat) :
  (forall k v st, k <> bad -> fst (cursor_insert cur k v st) = 0) ->
  (forall v st, fst (cursor_insert cur bad v st) <> 0) ->
  (forall st, fst (session_begin_transaction cur st) = 0) ->
  0 <= icount cfg < 2 ^ 32 -> bad <= icount cfg ->
  forall (fuel : nat) (s : populate_state St),
  0 <= g_insert_key (p_glob s) ->
  Z.of_nat n = bad - 1 - g_insert_key (p_glob s) ->
  0 <= ops (thread_insert (p_thread s)) ->
  ops (thread_insert (p_thread s)) + Z.of_nat n < 2 ^ 64 ->
  (n < fuel)%nat ->
  exists s',
    populate_txn fuel cur cfg s = Some (PopFailed s') /\
    g_error (p_glob s') = 1 /\ g_stop (p_glob s') = 1 /\
    g_insert_key (p_glob s') = bad /\
    ops (thread_insert (p_thread s'))
      = ops (thread_insert (p_thread s)) + Z.of_nat n /\
    last (p_calls s') = Some (CallInsert bad (value_buf (p_thread s))) /\
    p_intxn s' = true.
Proof.
  intros Hgood Hbad Hbeg Hic Hle.
  induction n as [|n IH]; intros fuel s Hk Hn Ho Hob Hf;
    (destruct fuel as [|fuel]; [lia|]); cbn [populate_txn get_next_incr];
    rewrite wrap64_small by lia;
    (destruct (Z.ltb_spec (icount cfg) (g_insert_key (p_glob s) + 1)); [lia|]);
    (assert (Hbegin : exists st0 calls0,
       (if p_intxn s then (0, p_store s, p_calls s)
        else let '(b, st) := session_begin_transaction cur (p_store s) in
             (b, st, p_calls s ++ [CallBegin])) = (0, st0, calls0));
     [destruct (p_intxn s); [now eexists _, _|];
      pose proof (Hbeg (p_store s)) as Hb;
      destruct (session_begin_transaction cur (p_store s)) as [b st];
      cbn in Hb; subst b; now eexists _, _|]);
    destruct Hbegin as (st0 & calls0 & ->); cbn [Z.eqb negb].
  - replace (g_insert_key (p_glob s) + 1) with bad by lia.
    pose proof (Hbad (value_buf (p_thread s)) st0) as Hret.
    destruct (cursor_insert cur _ _ _) as [ret st1]. cbn [fst] in Hret.
    destruct (Z.eqb_spec ret 0) as [->|_]; [contradiction|]. cbn [negb].
    eexists. split; [reflexivity|]. cbn. rewrite last_snoc.
    repeat split; lia.
  - pose proof (Hgood (g_insert_key (p_glob s) + 1) (value_buf (p_thread s))
                  st0 ltac:(lia)) as Hret.
    destruct (cursor_insert cur _ _ _) as [ret st1]. cbn [fst] in Hret.
    subst ret. cbn [Z.eqb negb p_opcount p_thread].
    assert (Hstep : forall s2 : populate_state St,
      g_insert_key (p_glob s2) = g_insert_key (p_glob s) + 1 ->
      ops (thread_insert (p_thread s2)) = ops (thread_insert (p_thread s)) + 1 ->
      value_buf (p_thread s2) = value_buf (p_thread s) ->
      exists s',
        populate_txn fuel cur cfg s2 = Some (PopFailed s') /\
        g_error (p_glob s') = 1 /\ g_stop (p_glob s') = 1 /\
        g_insert_key (p_glob s') = bad /\
        ops (thread_insert (p_thread s'))
          = ops (thread_insert (p_thread s)) + Z.of_nat (S n) /\
        last (p_calls s') = Some (CallInsert bad (value_buf (p_thread s))) /\
        p_intxn s' = true).
    { intros s2 H2k H2o H2v.
      destruct (IH fuel s2) as (s' & Hrun & He & Hs & Hkey & Hops & Hlast & Hin);
        try lia.
      exists s'. split; [exact Hrun|]. rewrite <- H2v.
      repeat split; try assumption. lia. }
    destruct (_ <? populate_ops_per_txn cfg); apply Hstep;
      unfold populate_commit;
      try destruct (session_commit_transaction cur _);
      cbn [p_glob p_thread g_insert_key thread_insert_op thread_insert ops
           value_buf];
      rewrite ?wrap64_small by lia; reflexivity.
Qed.

(** X17: when the store refuses one key, and accepts the keys before it,
    the populate thread stops at once, in either mode: it leaves through
    [err:] with [g_error] and [g_stop] set, the insert counter stays at the
    refused key, only the inserts that succeeded have been counted, and the
    refused insert is the last call it makes: it inserts no further key and
    does not commit. *)
Theorem populate_thread_stops_at_failed_insert {St : Type}
    (cur : WT_CURSOR St) (cfg : CONFIG) (bad : Z) (th : CONFIG_THREAD)
    (g : globals) (st : St) (fuel : nat) :
  (forall k v s, k <> bad -> fst (cursor_insert cur k v s) = 0) ->
  (forall v s, fst (cursor_insert cur bad v s) <> 0) ->
  (forall s, fst (session_begin_transaction cur s) = 0) ->
  0 <= icount cfg < 2 ^ 32 ->
  0 <= g_insert_key g < bad -> bad <= icount cfg ->
  0 <= ops (thread_insert th) < 2 ^ 32 ->
  (Z.to_nat (bad - 1 - g_insert_key g) < fuel)%nat ->
  exists s,
    populate_thread fuel cur cfg th g st = Some (PopFailed s) /\
    g_error (p_glob s) = 1 /\ g_stop (p_glob s) = 1 /\
    g_insert_key (p_glob s) = bad /\
    ops (thread_insert (p_thread s))
      = ops (thread_insert th) + (bad - 1 - g_insert_key g) /\
    last (p_calls s) = Some (CallInsert bad (value_buf th)).
Proof.
  intros Hgood Hbad Hbeg Hic Hk Hle Ho Hf. unfold populate_thread.
  destruct (populate_ops_per_txn cfg =? 0).
  - destruct (populate_plain_fails cur cfg bad (Z.to_nat (bad - 1 - g_insert_key g))
                Hgood Hbad Hic Hle fuel (Populate th g st [] false 0))
      as (s & Hrun & He & Hs & Hkey & Hops & Hlast);
      cbn [p_glob p_thread] in *; try lia.
    exists s. split; [exact Hrun|]. repeat split; try assumption. lia.
  - destruct (populate_txn_fails cur cfg bad (Z.to_nat (bad - 1 - g_insert_key g))
                Hgood Hbad Hbeg Hic Hle fuel (Populate th g st [] false 0))
      as (s & Hrun & He & Hs & Hkey & Hops & Hlast & _);
      cbn [p_glob p_thread] in *; try lia.
    exists s. split; [exact Hrun|]. repeat split; try assumption. lia.
Qed.

Lemma populate_thread_stops_at_failed_insert_witness :
  exists s,
    populate_thread 5 (failing_cursor 5) (Config 7 100 0 0 false false 0 0 1 3)
      (thread_init populate_cfg) (Globals 0 0 0) O = Some (PopFailed s) /\
    g_error (p_glob s) = 1 /\ g_stop (p_glob s) = 1 /\
    g_insert_key (p_glob s) = 5 /\
    ops (thread_insert (p_thread s))
      = ops (thread_insert (thread_init populate_cfg)) + (5 - 1 - 0) /\
    last (p_calls s)
      = Some (CallInsert 5 (value_buf (thread_init populate_cfg))).
Proof.
  apply (populate_thread_stops_at_failed_insert (failing_cursor 5)
           (Config 7 100 0 0 false false 0 0 1 3) 5 (thread_init populate_cfg)
           (Globals 0 0 0) O 5).
  - intros k v s Hk. cbn. destruct (Z.eqb_spec k 5); [contradiction|reflexivity].
  - intros v s. cbn. discriminate.
  - reflexivity.
  - now vm_compute.
  - now vm_compute.
  - now vm_compute.
  - now vm_compute.
  - vm_compute. lia.
Defined.

(** ** Populate: any table size *)

(** X18: for every table size and every value [k <= icount] that the
    shared insert counter has when the thread enters its loop, a populate
    thread on a store that accepts every call inserts exactly the keys
    [k + 1], ..., [icount], each once and in ascending order, counts one
    operation for each of them, and leaves the counter at [icount + 1];
    with nothing left to insert ([k = icount]) it inserts nothing and still
    moves the counter. *)
Theorem populate_thread_fills_the_rest {St : Type} (cur : WT_CURSOR St)
    (cfg : CONFIG) (th : CONFIG_THREAD) (g : globals) (st : St) (fuel : nat) :
  (forall k v s, fst (cursor_insert cur k v s) = 0) ->
  (forall s, fst (session_begin_transaction cur s) = 0) ->
  0 <= icount cfg < 2 ^ 32 ->
  0 <= g_insert_key g <= icount cfg ->
  0 <= ops (thread_insert th) < 2 ^ 32 ->
  (Z.to_nat (icount cfg - g_insert_key g) < fuel)%nat ->
  exists s,
    populate_thread fuel cur cfg th g st = Some (PopDone s) /\
    g_insert_key (p_glob s) = icount cfg + 1 /\
    g_error (p_glob s) = g_error g /\ g_stop (p_glob s) = g_stop g /\
    inserted_keys (p_calls s)
      = map (fun j => g_insert_key g + Z.of_nat j)
            (seq 1 (Z.to_nat (icount cfg - g_insert_key g))) /\
    ops (thread_insert (p_thread s))
      = ops (thread_insert th) + (icount cfg - g_insert_key g).
Proof.
  intros Hins Hbeg Hic Hk Ho Hf. unfold populate_thread.
  set (n := Z.to_nat (icount cfg - g_insert_key g)) in *.
  assert (Hrun : exists s,
    (if populate_ops_per_txn cfg =? 0
     then populate_plain fuel cur cfg (Populate th g st [] false 0)
     else populate_txn fuel cur cfg (Populate th g st [] false 0))
    = Some (PopDone s) /\
    populated cfg (Populate th g st [] false 0) s n).
  { destruct (populate_ops_per_txn cfg =? 0);
      [apply populate_plain_run|apply populate_txn_run];
      cbn [p_glob p_thread g_insert_key]; first [assumption|lia]. }
  destruct Hrun as (s & -> & Hkey & He & Hs & Hops & Hkeys).
  cbn [p_glob p_thread p_calls inserted_keys flat_map app] in *.
  exists s. split; [reflexivity|]. repeat split; try assumption. lia.
Qed.

Lemma populate_thread_fills_the_rest_witness :
  exists s,
    populate_thread 5 ok_cursor (Config 7 100 0 0 false false 0 0 1 3)
      (thread_init populate_cfg) (Globals 3 0 0) O = Some (PopDone s) /\
    g_insert_key (p_glob s) = 7 + 1 /\
    g_error (p_glob s) = 0 /\ g_stop (p_glob s) = 0 /\
    inserted_keys (p_calls s)
      = map (fun j => 3 + Z.of_nat j) (seq 1 (Z.to_nat (7 - 3))) /\
    ops (thread_insert (p_thread s))
      = ops (thread_insert (thread_init populate_cfg)) + (7 - 3).
Proof.
  apply (populate_thread_fills_the_rest ok_cursor
           (Config 7 100 0 0 false false 0 0 1 3) (thread_init populate_cfg)
           (Globals 3 0 0) O 5);
    try reflexivity; try (now vm_compute).
Defined.

(** ** The wait loop of [execute_workload] *)

Lemma workload_run_app (rc : RUN_CONFIG) (l1 l2 : list workload_tick) :
  forall s : workload_state,
  workload_run rc (l1 ++ l2) s
  = match workload_run rc l1 s with
    | WlRunning s' => workload_run rc l2 s'
    | done => done
    end.
Proof.
  induction l1 as [|t l1 IH]; intros s; cbn [app workload_run]; [reflexivity|].
  destruct (workload_step rc t s); [apply IH|reflexivity].
Qed.

Lemma workload_run_one (rc : RUN_CONFIG) (t : workload_tick)
    (l : list workload_tick) (s s' : workload_state) (why : workload_exit) :
  workload_step rc t s = WlDone why s' ->
  workload_run rc (t :: l) s = WlDone why s'.
Proof. intros H. cbn [workload_run]. now rewrite H. Qed.

Lemma div_mod_succ (n R : Z) :
  0 < R -> 0 <= n ->
  (n mod R + 1 < R -> (n + 1) / R = n / R /\ (n + 1) mod R = n mod R + 1) /\
  (n mod R + 1 = R -> (n + 1) / R = n / R + 1 /\ (n + 1) mod R = 0).
Proof.
  intros HR Hn. pose proof (Z.div_mod n R ltac:(lia)) as Hdm.
  pose proof (Z.mod_pos_bound n R HR) as Hm.
  split; intros H; split; symmetry.
  - apply (Z.div_unique (n + 1) R (n / R) (n mod R + 1)); lia.
  - apply (Z.mod_unique (n + 1) R (n / R) (n mod R + 1)); lia.
  - apply (Z.div_unique (n + 1) R (n / R + 1) 0); lia.
  - apply (Z.mod_unique (n + 1) R (n / R + 1) 0); lia.
Qed.

(** As long as no pass ends the loop, the loop variables are a function of
    the number of passes: [run_time] counts down, [interval] cycles through
    [report_interval], ..., 1, and a line is logged whenever it restarts. *)
Lemma workload_run_quiet (rc : RUN_CONFIG) (ticks : list workload_tick) :
  RUN_CONFIG_fits rc -> Forall (tick_quiet rc) ticks ->
  run_time rc = 0 \/ Z.of_nat (length ticks) < run_time rc ->
  exists s,
    workload_run rc ticks (workload_init rc) = WlRunning s /\
    wl_slept s = length ticks /\
    wl_run_time s
      = (if run_time rc =? 0 then 0
         else run_time rc - Z.of_nat (length ticks)) /\
    wl_interval s
      = (if report_interval rc =? 0 then 0
         else report_interval rc
              - Z.of_nat (length ticks) mod report_interval rc) /\
    Z.of_nat (length (wl_reports s))
      = (if report_interval rc =? 0 then 0
         else Z.of_nat (length ticks) / report_interval rc).
Proof.
  intros (HR & HT & HO).
  induction ticks as [|t l IH] using rev_ind; intros Hq Hlen.
  - exists (workload_init rc). split; [reflexivity|]. cbn.
    destruct (Z.eqb_spec (run_time rc) 0); destruct (Z.eqb_spec (report_interval rc) 0);
      rewrite ?Z.mod_0_l, ?Z.div_0_l by lia; repeat split; lia.
  - apply Forall_app in Hq. destruct Hq as (Hql & Hqt).
    apply Forall_inv in Hqt. destruct Hqt as (Herr & Hops).
    rewrite length_app in *. cbn [length] in *.
    destruct (IH Hql ltac:(lia)) as (s & Hrun & Hsl & Hrt & Hiv & Hrep).
    rewrite workload_run_app, Hrun. cbn [workload_run].
    set (n := Z.of_nat (length l)) in *.
    replace (Z.of_nat (length l + 1)) with (n + 1) in * by lia.
    assert (Hn : 0 <= n) by lia.
    unfold workload_step. rewrite Herr. cbn [Z.eqb negb].
    assert (Hnoops : negb (run_ops rc =? 0) && (run_ops rc <=? tick_total t)
                     = false).
    { destruct (Z.eqb_spec (run_ops rc) 0); [reflexivity|]. cbn [negb andb].
      destruct (Z.leb_spec (run_ops rc) (tick_total t)); [lia|reflexivity]. }
    assert (Htime : negb (wl_run_time s =? 0)
                    && ((if negb (wl_run_time s =? 0) then wl_run_time s - 1
                         else wl_run_time s) =? 0) = false).
    { rewrite Hrt. destruct (Z.eqb_spec (run_time rc) 0); [reflexivity|].
      destruct (Z.eqb_spec (run_time rc - n) 0); [lia|]. cbn [negb andb].
      destruct (Z.eqb_spec (run_time rc - n - 1) 0); [lia|reflexivity]. }
    rewrite Htime, Hnoops.
    assert (Hrt' : (if negb (wl_run_time s =? 0) then wl_run_time s - 1
                    else wl_run_time s)
                   = (if run_time rc =? 0 then 0 else run_time rc - (n + 1))).
    { rewrite Hrt. destruct (Z.eqb_spec (run_time rc) 0); [reflexivity|].
      destruct (Z.eqb_spec (run_time rc - n) 0); [lia|]. cbn [negb]. lia. }
    rewrite Hrt'.
    destruct (Z.eqb_spec (report_interval rc) 0) as [HR0|HR0].
    + rewrite Hiv. cbn [Z.eqb andb].
      destruct (negb (wl_run_time s =? 0) && true && (run_ops rc =? 0));
        eexists; (split; [reflexivity|]);
        cbn [wl_slept wl_run_time wl_interval wl_reports];
        repeat split; lia.
    + destruct (div_mod_succ n (report_interval rc) ltac:(lia) Hn)
        as (Hsame & Hnext).
      pose proof (Z.mod_pos_bound n (report_interval rc) ltac:(lia)) as Hm.
      destruct (Z.eqb_spec (wl_interval s) 0) as [Hi0|_]; [lia|].
      rewrite andb_false_r. cbn [andb].
      destruct (Z.ltb_spec 0 (wl_interval s - 1)) as [Hgo|Hrep'].
      * destruct Hsame as (Hd & Hmd); [lia|].
        eexists. split; [reflexivity|].
        cbn [wl_slept wl_run_time wl_interval wl_reports].
        rewrite Hd, Hmd. repeat split; lia.
      * destruct Hnext as (Hd & Hmd); [lia|].
        eexists. split; [reflexivity|].
        cbn [wl_slept wl_run_time wl_interval wl_reports].
        rewrite length_app, Hd, Hmd. cbn [length]. repeat split; lia.
Qed.

Lemma workload_step_last_second (rc : RUN_CONFIG) (t : workload_tick)
    (s : workload_state) :
  t_error t = 0 -> wl_run_time s = 1 ->
  workload_step rc t s
  = WlDone ExitTime
      (Workload (wl_interval s) 0 (g_ckpt_ops s) (g_insert_ops s)
                (g_read_ops s) (g_update_ops s) (last_ckpts s)
                (last_inserts s) (last_reads s) (last_updates s)
                (S (wl_slept s)) (wl_reports s)).
Proof. intros He Hr. unfold workload_step. now rewrite He, Hr. Qed.

(** X19: a run with [run_time] set lasts exactly [run_time] passes of one
    second, as long as no worker fails and the operation target, if there
    is one, is not reached before: the loop then ends on the run time, also
    when the target is reached in that same last second, and without
    reading the counters in that pass. *)
Theorem execute_workload_runs_for_run_time (rc : RUN_CONFIG)
    (before after : list workload_tick) (t : workload_tick) :
  RUN_CONFIG_fits rc -> 0 < run_time rc ->
  Z.of_nat (length before) = run_time rc - 1 ->
  Forall (tick_quiet rc) before -> t_error t = 0 ->
  exists s s0,
    workload_run rc before (workload_init rc) = WlRunning s0 /\
    workload_run rc (before ++ t :: after) (workload_init rc)
      = WlDone ExitTime s /\
    Z.of_nat (wl_slept s) = run_time rc /\
    g_read_ops s = g_read_ops s0 /\ g_insert_ops s = g_insert_ops s0 /\
    g_update_ops s = g_update_ops s0 /\ wl_reports s = wl_reports s0.
Proof.
  intros Hfit HT Hlen Hq Herr.
  destruct (workload_run_quiet rc before Hfit Hq ltac:(lia))
    as (s0 & Hrun & Hsl & Hrt & _).
  destruct (Z.eqb_spec (run_time rc) 0); [lia|].
  rewrite workload_run_app, Hrun.
  eexists _, s0. split; [reflexivity|]. split.
  - apply workload_run_one. apply workload_step_last_second; [exact Herr|lia].
  - cbn [wl_slept g_read_ops g_insert_ops g_update_ops wl_reports].
    repeat split. lia.
Qed.

Lemma execute_workload_runs_for_run_time_witness :
  exists s s0,
    workload_run (RunConfig 2 3 10)
      [Tick 0 0 1 2 0; Tick 0 0 2 4 1] (workload_init (RunConfig 2 3 10))
      = WlRunning s0 /\
    workload_run (RunConfig 2 3 10)
      ([Tick 0 0 1 2 0; Tick 0 0 2 4 1] ++ Tick 0 1 6 9 3 :: [Tick 0 1 7 9 4])
      (workload_init (RunConfig 2 3 10)) = WlDone ExitTime s /\
    Z.of_nat (wl_slept s) = run_time (RunConfig 2 3 10) /\
    g_read_ops s = g_read_ops s0 /\ g_insert_ops s = g_insert_ops s0 /\
    g_update_ops s = g_update_ops s0 /\ wl_reports s = wl_reports s0.
Proof.
  apply (execute_workload_runs_for_run_time (RunConfig 2 3 10)
           [Tick 0 0 1 2 0; Tick 0 0 2 4 1] [Tick 0 1 7 9 4] (Tick 0 1 6 9 3)).
  - unfold RUN_CONFIG_fits. cbn. lia.
  - cbn. lia.
  - reflexivity.
  - repeat constructor; cbn; right; now vm_compute.
  - reflexivity.
Defined.

(** X20: in such a run the log gets one throughput line every
    [report_interval] seconds, but none in the second the run ends:
    [(run_time - 1) / report_interval] lines in all, so that a run whose
    time is a multiple of the interval ends without a line for its last
    interval. *)
Theorem execute_workload_report_count (rc : RUN_CONFIG)
    (before after : list workload_tick) (t : workload_tick) :
  RUN_CONFIG_fits rc -> 0 < run_time rc -> 0 < report_interval rc ->
  Z.of_nat (length before) = run_time rc - 1 ->
  Forall (tick_quiet rc) before -> t_error t = 0 ->
  Z.of_nat (length (wl_reports (workload_state_of
     (workload_run rc (before ++ t :: after) (workload_init rc)))))
  = (run_time rc - 1) / report_interval rc.
Proof.
  intros Hfit HT HR Hlen Hq Herr.
  destruct (workload_run_quiet rc before Hfit Hq ltac:(lia))
    as (s0 & Hrun & Hsl & Hrt & _ & Hrep).
  destruct (Z.eqb_spec (run_time rc) 0); [lia|].
  destruct (Z.eqb_spec (report_interval rc) 0); [lia|].
  rewrite workload_run_app, Hrun.
  rewrite (workload_run_one rc t after s0 _ ExitTime
             (workload_step_last_second rc t s0 Herr ltac:(lia))).
  cbn [workload_state_of wl_reports]. rewrite <- Hlen. exact Hrep.
Qed.

Lemma execute_workload_report_count_witness :
  Z.of_nat (length (wl_reports (workload_state_of
     (workload_run (RunConfig 2 4 0)
        ([Tick 0 0 1 2 0; Tick 0 0 2 4 1; Tick 0 1 6 9 3]
         ++ Tick 0 1 7 9 4 :: [])
        (workload_init (RunConfig 2 4 0))))))
  = (run_time (RunConfig 2 4 0) - 1) / report_interval (RunConfig 2 4 0).
Proof.
  apply (execute_workload_report_count (RunConfig 2 4 0)
           [Tick 0 0 1 2 0; Tick 0 0 2 4 1; Tick 0 1 6 9 3] []
           (Tick 0 1 7 9 4)).
  - unfold RUN_CONFIG_fits. cbn. lia.
  - cbn. lia.
  - cbn. lia.
  - reflexivity.
  - repeat constructor; cbn; now left.
  - reflexivity.
Defined.

(** X21: a run with an operation target ends in the first second in which
    the workers' counts, added up, have reached [run_ops], provided the run
    time, if set, has not run out by then; the global sums then hold the
    counts seen in that second. *)
Theorem execute_workload_stops_at_run_ops (rc : RUN_CONFIG)
    (before after : list workload_tick) (t : workload_tick) :
  RUN_CONFIG_fits rc -> 0 < run_ops rc ->
  run_time rc = 0 \/ Z.of_nat (length before) + 1 < run_time rc ->
  Forall (tick_quiet rc) before ->
  t_error t = 0 -> run_ops rc <= tick_total t ->
  exists s,
    workload_run rc (before ++ t :: after) (workload_init rc)
      = WlDone ExitOps s /\
    wl_slept s = S (length before) /\
    g_insert_ops s = t_insert t /\ g_read_ops s = t_read t /\
    g_update_ops s = t_update t /\ g_ckpt_ops s = t_ckpt t.
Proof.
  intros Hfit HO Htime Hq Herr Hops.
  destruct (workload_run_quiet rc before Hfit Hq ltac:(lia))
    as (s0 & Hrun & Hsl & Hrt & _).
  rewrite workload_run_app, Hrun.
  eexists. split.
  - apply workload_run_one. unfold workload_step. rewrite Herr, Hrt.
    cbn [Z.eqb negb].
    assert (Hnt : negb ((if run_time rc =? 0 then 0
                         else run_time rc - Z.of_nat (length before)) =? 0)
                  && ((if negb ((if run_time rc =? 0 then 0
                                 else run_time rc - Z.of_nat (length before))
                                =? 0)
                       then (if run_time rc =? 0 then 0
                             else run_time rc - Z.of_nat (length before)) - 1
                       else (if run_time rc =? 0 then 0
                             else run_time rc - Z.of_nat (length before)))
                      =? 0) = false).
    { destruct (Z.eqb_spec (run_time rc) 0); [reflexivity|].
      destruct (Z.eqb_spec (run_time rc - Z.of_nat (length before)) 0); [lia|].
      cbn [negb andb].
      destruct (Z.eqb_spec (run_time rc - Z.of_nat (length before) - 1) 0);
        [lia|reflexivity]. }
    rewrite Hnt.
    destruct (Z.eqb_spec (run_ops rc) 0); [lia|].
    rewrite andb_false_r. cbn [negb andb].
    destruct (Z.leb_spec (run_ops rc) (tick_total t)); [|lia].
    reflexivity.
  - cbn [wl_slept g_insert_ops g_read_ops g_update_ops g_ckpt_ops].
    rewrite Hsl. repeat split.
Qed.

Lemma execute_workload_stops_at_run_ops_witness :
  exists s,
    workload_run (RunConfig 2 0 10)
      ([Tick 0 0 1 2 0; Tick 0 0 2 4 1] ++ Tick 0 1 6 9 3 :: [Tick 0 1 7 9 4])
      (workload_init (RunConfig 2 0 10)) = WlDone ExitOps s /\
    wl_slept s = S (length [Tick 0 0 1 2 0; Tick 0 0 2 4 1]) /\
    g_insert_ops s = t_insert (Tick 0 1 6 9 3) /\
    g_read_ops s = t_read (Tick 0 1 6 9 3) /\
    g_update_ops s = t_update (Tick 0 1 6 9 3) /\
    g_ckpt_ops s = t_ckpt (Tick 0 1 6 9 3).
Proof.
  apply (execute_workload_stops_at_run_ops (RunConfig 2 0 10)
           [Tick 0 0 1 2 0; Tick 0 0 2 4 1] [Tick 0 1 7 9 4] (Tick 0 1 6 9 3)).
  - unfold RUN_CONFIG_fits. cbn. lia.
  - cbn. lia.
  - now left.
  - repeat constructor; cbn; right; now vm_compute.
  - reflexivity.
  - now vm_compute.
Defined.

Lemma reported_snoc (col : report_line -> Z) (l : list report_line)
    (r : report_line) :
  reported col (l ++ [r]) = wrap64 (reported col l + col r).
Proof. unfold reported. now rewrite fold_left_app. Qed.

Lemma wrap64_delta (last now : Z) :
  0 <= now < 2 ^ 64 -> wrap64 (last + wrap64 (now - last)) = now.
Proof.
  intros H. unfold wrap64. rewrite Z.add_mod_idemp_r by lia.
  replace (last + (now - last)) with now by lia. now apply Z.mod_small.
Qed.

Lemma workload_step_reported (rc : RUN_CONFIG) (t : workload_tick)
    (s : workload_state) :
  tick_fits t ->
  reported r_reads (wl_reports s) = last_reads s /\
  reported r_inserts (wl_reports s) = last_inserts s /\
  reported r_updates (wl_reports s) = last_updates s /\
  reported r_ckpts (wl_reports s) = last_ckpts s ->
  let s' := workload_state_of (workload_step rc t s) in
  reported r_reads (wl_reports s') = last_reads s' /\
  reported r_inserts (wl_reports s') = last_inserts s' /\
  reported r_updates (wl_reports s') = last_updates s' /\
  reported r_ckpts (wl_reports s') = last_ckpts s'.
Proof.
  intros (Hc & Hi & Hr & Hu) (Ir & Ii & Iu & Ic). unfold workload_step.
  repeat match goal with
         | |- context [if ?c then _ else _] => destruct c
         end;
    cbn [workload_state_of wl_reports last_reads last_inserts last_updates
         last_ckpts]; try (repeat split; assumption).
  all: rewrite !reported_snoc, Ir, Ii, Iu, Ic.
  all: cbn [r_reads r_inserts r_updates r_ckpts].
  all: rewrite !wrap64_delta by assumption; repeat split.
Qed.

(** X22: the throughput lines add up.  At every point of every run, for
    each of the four counters, the numbers logged so far sum (in 64 bits)
    to the value the counter had when the last line was written: no
    operation is reported twice and none is skipped between two lines. *)
Theorem execute_workload_reports_add_up (rc : RUN_CONFIG)
    (ticks : list workload_tick) :
  Forall tick_fits ticks ->
  let s := workload_state_of (workload_run rc ticks (workload_init rc)) in
  reported r_reads (wl_reports s) = last_reads s /\
  reported r_inserts (wl_reports s) = last_inserts s /\
  reported r_updates (wl_reports s) = last_updates s /\
  reported r_ckpts (wl_reports s) = last_ckpts s.
Proof.
  intros Hfit. cbv zeta.
  assert (Hgen : forall s0 : workload_state,
    reported r_reads (wl_reports s0) = last_reads s0 /\
    reported r_inserts (wl_reports s0) = last_inserts s0 /\
    reported r_updates (wl_reports s0) = last_updates s0 /\
    reported r_ckpts (wl_reports s0) = last_ckpts s0 ->
    reported r_reads (wl_reports (workload_state_of (workload_run rc ticks s0)))
      = last_reads (workload_state_of (workload_run rc ticks s0)) /\
    reported r_inserts (wl_reports (workload_state_of (workload_run rc ticks s0)))
      = last_inserts (workload_state_of (workload_run rc ticks s0)) /\
    reported r_updates (wl_reports (workload_state_of (workload_run rc ticks s0)))
      = last_updates (workload_state_of (workload_run rc ticks s0)) /\
    reported r_ckpts (wl_reports (workload_state_of (workload_run rc ticks s0)))
      = last_ckpts (workload_state_of (workload_run rc ticks s0))).
  { induction Hfit as [|t l Ht _ IH]; intros s0 H0; cbn [workload_run];
      [exact H0|].
    pose proof (workload_step_reported rc t s0 Ht H0) as Hstep.
    cbv zeta in Hstep.
    destruct (workload_step rc t s0) as [s1|why s1];
      cbn [workload_state_of] in *; [now apply IH|exact Hstep]. }
  apply Hgen. repeat split.
Qed.

Lemma execute_workload_reports_add_up_witness :
  let s := workload_state_of
             (workload_run (RunConfig 2 0 0)
                [Tick 0 0 1 2 0; Tick 0 0 2 4 1; Tick 0 1 6 9 3; Tick 0 1 7 9 4]
                (workload_init (RunConfig 2 0 0))) in
  reported r_reads (wl_reports s) = last_reads s /\
  reported r_inserts (wl_reports s) = last_inserts s /\
  reported r_updates (wl_reports s) = last_updates s /\
  reported r_ckpts (wl_reports s) = last_ckpts s.
Proof.
  apply (execute_workload_reports_add_up (RunConfig 2 0 0)
           [Tick 0 0 1 2 0; Tick 0 0 2 4 1; Tick 0 1 6 9 3; Tick 0 1 7 9 4]).
  repeat constructor; now vm_compute.
Defined.

(** ** The summary of [main] *)

Lemma percent_of_exact (part total_ops : Z) :
  0 < total_ops -> 0 <= part -> part * 100 < 2 ^ 64 ->
  percent_of part total_ops = Some (part * 100 / total_ops).
Proof.
  intros Ht Hp Hfit. unfold percent_of.
  destruct (Z.eqb_spec total_ops 0); [lia|].
  rewrite wrap64_small by lia. reflexivity.
Qed.

(** X23: the percentages of the closing summary.  When at least one
    operation was executed and a hundred times the total fits in 64 bits,
    the three percentages printed for reads, inserts and updates are the
    shares rounded down: none is negative, and together they make 98, 99 or
    100, never more. *)
Theorem workload_summary_percentages (reads inserts updates : Z) :
  0 <= reads -> 0 <= inserts -> 0 <= updates ->
  0 < reads + inserts + updates ->
  (reads + inserts + updates) * 100 < 2 ^ 64 ->
  exists pr pi pu,
    workload_summary reads inserts updates = Some (pr, pi, pu) /\
    0 <= pr /\ 0 <= pi /\ 0 <= pu /\
    98 <= pr + pi + pu <= 100.
Proof.
  intros Hr Hi Hu Hpos Hfit. unfold workload_summary.
  rewrite (wrap64_small (reads + inserts)) by lia.
  rewrite (wrap64_small (reads + inserts + updates)) by lia.
  set (t := reads + inserts + updates) in *.
  rewrite !percent_of_exact by lia.
  eexists _, _, _. split; [reflexivity|].
  pose proof (Z.div_mod (reads * 100) t ltac:(lia)) as Dr.
  pose proof (Z.div_mod (inserts * 100) t ltac:(lia)) as Di.
  pose proof (Z.div_mod (updates * 100) t ltac:(lia)) as Du.
  pose proof (Z.mod_pos_bound (reads * 100) t Hpos) as Mr.
  pose proof (Z.mod_pos_bound (inserts * 100) t Hpos) as Mi.
  pose proof (Z.mod_pos_bound (updates * 100) t Hpos) as Mu.
  assert (Pr : 0 <= reads * 100 / t) by (apply Z.div_pos; lia).
  assert (Pi : 0 <= inserts * 100 / t) by (apply Z.div_pos; lia).
  assert (Pu : 0 <= updates * 100 / t) by (apply Z.div_pos; lia).
  set (pr := reads * 100 / t) in *. set (pi := inserts * 100 / t) in *.
  set (pu := updates * 100 / t) in *.
  assert (Hsum : t * 100 = t * (pr + pi + pu)
                 + ((reads * 100) mod t + (inserts * 100) mod t
                    + (updates * 100) mod t)) by (unfold t at 1; lia).
  repeat split; try assumption; nia.
Qed.

Lemma workload_summary_percentages_witness :
  exists pr pi pu,
    workload_summary 1 1 1 = Some (pr, pi, pu) /\
    0 <= pr /\ 0 <= pi /\ 0 <= pu /\
    98 <= pr + pi + pu <= 100.
Proof.
  apply (workload_summary_percentages 1 1 1); now vm_compute.
Defined.

(** X24: the summary divides by the total, so that it can be printed only
    when something was executed: for counts whose sum fits in 64 bits, the
    division traps exactly when all three counts are 0, as after a run in
    which no worker thread completed an operation. *)
Theorem workload_summary_needs_an_operation (reads inserts updates : Z) :
  0 <= reads -> 0 <= inserts -> 0 <= updates ->
  reads + inserts + updates < 2 ^ 64 ->
  (workload_summary reads inserts updates = None
   <-> reads = 0 /\ inserts = 0 /\ updates = 0).
Proof.
  intros Hr Hi Hu Hfit. unfold workload_summary, percent_of.
  rewrite (wrap64_small (reads + inserts)) by lia.
  rewrite (wrap64_small (reads + inserts + updates)) by lia.
  destruct (Z.eqb_spec (reads + inserts + updates) 0) as [H0|H0].
  - split; [intros _; lia|reflexivity].
  - split; [discriminate|lia].
Qed.

Lemma workload_summary_needs_an_operation_witness :
  workload_summary 0 0 0 = None <-> 0 = 0 /\ 0 = 0 /\ 0 = 0.
Proof.
  apply (workload_summary_needs_an_operation 0 0 0); now vm_compute.
Defined.

(** ** The checkpoint thread *)

Lemma ckpt_sleep_zeros (n : nat) :
  forall (j : nat) (rest : list Z) (ev : list ckpt_event),
  (n <= j)%nat ->
  ckpt_sleep n (replicate j 0 ++ rest) ev
  = (Some (replicate (j - n) 0 ++ rest), ev ++ replicate n EvSleep).
Proof.
  induction n as [|n IH]; intros j rest ev Hj; cbn [ckpt_sleep replicate].
  - now rewrite Nat.sub_0_r, app_nil_r.
  - destruct j as [|j]; [lia|]. cbn [replicate app Z.eqb negb].
    rewrite IH by lia. rewrite <- app_assoc. reflexivity.
Qed.

Lemma ckpt_sleep_stop (n : nat) :
  forall (j : nat) (r : Z) (rest : list Z) (ev : list ckpt_event),
  (j < n)%nat -> r <> 0 ->
  ckpt_sleep n (replicate j 0 ++ r :: rest) ev
  = (Some rest, ev ++ replicate (S j) EvSleep).
Proof.
  induction n as [|n IH]; intros j r rest ev Hj Hr; [lia|].
  cbn [ckpt_sleep]. destruct j as [|j]; cbn [replicate app].
  - destruct (Z.eqb_spec r 0); [contradiction|]. reflexivity.
  - cbn [Z.eqb negb]. rewrite IH by (assumption || lia).
    rewrite <- app_assoc. reflexivity.
Qed.

(** The thread from any point of its run: [m] reads of [g_stop] return 0,
    all later ones do not. *)
Lemma checkpoint_worker_rounds {St : Type} (checkpoint_interval : Z)
    (checkpoint : St -> Z * St) (rest : list Z) :
  (forall st, fst (checkpoint st) = 0) ->
  Forall (fun r => r <> 0) rest -> (2 <= length rest)%nat ->
  forall (fuel m : nat) (s : ckpt_state St),
  (m / (Z.to_nat checkpoint_interval + 2) < fuel)%nat ->
  0 <= ck_ops s ->
  ck_ops s + Z.of_nat (m / (Z.to_nat checkpoint_interval + 2)) < 2 ^ 64 ->
  exists s',
    checkpoint_worker fuel checkpoint_interval checkpoint
      (replicate m 0 ++ rest) s = CkStopped s' /\
    ck_ops s'
      = ck_ops s + Z.of_nat (m / (Z.to_nat checkpoint_interval + 2)) /\
    ck_events s'
      = ck_events s
        ++ ckpt_rounds (m / (Z.to_nat checkpoint_interval + 2))
             (Z.to_nat checkpoint_interval)
        ++ replicate (Nat.min (m mod (Z.to_nat checkpoint_interval + 2))
                              (Z.to_nat checkpoint_interval)) EvSleep.
Proof.
  intros Hok Hrest Hlen. set (n := Z.to_nat checkpoint_interval).
  destruct rest as [|r1 [|r2 rest]]; [cbn in Hlen; lia..|].
  apply Forall_cons in Hrest. destruct Hrest as (Hr1 & Hrest).
  apply Forall_cons in Hrest. destruct Hrest as (Hr2 & Hrest).
  induction fuel as [|fuel IH]; intros m s Hf Ho Hob; [lia|].
  destruct (Nat.lt_ge_cases m (n + 2)) as [Hsmall|Hbig].
  - rewrite (Nat.div_small m (n + 2)) in * by lia.
    rewrite (Nat.mod_small m (n + 2)) by lia.
    cbn [ckpt_rounds app]. destruct m as [|m].
    + cbn [replicate app checkpoint_worker].
      destruct (Z.eqb_spec r1 0); [contradiction|]. cbn [negb].
      exists s. rewrite app_nil_r. repeat split. lia.
    + cbn [replicate app checkpoint_worker Z.eqb negb]. fold n.
      destruct (Nat.lt_ge_cases m n) as [Hin|Hout].
      * rewrite ckpt_sleep_stop by assumption.
        destruct (Z.eqb_spec r2 0); [contradiction|]. cbn [negb].
        eexists. split; [reflexivity|]. cbn [ck_ops ck_events].
        replace (Nat.min (S m) n) with (S m) by lia. repeat split. lia.
      * rewrite ckpt_sleep_zeros by assumption.
        replace (m - n)%nat with O by lia. cbn [replicate app].
        destruct (Z.eqb_spec r1 0); [contradiction|]. cbn [negb].
        eexists. split; [reflexivity|]. cbn [ck_ops ck_events].
        replace (Nat.min (S m) n) with n by lia. repeat split. lia.
  - destruct (Nat.le_exists_sub (n + 2) m Hbig) as (m' & -> & _).
    assert (Hdiv : ((m' + (n + 2)) / (n + 2) = S (m' / (n + 2)))%nat).
    { replace (m' + (n + 2))%nat with (m' + 1 * (n + 2))%nat by lia.
      rewrite Nat.div_add by lia. lia. }
    assert (Hmod : ((m' + (n + 2)) mod (n + 2) = m' mod (n + 2))%nat).
    { replace (m' + (n + 2))%nat with (m' + 1 * (n + 2))%nat by lia.
      apply Nat.Div0.mod_add. }
    rewrite Hdiv in *. rewrite Hmod.
    replace (m' + (n + 2))%nat with (S (n + S m')) by lia.
    cbn [replicate app checkpoint_worker Z.eqb negb]. fold n.
    rewrite ckpt_sleep_zeros by lia.
    replace (n + S m' - n)%nat with (S m') by lia.
    cbn [replicate app Z.eqb negb].
    pose proof (Hok (ck_store s)) as Hret.
    destruct (checkpoint (ck_store s)) as [ret st1]. cbn [fst] in Hret.
    subst ret. cbn [Z.eqb negb].
    match goal with |- context [checkpoint_worker fuel _ _ _ ?s2] =>
      destruct (IH m' s2) as (s' & Hrun & Hops & Hev);
        cbn [ck_ops ck_events] in *; rewrite ?wrap64_small in * by lia;
        try lia
    end.
    exists s'. split; [exact Hrun|]. split; [lia|].
    rewrite Hev. cbn [ckpt_rounds]. rewrite <- !app_assoc. reflexivity.
Qed.

(** X25: the checkpoint thread checkpoints once per full round and never
    after it has seen [g_stop].  A round reads [g_stop] at the loop test,
    after each of the [checkpoint_interval] sleeps and once more before the
    checkpoint.  When the first [m] reads return 0 and the later ones do
    not, and no checkpoint fails, the thread leaves its loop having made
    [m / (checkpoint_interval + 2)] checkpoints, each after
    [checkpoint_interval] sleeps, and what follows the last of them is
    sleeps only. *)
Theorem checkpoint_worker_stops_checkpointing {St : Type}
    (checkpoint_interval : Z) (checkpoint : St -> Z * St) (rest : list Z)
    (fuel m : nat) (st : St) :
  (forall s, fst (checkpoint s) = 0) ->
  Forall (fun r => r <> 0) rest -> (2 <= length rest)%nat ->
  (m / (Z.to_nat checkpoint_interval + 2) < fuel)%nat ->
  Z.of_nat m < 2 ^ 64 ->
  exists s',
    checkpoint_worker fuel checkpoint_interval checkpoint
      (replicate m 0 ++ rest) (CkptState 0 0 st []) = CkStopped s' /\
    ck_ops s' = Z.of_nat (m / (Z.to_nat checkpoint_interval + 2)) /\
    ck_events s'
      = ckpt_rounds (m / (Z.to_nat checkpoint_interval + 2))
          (Z.to_nat checkpoint_interval)
        ++ replicate (Nat.min (m mod (Z.to_nat checkpoint_interval + 2))
                              (Z.to_nat checkpoint_interval)) EvSleep.
Proof.
  intros Hok Hrest Hlen Hf Hm.
  assert (Hdiv : (m / (Z.to_nat checkpoint_interval + 2) <= m)%nat)
    by (apply Nat.Div0.div_le_upper_bound; nia).
  destruct (checkpoint_worker_rounds checkpoint_interval checkpoint rest Hok
              Hrest Hlen fuel m (CkptState 0 0 st []) Hf)
    as (s' & Hrun & Hops & Hev); cbn [ck_ops ck_events] in *; try lia.
  exists s'. split; [exact Hrun|]. split; [lia|exact Hev].
Qed.

Lemma checkpoint_worker_stops_checkpointing_witness :
  exists s',
    checkpoint_worker 3 2 (fun st : nat => (0, S st))
      (replicate 10 0 ++ [1; 1]) (CkptState 0 0 O []) = CkStopped s' /\
    ck_ops s' = Z.of_nat (10 / (Z.to_nat 2 + 2)) /\
    ck_events s'
      = ckpt_rounds (10 / (Z.to_nat 2 + 2)) (Z.to_nat 2)
        ++ replicate (Nat.min (10 mod (Z.to_nat 2 + 2)) (Z.to_nat 2)) EvSleep.
Proof.
  apply (checkpoint_worker_stops_checkpointing 2 (fun st : nat => (0, S st))
           [1; 1] 3 10 O).
  - reflexivity.
  - repeat constructor; discriminate.
  - cbn. lia.
  - vm_compute. lia.
  - now vm_compute.
Defined.

(** X26: a checkpoint that fails ends the thread through [err:]: after a
    round in which [g_stop] was not seen, the failed checkpoint is not
    counted in the thread's operations, and [g_ckpt], set before the call,
    is left at 1. *)
Theorem checkpoint_worker_failed_checkpoint {St : Type}
    (checkpoint_interval : Z) (checkpoint : St -> Z * St) (rest : list Z)
    (fuel : nat) (s : ckpt_state St) :
  fst (checkpoint (ck_store s)) <> 0 ->
  exists s',
    checkpoint_worker (S fuel) checkpoint_interval checkpoint
      (replicate (Z.to_nat checkpoint_interval + 2) 0 ++ rest) s
      = CkFailed s' /\
    ck_ops s' = ck_ops s /\ ck_g_ckpt s' = 1 /\
    ck_events s'
      = ck_events s ++ replicate (Z.to_nat checkpoint_interval) EvSleep
        ++ [EvCheckpoint].
Proof.
  intros Hbad. set (n := Z.to_nat checkpoint_interval).
  replace (n + 2)%nat with (S (n + 1)) by lia.
  cbn [replicate app checkpoint_worker Z.eqb negb]. fold n.
  rewrite ckpt_sleep_zeros by lia.
  replace (n + 1 - n)%nat with 1%nat by lia.
  cbn [replicate app Z.eqb negb].
  destruct (checkpoint (ck_store s)) as [ret st1]. cbn [fst] in Hbad.
  destruct (Z.eqb_spec ret 0); [contradiction|]. cbn [negb].
  eexists. split; [reflexivity|]. cbn [ck_ops ck_g_ckpt ck_events].
  rewrite <- app_assoc. repeat split.
Qed.

Lemma checkpoint_worker_failed_checkpoint_witness :
  exists s',
    checkpoint_worker (S 0) 2 (fun st : nat => (-1, S st))
      (replicate (Z.to_nat 2 + 2) 0 ++ []) (CkptState 4 0 O [EvSleep])
      = CkFailed s' /\
    ck_ops s' = ck_ops (CkptState 4 0 O [EvSleep]) /\ ck_g_ckpt s' = 1 /\
    ck_events s'
      = ck_events (CkptState 4 0 O [EvSleep])
        ++ replicate (Z.to_nat 2) EvSleep ++ [EvCheckpoint].
Proof.
  apply (checkpoint_worker_failed_checkpoint 2 (fun st : nat => (-1, S st))
           [] 0 (CkptState 4 0 O [EvSleep])).
  cbn. discriminate.
Defined.
